(** * Appointment lifecycle saga: a shallow embedding and its properties

    The development follows the TypeScript sources of the appointment
    backend: the JSON wire format, the domain types, the DynamoDB and RDS
    repositories, the notification service, the appointment service with its
    status state machine, the per-country processors and the Lambda handlers.
    Stateful code is written in a state-and-exception monad over a [World]
    that holds the stores and the log of external effects. *)

From Stdlib Require Import String Ascii List ZArith NArith Lia Bool.
From Stdlib Require Import DecimalString DecimalPos DecimalFacts Decimal.
From Stdlib Require Floats Uint63.
Import ListNotations.

Local Open Scope string_scope.
Local Open Scope Z_scope.

#[local] Set Warnings "-register-all".


(* ===================================================================== *)
(** * JSON values, [JSON.stringify] and [JSON.parse] *)
(* ===================================================================== *)

(** The wire format of every queue message and HTTP body.  Numbers are
    integers (every number the sources put on the wire is one: [scheduleId]
    and HTTP status codes); strings are sequences of bytes and bytes above
    127 pass through both directions unchanged.  A text whose numbers have a
    fraction or an exponent, or whose strings use a [\u] escape above 127, is
    outside this fragment and [parse] gives [None] for it, as it does for a
    text that is not JSON. *)
Module JSON.

Inductive json : Type :=
| JNull
| JBool (b : bool)
| JNum (n : Z)
| JStr (s : string)
| JArr (items : list json)
| JObj (members : list (string * json)).

Definition dquote : ascii := ascii_of_nat 34.
Definition backslash : ascii := ascii_of_nat 92.

(** ** Printing *)

Definition hex_digit (n : nat) : ascii :=
  match n with
  | 0%nat => "0" | 1%nat => "1" | 2%nat => "2" | 3%nat => "3"
  | 4%nat => "4" | 5%nat => "5" | 6%nat => "6" | 7%nat => "7"
  | 8%nat => "8" | 9%nat => "9" | 10%nat => "a" | 11%nat => "b"
  | 12%nat => "c" | 13%nat => "d" | 14%nat => "e" | _ => "f"
  end%char.

(** One character of a string literal, as [JSON.stringify] quotes it. *)
Definition escape_char (c : ascii) (k : string) : string :=
  let n := nat_of_ascii c in
  if Nat.eqb n 34 then String backslash (String dquote k)
  else if Nat.eqb n 92 then String backslash (String backslash k)
  else if Nat.eqb n 8 then String backslash (String "b" k)
  else if Nat.eqb n 9 then String backslash (String "t" k)
  else if Nat.eqb n 10 then String backslash (String "n" k)
  else if Nat.eqb n 12 then String backslash (String "f" k)
  else if Nat.eqb n 13 then String backslash (String "r" k)
  else if Nat.ltb n 32 then
    String backslash (String "u" (String "0" (String "0"
      (String (hex_digit (n / 16)) (String (hex_digit (n mod 16)) k)))))
  else String c k.

Fixpoint escape (s : string) (k : string) : string :=
  match s with
  | EmptyString => k
  | String c r => escape_char c (escape r k)
  end.

Definition quote (s : string) (k : string) : string :=
  String dquote (escape s (String dquote k)).

Definition print_Z (n : Z) (k : string) : string :=
  match n with
  | Z0 => String "0" k
  | Zpos p => NilEmpty.string_of_uint (Pos.to_uint p) ++ k
  | Zneg p => String "-" (NilEmpty.string_of_uint (Pos.to_uint p) ++ k)
  end.

(** [print v k] is the compact text of [v] followed by [k]. *)
Fixpoint print (v : json) (k : string) : string :=
  match v with
  | JNull => "null" ++ k
  | JBool true => "true" ++ k
  | JBool false => "false" ++ k
  | JNum n => print_Z n k
  | JStr s => quote s k
  | JArr items =>
      String "["
        ((fix elems (l : list json) (k : string) : string :=
            match l with
            | [] => k
            | x :: r =>
                print x (match r with [] => elems r k | _ => String "," (elems r k) end)
            end) items (String "]" k))
  | JObj members =>
      String "{"
        ((fix membs (l : list (string * json)) (k : string) : string :=
            match l with
            | [] => k
            | (key, x) :: r =>
                quote key (String ":"
                  (print x (match r with [] => membs r k | _ => String "," (membs r k) end)))
            end) members (String "}" k))
  end.

Fixpoint print_elems (l : list json) (k : string) : string :=
  match l with
  | [] => k
  | x :: r => print x (match r with [] => print_elems r k | _ => String "," (print_elems r k) end)
  end.

Fixpoint print_members (l : list (string * json)) (k : string) : string :=
  match l with
  | [] => k
  | (key, x) :: r =>
      quote key (String ":"
        (print x (match r with [] => print_members r k | _ => String "," (print_members r k) end)))
  end.

(** [JSON.stringify(v)] with no indentation. *)
Definition stringify (v : json) : string := print v EmptyString.

(** ** Parsing *)

Definition is_digit (c : ascii) : bool :=
  let n := nat_of_ascii c in (Nat.leb 48 n && Nat.leb n 57)%bool.

Definition is_ws (c : ascii) : bool :=
  let n := nat_of_ascii c in
  (Nat.eqb n 32 || Nat.eqb n 9 || Nat.eqb n 10 || Nat.eqb n 13)%bool.

Fixpoint skip_ws (s : string) : string :=
  match s with
  | String c r => if is_ws c then skip_ws r else s
  | EmptyString => s
  end.

Definition hex_value (c : ascii) : option nat :=
  let n := nat_of_ascii c in
  if (Nat.leb 48 n && Nat.leb n 57)%bool then Some (n - 48)%nat
  else if (Nat.leb 97 n && Nat.leb n 102)%bool then Some (n - 87)%nat
  else if (Nat.leb 65 n && Nat.leb n 70)%bool then Some (n - 55)%nat
  else None.

(** The character a [\uXXXX] escape stands for, when it is below 128. *)
Definition unicode_escape (h1 h2 h3 h4 : ascii) : option ascii :=
  match hex_value h1, hex_value h2, hex_value h3, hex_value h4 with
  | Some a, Some b, Some c, Some d =>
      if (Nat.eqb a 0 && Nat.eqb b 0 && Nat.ltb c 8)%bool
      then Some (ascii_of_nat (c * 16 + d))
      else None
  | _, _, _, _ => None
  end.

Definition simple_escape (e : ascii) : option ascii :=
  let n := nat_of_ascii e in
  if Nat.eqb n 34 then Some dquote
  else if Nat.eqb n 92 then Some backslash
  else if Nat.eqb n 47 then Some "/"%char
  else if Nat.eqb n 98 then Some (ascii_of_nat 8)
  else if Nat.eqb n 116 then Some (ascii_of_nat 9)
  else if Nat.eqb n 110 then Some (ascii_of_nat 10)
  else if Nat.eqb n 102 then Some (ascii_of_nat 12)
  else if Nat.eqb n 114 then Some (ascii_of_nat 13)
  else None.

Definition cons_result (c : ascii) (r : option (string * string)) :
  option (string * string) :=
  match r with
  | Some (t, k) => Some (String c t, k)
  | None => None
  end.

(** The characters of a string literal after its opening quote, up to and
    with the closing quote; the rest of the text is returned with them. *)
Fixpoint parse_chars (s : string) : option (string * string) :=
  match s with
  | EmptyString => None
  | String c r =>
      let n := nat_of_ascii c in
      if Nat.eqb n 34 then Some (EmptyString, r)
      else if Nat.eqb n 92 then
        match r with
        | String e r1 =>
            if Nat.eqb (nat_of_ascii e) 117 then
              match r1 with
              | String h1 (String h2 (String h3 (String h4 r2))) =>
                  match unicode_escape h1 h2 h3 h4 with
                  | Some a => cons_result a (parse_chars r2)
                  | None => None
                  end
              | _ => None
              end
            else
              match simple_escape e with
              | Some a => cons_result a (parse_chars r1)
              | None => None
              end
        | EmptyString => None
        end
      else if Nat.ltb n 32 then None
      else cons_result c (parse_chars r)
  end.

Fixpoint span_digits (s : string) : string * string :=
  match s with
  | String c r =>
      if is_digit c then let '(d, k) := span_digits r in (String c d, k)
      else (EmptyString, s)
  | EmptyString => (EmptyString, EmptyString)
  end.

Definition starts_fraction (k : string) : bool :=
  match k with
  | String c _ =>
      let n := nat_of_ascii c in (Nat.eqb n 46 || Nat.eqb n 101 || Nat.eqb n 69)%bool
  | EmptyString => false
  end.

(** An unsigned integer literal: digits with no leading zero. *)
Definition parse_digits (s : string) : option (N * string) :=
  let '(ds, k) := span_digits s in
  if starts_fraction k then None
  else
    match ds with
    | EmptyString => None
    | String c (String _ _) =>
        if Nat.eqb (nat_of_ascii c) 48 then None
        else match NilEmpty.uint_of_string ds with
             | Some d => Some (N.of_uint d, k)
             | None => None
             end
    | _ => match NilEmpty.uint_of_string ds with
           | Some d => Some (N.of_uint d, k)
           | None => None
           end
    end.

(** The rest of [s] after the literal [lit], when [s] starts with it. *)
Fixpoint expect (lit : string) (s : string) : option string :=
  match lit with
  | EmptyString => Some s
  | String a lit' =>
      match s with
      | String b s' => if Ascii.eqb a b then expect lit' s' else None
      | EmptyString => None
      end
  end.

Fixpoint parse_value (fuel : nat) (s : string) : option (json * string) :=
  match fuel with
  | O => None
  | S f =>
      match s with
      | EmptyString => None
      | String c r =>
          let n := nat_of_ascii c in
          if Nat.eqb n 110 then option_map (fun k => (JNull, k)) (expect "ull" r)
          else if Nat.eqb n 116 then option_map (fun k => (JBool true, k)) (expect "rue" r)
          else if Nat.eqb n 102 then option_map (fun k => (JBool false, k)) (expect "alse" r)
          else if Nat.eqb n 34 then
            match parse_chars r with
            | Some (t, k) => Some (JStr t, k)
            | None => None
            end
          else if Nat.eqb n 45 then
            match parse_digits r with
            | Some (m, k) => Some (JNum (- Z.of_N m), k)
            | None => None
            end
          else if is_digit c then
            match parse_digits s with
            | Some (m, k) => Some (JNum (Z.of_N m), k)
            | None => None
            end
          else if Nat.eqb n 91 then
            match skip_ws r with
            | String c1 r1 =>
                if Nat.eqb (nat_of_ascii c1) 93 then Some (JArr [], r1)
                else match parse_elems f (String c1 r1) with
                     | Some (l, k) => Some (JArr l, k)
                     | None => None
                     end
            | EmptyString => None
            end
          else if Nat.eqb n 123 then
            match skip_ws r with
            | String c1 r1 =>
                if Nat.eqb (nat_of_ascii c1) 125 then Some (JObj [], r1)
                else match parse_members f (String c1 r1) with
                     | Some (l, k) => Some (JObj l, k)
                     | None => None
                     end
            | EmptyString => None
            end
          else None
      end
  end

(** The elements of an array from its first element to the closing
    bracket; [s] starts at an element. *)
with parse_elems (fuel : nat) (s : string) : option (list json * string) :=
  match fuel with
  | O => None
  | S f =>
      match parse_value f s with
      | Some (v, k) =>
          match skip_ws k with
          | String c r =>
              let n := nat_of_ascii c in
              if Nat.eqb n 44 then
                match parse_elems f (skip_ws r) with
                | Some (l, k') => Some (v :: l, k')
                | None => None
                end
              else if Nat.eqb n 93 then Some ([v], r)
              else None
          | EmptyString => None
          end
      | None => None
      end
  end

(** The members of an object from its first key to the closing brace. *)
with parse_members (fuel : nat) (s : string) : option (list (string * json) * string) :=
  match fuel with
  | O => None
  | S f =>
      match s with
      | String q r =>
          if Nat.eqb (nat_of_ascii q) 34 then
            match parse_chars r with
            | Some (key, k0) =>
                match skip_ws k0 with
                | String colon r0 =>
                    if Nat.eqb (nat_of_ascii colon) 58 then
                      match parse_value f (skip_ws r0) with
                      | Some (v, k) =>
                          match skip_ws k with
                          | String c r1 =>
                              let n := nat_of_ascii c in
                              if Nat.eqb n 44 then
                                match parse_members f (skip_ws r1) with
                                | Some (l, k') => Some ((key, v) :: l, k')
                                | None => None
                                end
                              else if Nat.eqb n 125 then Some ([(key, v)], r1)
                              else None
                          | EmptyString => None
                          end
                      | None => None
                      end
                    else None
                | EmptyString => None
                end
            | None => None
            end
          else None
      | EmptyString => None
      end
  end.

(** [JSON.parse(text)]: [None] stands for the [SyntaxError] it throws. *)
Definition parse (text : string) : option json :=
  match parse_value (2 * String.length text + 2) (skip_ws text) with
  | Some (v, k) =>
      match skip_ws k with
      | EmptyString => Some v
      | String _ _ => None
      end
  | None => None
  end.

End JSON.

Import JSON.

(* ===================================================================== *)
(** * Domain types ([types/appointment.types.ts]) *)
(* ===================================================================== *)

Inductive CountryISO : Type := PE | CL.

Definition CountryISO_value (c : CountryISO) : string :=
  match c with PE => "PE" | CL => "CL" end.

Definition CountryISO_eqb (a b : CountryISO) : bool :=
  match a, b with PE, PE | CL, CL => true | _, _ => false end.

Inductive AppointmentStatus : Type := PENDING | PROCESSING | COMPLETED | FAILED.

Definition AppointmentStatus_value (s : AppointmentStatus) : string :=
  match s with
  | PENDING => "pending"
  | PROCESSING => "processing"
  | COMPLETED => "completed"
  | FAILED => "failed"
  end.

Definition AppointmentStatus_eqb (a b : AppointmentStatus) : bool :=
  match a, b with
  | PENDING, PENDING | PROCESSING, PROCESSING
  | COMPLETED, COMPLETED | FAILED, FAILED => true
  | _, _ => false
  end.

Module AppointmentRequest.
Record t : Type := mk
  { insuredId : string; scheduleId : Z; countryISO : CountryISO }.
End AppointmentRequest.

Module Appointment.
Record t : Type := mk
  { id : string;
    insuredId : string;
    scheduleId : Z;
    countryISO : CountryISO;
    status : AppointmentStatus;
    createdAt : string;
    updatedAt : string }.
End Appointment.

Module AppointmentResponse.
Record t : Type := mk
  { success : bool;
    message : string;
    data : option (string * AppointmentStatus);   (* appointmentId, status *)
    error : option string }.
End AppointmentResponse.

Module AppointmentCreatedEvent.
Record t : Type := mk
  { appointmentId : string;
    insuredId : string;
    scheduleId : Z;
    countryISO : CountryISO;
    createdAt : string }.
End AppointmentCreatedEvent.

Module AppointmentConfirmedEvent.
Record t : Type := mk
  { appointmentId : string;
    countryISO : CountryISO;
    confirmedAt : string;
    status : AppointmentStatus }.
End AppointmentConfirmedEvent.

Module AppointmentRDSEntity.
Record t : Type := mk
  { id : string;
    insured_id : string;
    schedule_id : Z;
    center_id : Z;
    specialty_id : Z;
    medic_id : Z;
    appointment_date : string;
    status : string;
    created_at : string;
    updated_at : string }.
End AppointmentRDSEntity.

(** ** Errors *)

(** The classes of the values the code throws.  The last four form the
    hierarchy of [AppointmentError]; the first ones are the errors of the
    runtime and of the AWS and MySQL clients. *)
Inductive ErrorClass : Type :=
| Error_
| SyntaxError_
| TypeError_
| ConditionalCheckFailedException_
| ValidationException_
| AppointmentError_
| ValidationError_
| NotFoundError_
| ConflictError_.

(** [code] and [statusCode] are the fields that [AppointmentError] adds;
    on the other classes they are unset, written [EmptyString] and [0]. *)
Record JsError : Type := mkError
  { cls : ErrorClass; message : string; code : string; statusCode : Z }.

Definition Error (msg : string) : JsError := mkError Error_ msg "" 0.

Definition AppointmentError (msg code : string) (statusCode : option Z) : JsError :=
  mkError AppointmentError_ msg code
          (match statusCode with Some n => n | None => 500 end).

Definition ValidationError (msg : string) : JsError :=
  mkError ValidationError_ msg "VALIDATION_ERROR" 400.

Definition NotFoundError (msg : string) : JsError :=
  mkError NotFoundError_ msg "NOT_FOUND" 404.

Definition ConflictError (msg : string) : JsError :=
  mkError ConflictError_ msg "CONFLICT" 409.

Definition error_name (e : JsError) : string :=
  match cls e with
  | Error_ => "Error"
  | SyntaxError_ => "SyntaxError"
  | TypeError_ => "TypeError"
  | ConditionalCheckFailedException_ => "ConditionalCheckFailedException"
  | ValidationException_ => "ValidationException"
  | AppointmentError_ => "AppointmentError"
  | ValidationError_ => "ValidationError"
  | NotFoundError_ => "NotFoundError"
  | ConflictError_ => "ConflictError"
  end.

Definition instanceof_ValidationError (e : JsError) : bool :=
  match cls e with ValidationError_ => true | _ => false end.

Definition instanceof_ConflictError (e : JsError) : bool :=
  match cls e with ConflictError_ => true | _ => false end.

Definition instanceof_NotFoundError (e : JsError) : bool :=
  match cls e with NotFoundError_ => true | _ => false end.

Definition instanceof_AppointmentError (e : JsError) : bool :=
  match cls e with
  | AppointmentError_ | ValidationError_ | NotFoundError_ | ConflictError_ => true
  | _ => false
  end.

(** ** Decimal text of numbers in template strings *)

Definition Z_to_string (n : Z) : string := print_Z n EmptyString.

Definition nat_to_string (n : nat) : string := Z_to_string (Z.of_nat n).

(* ===================================================================== *)
(** * The world outside the Lambdas *)
(* ===================================================================== *)

Inductive Topic : Type :=
| CountryTopic (c : CountryISO)
| ErrorTopic.

(** The calls that reached an external service and took effect there, oldest
    first. *)
Inductive Effect : Type :=
| DynamoPut (item : Appointment.t)
| DynamoUpdate (id : string) (status : AppointmentStatus) (updatedAt : string)
| RdsInsert (country : CountryISO) (row : AppointmentRDSEntity.t)
| SnsPublish (topic : Topic) (message subject : string)
             (messageAttributes : list (string * string))
| PutEvents (source detailType detail : string).

(** [appointments] is the DynamoDB table in the order in which a [Scan]
    reads its items.  That order is DynamoDB's (it follows a hash of the
    key); the model puts a new item last.  [rds_pe] and [rds_cl] are the
    [appointments] tables of the two MySQL databases; [uuids] counts the
    identifiers drawn so far. *)
Record World : Type := mkWorld
  { appointments : list Appointment.t;
    rds_pe : list AppointmentRDSEntity.t;
    rds_cl : list AppointmentRDSEntity.t;
    effects : list Effect;
    uuids : nat }.

Definition rds (c : CountryISO) (w : World) : list AppointmentRDSEntity.t :=
  match c with PE => rds_pe w | CL => rds_cl w end.

Definition emptyWorld : World := mkWorld [] [] [] [] 0.

(** A failure of the MySQL client: its [code] and [message]. *)
Record MysqlError : Type := mkMysqlError
  { mysql_code : string; mysql_message : string }.

(** What the environment decides for one invocation: the clock, the
    configuration, and for each kind of external call whether it is rejected
    ([Some], with the message of the client's error) or goes through
    ([None]). *)
Record Env : Type := mkEnv
  { now : string;                          (* new Date().toISOString() *)
    ERROR_TOPIC_ARN : bool;                (* process.env.ERROR_TOPIC_ARN is set *)
    dynamo_put_fault : option string;
    dynamo_get_fault : option string;
    dynamo_update_fault : option string;
    dynamo_scan_fault : option string;
    sns_fault : option string;
    eventbridge_fault : option string;
    rds_connect_fault : option string;
    rds_execute_fault : option MysqlError }.

Definition no_faults (clock : string) : Env :=
  mkEnv clock true None None None None None None None None.

(** ** Computations: state and exceptions *)

Inductive Result (A : Type) : Type :=
| Ok (a : A)
| Throw (e : JsError).
Arguments Ok {A} a.
Arguments Throw {A} e.

(** An [async] function of the sources: it runs from a world, ends in a
    value or a thrown error, and leaves a world.  What it did before
    throwing stays done. *)
Definition M (A : Type) : Type := World -> Result A * World.

Definition ret {A} (a : A) : M A := fun w => (Ok a, w).

Definition throw {A} (e : JsError) : M A := fun w => (Throw e, w).

Definition bind {A B} (c : M A) (k : A -> M B) : M B :=
  fun w =>
    match c w with
    | (Ok a, w') => k a w'
    | (Throw e, w') => (Throw e, w')
    end.

Definition try_catch {A} (c : M A) (handler : JsError -> M A) : M A :=
  fun w =>
    match c w with
    | (Ok a, w') => (Ok a, w')
    | (Throw e, w') => handler e w'
    end.

Definition lift {A} (r : Result A) : M A := fun w => (r, w).

Declare Scope js_scope.
Delimit Scope js_scope with js.
Notation "x <- c ;; k" := (bind c (fun x => k))
  (at level 61, c at next level, right associativity) : js_scope.
Notation "c ;;; k" := (bind c (fun _ => k))
  (at level 61, right associativity) : js_scope.
Local Open Scope js_scope.

Definition log_effect (e : Effect) : M unit :=
  fun w => (Ok tt, mkWorld (appointments w) (rds_pe w) (rds_cl w)
                           (effects w ++ [e]) (uuids w)).

(** [uuidv4()]: a fresh identifier. *)
Definition uuid_of (n : nat) : string := "uuid-" ++ nat_to_string n.

Definition uuidv4 : M string :=
  fun w => (Ok (uuid_of (uuids w)),
            mkWorld (appointments w) (rds_pe w) (rds_cl w) (effects w) (S (uuids w))).

(** ** DynamoDB commands on the appointments table *)

(** The item of the table under a key.  DynamoDB admits no empty string as
    the value of a key attribute, so no item is stored under the empty
    key. *)
Definition lookup (id : string) (table : list Appointment.t) : option Appointment.t :=
  if String.eqb id "" then None
  else find (fun a => String.eqb (Appointment.id a) id) table.

(** The [ValidationException] with which DynamoDB answers a [Key] whose
    [id] is the empty string.  (A key of more than 2048 bytes is refused in
    the same way; the model does not follow it, and the statements about
    reads by key are made for keys within that length.) *)
Definition empty_key_message : string :=
  "One or more parameter values are not valid. The AttributeValue for a key attribute cannot contain an empty string value. Key: id".

Definition key_checked {A} (id : string) (c : M A) : M A :=
  if String.eqb id ""
  then throw (mkError ValidationException_ empty_key_message "" 0)
  else c.

(** An SDK call that the environment rejects. *)
Definition rejected {A} (fault : option string) (c : M A) : M A :=
  match fault with
  | Some msg => throw (Error msg)
  | None => c
  end.

(** [PutCommand] with [ConditionExpression: attribute_not_exists(id)].  The
    sources put items whose id is a fresh uuid, which is a key DynamoDB
    admits. *)
Definition PutCommand_if_absent (fault : option string) (item : Appointment.t) : M unit :=
  rejected fault
    (fun w =>
       match lookup (Appointment.id item) (appointments w) with
       | Some _ =>
           (Throw (mkError ConditionalCheckFailedException_
                           "The conditional request failed" "" 0), w)
       | None =>
           log_effect (DynamoPut item)
             (mkWorld (appointments w ++ [item]) (rds_pe w) (rds_cl w)
                      (effects w) (uuids w))
       end).

(** [GetCommand] with [Key: {id}]. *)
Definition GetCommand (fault : option string) (id : string) : M (option Appointment.t) :=
  rejected fault
    (key_checked id (fun w => (Ok (lookup id (appointments w)), w))).

Definition set_status (id : string) (s : AppointmentStatus) (updatedAt : string)
  (a : Appointment.t) : Appointment.t :=
  if String.eqb (Appointment.id a) id
  then Appointment.mk (Appointment.id a) (Appointment.insuredId a)
         (Appointment.scheduleId a) (Appointment.countryISO a) s
         (Appointment.createdAt a) updatedAt
  else a.

(** [UpdateCommand] setting [status] and [updatedAt], with
    [ConditionExpression: attribute_exists(id)]. *)
Definition UpdateCommand_if_exists (fault : option string)
  (id : string) (s : AppointmentStatus) (updatedAt : string) : M unit :=
  rejected fault
    (key_checked id
       (fun w =>
          match lookup id (appointments w) with
          | None =>
              (Throw (mkError ConditionalCheckFailedException_
                              "The conditional request failed" "" 0), w)
          | Some _ =>
              log_effect (DynamoUpdate id s updatedAt)
                (mkWorld (map (set_status id s updatedAt) (appointments w))
                         (rds_pe w) (rds_cl w) (effects w) (uuids w))
          end)).

(** [ScanCommand] with a [FilterExpression] and a [Limit].  In DynamoDB
    [Limit] is the maximum number of items to evaluate, not the number of
    matching items, and the filter is applied after the items are read: the
    call reads the first [limit] items in scan order and returns those of
    them that pass the filter.  The sources make one call and do not follow
    [LastEvaluatedKey]. *)
Definition ScanCommand (fault : option string)
  (filter_expression : Appointment.t -> bool) (limit : nat) : M (list Appointment.t) :=
  rejected fault
    (fun w => (Ok (filter filter_expression (firstn limit (appointments w))), w)).

(** ** The interfaces the services depend on *)

Module IAppointmentRepository.
Record t : Type := mk
  { create : string -> Z -> CountryISO -> AppointmentStatus -> M Appointment.t;
    findById : string -> M (option Appointment.t);
    updateStatus : string -> AppointmentStatus -> M unit;
    hasConflictingAppointment : Z -> M bool }.
End IAppointmentRepository.

Module INotificationService.
Record t : Type := mk
  { publishAppointmentCreated : AppointmentCreatedEvent.t -> M unit;
    publishAppointmentConfirmed : AppointmentConfirmedEvent.t -> M unit;
    notifyError : JsError -> json -> M unit }.
End INotificationService.

(** ** Values read from parsed JSON *)

(** A JavaScript value read from a parsed message: [None] is [undefined]. *)
Definition jsval : Type := option json.

Definition truthy (v : jsval) : bool :=
  match v with
  | None | Some JNull => false
  | Some (JBool b) => b
  | Some (JNum n) => negb (n =? 0)
  | Some (JStr s) => negb (String.eqb s "")
  | Some (JArr _) | Some (JObj _) => true
  end.

Fixpoint assoc_last (key : string) (l : list (string * json)) : jsval :=
  match l with
  | [] => None
  | (k, v) :: r =>
      match assoc_last key r with
      | Some v' => Some v'
      | None => if String.eqb k key then Some v else None
      end
  end.

(** [v.key] for the keys the sources read ([Message], [data], [detail] and
    the event fields): a [TypeError] on [null], the member of an object (the
    last one when a key is repeated in the text), [undefined] on anything
    else. *)
Definition get_property (v : json) (key : string) : Result jsval :=
  match v with
  | JNull =>
      Throw (mkError TypeError_
               ("Cannot read properties of null (reading '" ++ key ++ "')") "" 0)
  | JObj members => Ok (assoc_last key members)
  | _ => Ok None
  end.

(** [String(v)], as template strings, [RegExp.test] and [JSON.parse] apply
    it to an argument that is not a string. *)
Fixpoint ToString (v : json) : string :=
  match v with
  | JNull => "null"
  | JBool true => "true"
  | JBool false => "false"
  | JNum n => Z_to_string n
  | JStr s => s
  | JObj _ => "[object Object]"
  | JArr items =>
      (fix join (l : list json) : string :=
         match l with
         | [] => ""
         | x :: r =>
             (match x with JNull => "" | _ => ToString x end)
             ++ (match r with [] => "" | _ => "," ++ join r end)
         end) items
  end.

Definition ToString_val (v : jsval) : string :=
  match v with None => "undefined" | Some x => ToString x end.

(** [JSON.parse(text)] inside the sources.  The message of the
    [SyntaxError] is the engine's; one text stands for it. *)
Definition JSON_parse (text : string) : Result json :=
  match parse text with
  | Some v => Ok v
  | None => Throw (mkError SyntaxError_ "Unexpected token in JSON" "" 0)
  end.

(** [/^\d{5}$/.test(s)] *)
Definition five_digits (s : string) : bool :=
  (Nat.eqb (String.length s) 5 && forallb is_digit (list_ascii_of_string s))%bool.

(* ===================================================================== *)
(** * [repositories/appointment.repository.ts] *)
(* ===================================================================== *)

Module AppointmentRepository.
Section WithEnv.
Variable env : Env.

Definition create (insuredId : string) (scheduleId : Z) (countryISO : CountryISO)
  (status : AppointmentStatus) : M Appointment.t :=
  let now := now env in
  id <- uuidv4 ;;
  let appointment :=
    Appointment.mk id insuredId scheduleId countryISO status now now in
  try_catch
    (PutCommand_if_absent (dynamo_put_fault env) appointment ;;;
     ret appointment)
    (fun error =>
       throw (AppointmentError ("Error al crear la cita: " ++ message error)
                               "CREATE_ERROR" None)).

Definition findById (id : string) : M (option Appointment.t) :=
  try_catch
    (GetCommand (dynamo_get_fault env) id)
    (fun error =>
       throw (AppointmentError ("Error al buscar la cita: " ++ message error)
                               "FIND_ERROR" None)).

Definition updateStatus (id : string) (status : AppointmentStatus) : M unit :=
  let updatedAt := now env in
  try_catch
    (UpdateCommand_if_exists (dynamo_update_fault env) id status updatedAt)
    (fun error =>
       if String.eqb (error_name error) "ConditionalCheckFailedException"
       then throw (NotFoundError ("Cita con ID " ++ id ++ " no encontrada"))
       else throw (AppointmentError
                     ("Error al actualizar el estado de la cita: " ++ message error)
                     "UPDATE_STATUS_ERROR" None)).

(** The filter of the conflict scan:
    [scheduleId = :scheduleId AND (#status = :pending OR #status = :processing)] *)
Definition conflict_filter (scheduleId : Z) (a : Appointment.t) : bool :=
  ((Appointment.scheduleId a =? scheduleId)
   && (AppointmentStatus_eqb (Appointment.status a) PENDING
       || AppointmentStatus_eqb (Appointment.status a) PROCESSING))%bool.

Definition hasConflictingAppointment (scheduleId : Z) : M bool :=
  try_catch
    (items <- ScanCommand (dynamo_scan_fault env) (conflict_filter scheduleId) 1 ;;
     ret (Nat.ltb 0 (List.length items)))
    (fun _ => ret false).

(** [new AppointmentRepository()] *)
Definition instance : IAppointmentRepository.t :=
  IAppointmentRepository.mk create findById updateStatus hasConflictingAppointment.

End WithEnv.

Section Query.
(** Whether the environment rejects the [QueryCommand]. *)
Variable dynamo_query_fault : option string.

(** [QueryCommand] on [InsuredIdIndex] with [ScanIndexForward: false]: the
    items of the insured.  The order of the answer is DynamoDB's (by the
    sort key [createdAt], descending); the sources do not sort, and the
    model says nothing of the order: it gives the items in table order.
    One call: the sources do not follow [LastEvaluatedKey]. *)
Definition QueryCommand_InsuredIdIndex (insuredId : string) : M (list Appointment.t) :=
  rejected dynamo_query_fault
    (fun w =>
       (Ok (filter (fun a => String.eqb (Appointment.insuredId a) insuredId)
                   (appointments w)), w)).

Definition findByInsuredId (insuredId : string) : M (list Appointment.t) :=
  try_catch
    (QueryCommand_InsuredIdIndex insuredId)
    (fun error =>
       throw (AppointmentError
                ("Error al buscar citas del asegurado: " ++ message error)
                "FIND_BY_INSURED_ERROR" None)).

End Query.
End AppointmentRepository.

(* ===================================================================== *)
(** * The RDS repository (MySQL, one database per country) *)
(* ===================================================================== *)

Module AppointmentRDSRepository.
Section WithEnv.
Variable env : Env.
Variable countryISO : CountryISO.

(** [getConnection]: three attempts, all of which meet the same fault. *)
Definition getConnection : M unit :=
  match rds_connect_fault env with
  | Some msg =>
      throw (AppointmentError
               ("Error al conectar con RDS " ++ CountryISO_value countryISO
                ++ " después de 3 intentos: " ++ msg)
               "CONNECTION_ERROR" None)
  | None => ret tt
  end.

Definition insert_row (row : AppointmentRDSEntity.t) : M unit :=
  fun w =>
    log_effect (RdsInsert countryISO row)
      (match countryISO with
       | PE => mkWorld (appointments w) (rds_pe w ++ [row]) (rds_cl w)
                       (effects w) (uuids w)
       | CL => mkWorld (appointments w) (rds_pe w) (rds_cl w ++ [row])
                       (effects w) (uuids w)
       end).

(** [create]: the [INSERT INTO appointments] statement. *)
Definition create (insured_id : string) (schedule_id center_id specialty_id medic_id : Z)
  (appointment_date : string) (status : string) : M AppointmentRDSEntity.t :=
  getConnection ;;;
  id <- uuidv4 ;;
  let now := now env in
  let row := AppointmentRDSEntity.mk id insured_id schedule_id center_id specialty_id
               medic_id appointment_date status now now in
  match rds_execute_fault env with
  | Some error =>
      if String.eqb (mysql_code error) "ER_DUP_ENTRY"
      then throw (AppointmentError "Ya existe una cita con estos datos"
                                   "DUPLICATE_ENTRY" (Some 409))
      else throw (AppointmentError
                    ("Error al crear la cita en RDS " ++ CountryISO_value countryISO
                     ++ ": " ++ mysql_message error)
                    "CREATE_RDS_ERROR" None)
  | None => insert_row row ;;; ret row
  end.

End WithEnv.
End AppointmentRDSRepository.

(* ===================================================================== *)
(** * [services/notification.service.ts] *)
(* ===================================================================== *)

Module NotificationService.
Section WithEnv.
Variable env : Env.

Definition created_message (event : AppointmentCreatedEvent.t) : json :=
  JObj [("eventType", JStr "AppointmentCreated");
        ("timestamp", JStr (now env));
        ("data", JObj
           [("appointmentId", JStr (AppointmentCreatedEvent.appointmentId event));
            ("insuredId", JStr (AppointmentCreatedEvent.insuredId event));
            ("scheduleId", JNum (AppointmentCreatedEvent.scheduleId event));
            ("countryISO", JStr (CountryISO_value (AppointmentCreatedEvent.countryISO event)));
            ("createdAt", JStr (AppointmentCreatedEvent.createdAt event))])].

Definition publishAppointmentCreated (event : AppointmentCreatedEvent.t) : M unit :=
  let country := AppointmentCreatedEvent.countryISO event in
  let messageAttributes :=
    [("countryISO", CountryISO_value country); ("eventType", "AppointmentCreated")] in
  try_catch
    (rejected (sns_fault env)
       (log_effect (SnsPublish (CountryTopic country)
                      (stringify (created_message event))
                      ("Appointment Created - " ++ CountryISO_value country)
                      messageAttributes)))
    (fun error =>
       throw (AppointmentError
                ("Error al publicar evento de cita creada: " ++ message error)
                "SNS_PUBLISH_ERROR" None)).

Definition confirmed_detail (event : AppointmentConfirmedEvent.t) : json :=
  JObj [("appointmentId", JStr (AppointmentConfirmedEvent.appointmentId event));
        ("countryISO", JStr (CountryISO_value (AppointmentConfirmedEvent.countryISO event)));
        ("status", JStr (AppointmentStatus_value (AppointmentConfirmedEvent.status event)));
        ("confirmedAt", JStr (AppointmentConfirmedEvent.confirmedAt event));
        ("timestamp", JStr (now env))].

(** A [FailedEntryCount] above zero in the answer of [PutEvents] is thrown
    inside the same [try] as a rejected call; [eventbridge_fault] stands
    for both. *)
Definition publishAppointmentConfirmed (event : AppointmentConfirmedEvent.t) : M unit :=
  try_catch
    (rejected (eventbridge_fault env)
       (log_effect (PutEvents "appointment.service" "Appointment Confirmed"
                      (stringify (confirmed_detail event)))))
    (fun error =>
       throw (AppointmentError
                ("Error al publicar evento de cita confirmada: " ++ message error)
                "EVENTBRIDGE_PUBLISH_ERROR" None)).

(** The [errorEvent] of [notifyError], without the [stack] of the error,
    whose text belongs to the engine. *)
Definition error_event (error : JsError) (context : json) : json :=
  JObj [("eventType", JStr "SystemError");
        ("timestamp", JStr (now env));
        ("error", JObj [("message", JStr (message error));
                        ("name", JStr (error_name error))]);
        ("context", context)].

(** [notifyError] never throws: a failure of either publication is logged
    and dropped. *)
Definition notifyError (error : JsError) (context : json) : M unit :=
  let errorEvent := stringify (error_event error context) in
  try_catch
    ((if ERROR_TOPIC_ARN env
      then rejected (sns_fault env)
             (log_effect (SnsPublish ErrorTopic errorEvent
                            ("System Error - " ++ error_name error) []))
      else ret tt) ;;;
     rejected (eventbridge_fault env)
       (log_effect (PutEvents "appointment.service" "System Error" errorEvent)))
    (fun _ => ret tt).

(** [new NotificationService()] *)
Definition instance : INotificationService.t :=
  INotificationService.mk publishAppointmentCreated publishAppointmentConfirmed
    notifyError.

End WithEnv.
End NotificationService.

(* ===================================================================== *)
(** * [services/validation.service.ts] *)
(* ===================================================================== *)

Module ValidationService.

(** The three keys of [appointmentRequestSchema], each with the message the
    schema gives for its violation; where the schema gives none, the
    message is Joi's own.  Unknown keys are stripped.  Joi's conversion of
    a numeric string to a number is not part of this model: a [scheduleId]
    that is not a JSON number is invalid here. *)
Definition insuredId_errors (v : jsval) : list string :=
  match v with
  | None => ["insuredId es requerido"]
  | Some (JStr s) =>
      if String.eqb s "" then ["insuredId is not allowed to be empty"]
      else if five_digits s then []
      else ["insuredId debe ser un código de 5 dígitos"]
  | Some _ => ["insuredId must be a string"]
  end.

Definition scheduleId_errors (v : jsval) : list string :=
  match v with
  | None => ["scheduleId es requerido"]
  | Some (JNum n) =>
      if 0 <? n then [] else ["scheduleId debe ser un número positivo"]
  | Some _ => ["scheduleId must be a number"]
  end.

Definition countryISO_of (v : jsval) : option CountryISO :=
  match v with
  | Some (JStr s) =>
      if String.eqb s "PE" then Some PE
      else if String.eqb s "CL" then Some CL
      else None
  | _ => None
  end.

Definition countryISO_errors (v : jsval) : list string :=
  match v with
  | None => ["countryISO es requerido"]
  | _ => match countryISO_of v with
         | Some _ => []
         | None => ["countryISO debe ser PE o CL"]
         end
  end.

Definition join_messages (l : list string) : string := String.concat ", " l.

Definition validateAppointmentRequest (request : json) : Result AppointmentRequest.t :=
  match request with
  | JObj members =>
      let insuredId := assoc_last "insuredId" members in
      let scheduleId := assoc_last "scheduleId" members in
      let countryISO := assoc_last "countryISO" members in
      match (insuredId_errors insuredId ++ scheduleId_errors scheduleId
             ++ countryISO_errors countryISO)%list with
      | [] =>
          match insuredId, scheduleId, countryISO_of countryISO with
          | Some (JStr i), Some (JNum n), Some c => Ok (AppointmentRequest.mk i n c)
          | _, _, _ => Throw (ValidationError "Datos de solicitud inválidos: ")
          end
      | errorMessages =>
          Throw (ValidationError
                   ("Datos de solicitud inválidos: " ++ join_messages errorMessages))
      end
  | _ =>
      Throw (ValidationError
               "Datos de solicitud inválidos: value must be of type object")
  end.

(** [validateInsuredId]: the schema is a required string of five digits. *)
Definition validateInsuredId (insuredId : string) : bool := five_digits insuredId.

(** [validateCountryISO] *)
Definition validateCountryISO (countryISO : string) : Result CountryISO :=
  if String.eqb countryISO "PE" then Ok PE
  else if String.eqb countryISO "CL" then Ok CL
  else Throw (ValidationError
                ("Código de país inválido: " ++ countryISO ++ ". Debe ser PE o CL")).

(** [s.replace(/^0+/, '')] *)
Fixpoint strip_leading_zeros (s : string) : string :=
  match s with
  | String c r => if Ascii.eqb c "0" then strip_leading_zeros r else s
  | EmptyString => s
  end.

Fixpoint zeros (n : nat) : string :=
  match n with
  | O => EmptyString
  | S m => String "0" (zeros m)
  end.

(** [s.padStart(n, '0')] *)
Definition padStart_zeros (n : nat) (s : string) : string :=
  zeros (n - String.length s) ++ s.

(** [formatInsuredId] *)
Definition formatInsuredId (insuredId : string) : string :=
  let stripped := strip_leading_zeros insuredId in
  let cleanId := if String.eqb stripped "" then "0" else stripped in
  padStart_zeros 5 cleanId.

(** [validateScheduleId] on an integer. *)
Definition validateScheduleId (scheduleId : Z) : bool := 0 <? scheduleId.

End ValidationService.

(** ** Types of the list query *)

Record Schedule : Type := mkSchedule
  { schedule_scheduleId : Z;
    schedule_centerId : Z;
    schedule_specialtyId : Z;
    schedule_medicId : Z;
    schedule_date : string }.

(** An [Appointment] of a list response: the appointment and its optional
    [schedule] member. *)
Definition EnrichedAppointment : Type := (Appointment.t * option Schedule)%type.

Record AppointmentListResponse : Type := mkListResponse
  { list_success : bool;
    list_data : list EnrichedAppointment;
    list_total : nat }.

(* ===================================================================== *)
(** * The appointment service ([AppointmentService]) *)
(* ===================================================================== *)

Module AppointmentService.
Section WithServices.
(** The constructor's arguments. *)
Variable appointmentRepository : IAppointmentRepository.t.
Variable notificationService : INotificationService.t.
(** [IValidationService.validateAppointmentRequest] *)
Variable validateAppointmentRequest : json -> Result AppointmentRequest.t.
(** [IScheduleService.validateScheduleAvailability], when the optional
    schedule service is given to the constructor. *)
Variable scheduleService : option (Z -> M bool).

Definition validTransitions (currentStatus : AppointmentStatus) : list AppointmentStatus :=
  match currentStatus with
  | PENDING => [PROCESSING; FAILED]
  | PROCESSING => [COMPLETED; FAILED]
  | COMPLETED => []
  | FAILED => []
  end.

Definition includes (l : list AppointmentStatus) (s : AppointmentStatus) : bool :=
  existsb (AppointmentStatus_eqb s) l.

Definition validateStatusTransition (currentStatus newStatus : AppointmentStatus)
  : Result unit :=
  let allowedTransitions := validTransitions currentStatus in
  if negb (includes allowedTransitions newStatus)
  then Throw (ValidationError
                ("Transición de estado inválida: "
                 ++ AppointmentStatus_value currentStatus ++ " -> "
                 ++ AppointmentStatus_value newStatus))
  else Ok tt.

Definition validateRequest (requestData : json) : M AppointmentRequest.t :=
  lift (validateAppointmentRequest requestData).

Definition checkScheduleAvailability (scheduleId : Z) : M unit :=
  match scheduleService with
  | Some validateScheduleAvailability =>
      isAvailable <- validateScheduleAvailability scheduleId ;;
      if negb isAvailable
      then throw (ConflictError
                    ("El horario " ++ Z_to_string scheduleId ++ " no está disponible"))
      else ret tt
  | None => ret tt
  end.

Definition checkExistingConflicts (scheduleId : Z) : M unit :=
  hasConflict <-
    IAppointmentRepository.hasConflictingAppointment appointmentRepository scheduleId ;;
  if (hasConflict : bool)
  then throw (ConflictError
                ("Ya existe una cita para el horario " ++ Z_to_string scheduleId))
  else ret tt.

Definition createAppointmentRecord (request : AppointmentRequest.t) : M Appointment.t :=
  IAppointmentRepository.create appointmentRepository
    (AppointmentRequest.insuredId request)
    (AppointmentRequest.scheduleId request)
    (AppointmentRequest.countryISO request)
    PENDING.

Definition publishCreatedEvent (appointment : Appointment.t) : M unit :=
  let event :=
    AppointmentCreatedEvent.mk
      (Appointment.id appointment)
      (Appointment.insuredId appointment)
      (Appointment.scheduleId appointment)
      (Appointment.countryISO appointment)
      (Appointment.createdAt appointment) in
  INotificationService.publishAppointmentCreated notificationService event.

Definition buildSuccessResponse (appointment : Appointment.t) : AppointmentResponse.t :=
  AppointmentResponse.mk true "El agendamiento está en proceso"
    (Some (Appointment.id appointment, Appointment.status appointment))
    None.

Definition handleError (error : JsError) : AppointmentResponse.t :=
  if instanceof_ValidationError error then
    AppointmentResponse.mk false "Datos de solicitud inválidos" None
      (Some (message error))
  else if instanceof_ConflictError error then
    AppointmentResponse.mk false "Conflicto en la solicitud" None
      (Some (message error))
  else if instanceof_AppointmentError error then
    AppointmentResponse.mk false "Error en el procesamiento" None
      (Some (message error))
  else
    AppointmentResponse.mk false "Error interno del servidor" None
      (Some "Ha ocurrido un error inesperado").

Definition createAppointment (requestData : json) : M AppointmentResponse.t :=
  try_catch
    (validatedRequest <- validateRequest requestData ;;
     checkScheduleAvailability (AppointmentRequest.scheduleId validatedRequest) ;;;
     checkExistingConflicts (AppointmentRequest.scheduleId validatedRequest) ;;;
     appointment <- createAppointmentRecord validatedRequest ;;
     publishCreatedEvent appointment ;;;
     ret (buildSuccessResponse appointment))
    (fun error => ret (handleError error)).

(** The [catch] of [updateAppointmentStatus] logs the error and throws it
    again. *)
Definition updateAppointmentStatus (appointmentId : string) (status : AppointmentStatus)
  : M unit :=
  try_catch
    (existingAppointment <-
       IAppointmentRepository.findById appointmentRepository appointmentId ;;
     match existingAppointment with
     | None =>
         throw (NotFoundError ("Cita con ID " ++ appointmentId ++ " no encontrada"))
     | Some existing =>
         lift (validateStatusTransition (Appointment.status existing) status) ;;;
         IAppointmentRepository.updateStatus appointmentRepository appointmentId status
     end)
    (fun error => throw error).

(** [updateAppointmentStatus] awaits the store twice.  Its two parts, on
    either side of the second await: the read with the checks made on what
    was read, and the write. *)
Definition updateAppointmentStatus_check (appointmentId : string)
  (status : AppointmentStatus) : M unit :=
  existingAppointment <-
    IAppointmentRepository.findById appointmentRepository appointmentId ;;
  match existingAppointment with
  | None =>
      throw (NotFoundError ("Cita con ID " ++ appointmentId ++ " no encontrada"))
  | Some existing =>
      lift (validateStatusTransition (Appointment.status existing) status)
  end.

Definition updateAppointmentStatus_write (appointmentId : string)
  (status : AppointmentStatus) : M unit :=
  IAppointmentRepository.updateStatus appointmentRepository appointmentId status.

End WithServices.

Section WithQueries.
(** The repository methods the queries use, the validation service's
    [validateInsuredId], and [getScheduleById] of the optional schedule
    service. *)
Variable findByInsuredId : string -> M (list Appointment.t).
Variable findById : string -> M (option Appointment.t).
Variable validateInsuredId : string -> bool.
Variable scheduleService : option (Z -> M (option Schedule)).

Definition validateInsuredIdFormat (insuredId : string) : M unit :=
  if negb (validateInsuredId insuredId)
  then throw (ValidationError ("ID de asegurado inválido: " ++ insuredId))
  else ret tt.

(** The loop of [enrichAppointmentsWithSchedule]: an appointment whose
    schedule cannot be read is kept without one. *)
Fixpoint enrichEach (getScheduleById : Z -> M (option Schedule))
  (appointments : list Appointment.t) : M (list EnrichedAppointment) :=
  match appointments with
  | [] => ret []
  | appointment :: rest =>
      enriched <-
        try_catch
          (schedule <- getScheduleById (Appointment.scheduleId appointment) ;;
           ret (appointment, schedule))
          (fun _ => ret (appointment, None)) ;;
      others <- enrichEach getScheduleById rest ;;
      ret (enriched :: others)
  end.

Definition enrichAppointmentsWithSchedule (appointments : list Appointment.t)
  : M (list EnrichedAppointment) :=
  match scheduleService, appointments with
  | Some getScheduleById, _ :: _ => enrichEach getScheduleById appointments
  | _, _ => ret (map (fun a => (a, None)) appointments)
  end.

Definition getAppointmentsByInsuredId (insuredId : string) : M AppointmentListResponse :=
  try_catch
    (validateInsuredIdFormat insuredId ;;;
     appointments <- findByInsuredId insuredId ;;
     enrichedAppointments <- enrichAppointmentsWithSchedule appointments ;;
     ret (mkListResponse true enrichedAppointments (List.length enrichedAppointments)))
    (fun error =>
       if instanceof_ValidationError error
       then ret (mkListResponse false [] 0)
       else throw error).

Definition getAppointmentById (appointmentId : string) : M Appointment.t :=
  appointment <- findById appointmentId ;;
  match appointment with
  | None => throw (NotFoundError ("Cita con ID " ++ appointmentId ++ " no encontrada"))
  | Some a => ret a
  end.

End WithQueries.
End AppointmentService.

(* ===================================================================== *)
(** * The [appointment] Lambda: HTTP create and the confirmation queue *)
(* ===================================================================== *)

Record APIGatewayProxyResult : Type := mkHttp
  { http_statusCode : Z;
    http_headers : list (string * string);
    http_body : string }.

Record SQSRecord : Type := mkRecord
  { messageId : string; body : string }.

(** The members of an [APIGatewayProxyEvent] that the handler reads. *)
Record APIGatewayProxyEvent : Type := mkHttpEvent
  { httpMethod : string;
    path : string;
    event_body : option string;
    pathParameters_insuredId : option string }.

Module AppointmentHandler.
Section WithEnv.
Variable env : Env.

(** [initializeServices] builds the service from the three concrete
    classes and gives it no schedule service. *)
Definition createAppointment : json -> M AppointmentResponse.t :=
  AppointmentService.createAppointment
    (AppointmentRepository.instance env) (NotificationService.instance env)
    ValidationService.validateAppointmentRequest None.

Definition updateAppointmentStatus : string -> AppointmentStatus -> M unit :=
  AppointmentService.updateAppointmentStatus (AppointmentRepository.instance env).

Definition response_json (r : AppointmentResponse.t) : json :=
  JObj ([("success", JBool (AppointmentResponse.success r));
         ("message", JStr (AppointmentResponse.message r))]
        ++ match AppointmentResponse.data r with
           | Some (appointmentId, status) =>
               [("data", JObj [("appointmentId", JStr appointmentId);
                               ("status", JStr (AppointmentStatus_value status))])]
           | None => []
           end
        ++ match AppointmentResponse.error r with
           | Some e => [("error", JStr e)]
           | None => []
           end)%list.

Definition createResponse (statusCode : Z) (body : json) : APIGatewayProxyResult :=
  mkHttp statusCode
    [("Content-Type", "application/json");
     ("Access-Control-Allow-Origin", "*");
     ("Access-Control-Allow-Methods", "GET, POST, OPTIONS");
     ("Access-Control-Allow-Headers", "Content-Type, Authorization")]
    (stringify body).

Definition createErrorResponse (error : JsError) : APIGatewayProxyResult :=
  if instanceof_AppointmentError error then
    createResponse (statusCode error)
      (JObj [("success", JBool false);
             ("message", JStr "Error en la solicitud");
             ("error", JStr (message error));
             ("code", JStr (code error))])
  else
    createResponse 500
      (JObj [("success", JBool false);
             ("message", JStr "Error interno del servidor");
             ("error", JStr "Ha ocurrido un error inesperado. Por favor intente nuevamente.")]).

(** [handleCreateAppointment]: [event_body] is [event.body], [None] when
    it is [null]. *)
Definition handleCreateAppointment (event_body : option string)
  : M APIGatewayProxyResult :=
  match event_body with
  | None | Some EmptyString =>
      ret (createResponse 400
             (JObj [("success", JBool false);
                    ("message", JStr "Request body is required");
                    ("error", JStr "El cuerpo de la petición es requerido")]))
  | Some text =>
      match parse text with
      | None =>
          ret (createResponse 400
                 (JObj [("success", JBool false);
                        ("message", JStr "Invalid JSON in request body");
                        ("error", JStr "El formato JSON es inválido")]))
      | Some requestData =>
          result <- createAppointment requestData ;;
          let statusCode := if AppointmentResponse.success result then 201 else 400 in
          ret (createResponse statusCode (response_json result))
      end
  end.

(** One record of the confirmation queue.  The identifier read from the
    message is passed as it is; DynamoDB rejects a key that is not a
    string, which [findById] turns into its [FIND_ERROR]. *)
Definition handleSQSRecord (record : SQSRecord) : M unit :=
  try_catch
    (messageBody <- lift (JSON_parse (body record)) ;;
     detail <- lift (get_property messageBody "detail") ;;
     let confirmationEvent :=
       if truthy detail
       then match detail with Some d => d | None => messageBody end
       else messageBody in
     appointmentId <- lift (get_property confirmationEvent "appointmentId") ;;
     match appointmentId with
     | Some (JStr id) => updateAppointmentStatus id COMPLETED
     | _ =>
         throw (AppointmentError
                  ("Error al buscar la cita: "
                   ++ "The provided key element does not match the schema")
                  "FIND_ERROR" None)
     end)
    (fun error => throw error).

(** [handleSQSMessages]: the records in order; the first error ends the
    invocation. *)
Fixpoint handleSQSMessages (records : list SQSRecord) : M unit :=
  match records with
  | [] => ret tt
  | record :: rest => handleSQSRecord record ;;; handleSQSMessages rest
  end.

End WithEnv.

Section Http.
Variable env : Env.
(** Whether the environment rejects the [QueryCommand] of the list. *)
Variable dynamo_query_fault : option string.

Definition getAppointmentsByInsuredId : string -> M AppointmentListResponse :=
  AppointmentService.getAppointmentsByInsuredId
    (AppointmentRepository.findByInsuredId dynamo_query_fault)
    ValidationService.validateInsuredId None.

Definition appointment_json (a : Appointment.t) : json :=
  JObj [("id", JStr (Appointment.id a));
        ("insuredId", JStr (Appointment.insuredId a));
        ("scheduleId", JNum (Appointment.scheduleId a));
        ("countryISO", JStr (CountryISO_value (Appointment.countryISO a)));
        ("status", JStr (AppointmentStatus_value (Appointment.status a)));
        ("createdAt", JStr (Appointment.createdAt a));
        ("updatedAt", JStr (Appointment.updatedAt a))].

Definition schedule_json (s : Schedule) : json :=
  JObj [("scheduleId", JNum (schedule_scheduleId s));
        ("centerId", JNum (schedule_centerId s));
        ("specialtyId", JNum (schedule_specialtyId s));
        ("medicId", JNum (schedule_medicId s));
        ("date", JStr (schedule_date s))].

Definition enriched_json (e : EnrichedAppointment) : json :=
  match e with
  | (a, None) => appointment_json a
  | (a, Some s) =>
      match appointment_json a with
      | JObj members => JObj (members ++ [("schedule", schedule_json s)])
      | other => other
      end
  end.

Definition list_response_json (r : AppointmentListResponse) : json :=
  JObj [("success", JBool (list_success r));
        ("data", JArr (map enriched_json (list_data r)));
        ("total", JNum (Z.of_nat (list_total r)))].

(** [handleGetAppointments]: [insuredId] is [event.pathParameters?.insuredId]. *)
Definition handleGetAppointments (insuredId : option string) : M APIGatewayProxyResult :=
  match insuredId with
  | None | Some EmptyString =>
      ret (createResponse 400
             (JObj [("success", JBool false);
                    ("message", JStr "insuredId parameter is required");
                    ("error", JStr "El parámetro insuredId es requerido")]))
  | Some id =>
      try_catch
        (result <- getAppointmentsByInsuredId id ;;
         ret (createResponse 200 (list_response_json result)))
        (fun error => ret (createErrorResponse error))
  end.

(** [handleHttpRequest] *)
Definition handleHttpRequest (event : APIGatewayProxyEvent) : M APIGatewayProxyResult :=
  let method := httpMethod event in
  let path := path event in
  try_catch
    (if String.eqb method "OPTIONS" then
       ret (createResponse 200 (JObj [("message", JStr "CORS preflight successful")]))
     else if (String.eqb method "POST" && String.eqb path "/appointment")%bool then
       handleCreateAppointment env (event_body event)
     else if (String.eqb method "GET" && prefix "/appointment/" path)%bool then
       handleGetAppointments (pathParameters_insuredId event)
     else
       ret (createResponse 404
              (JObj [("success", JBool false);
                     ("message", JStr "Endpoint not found");
                     ("error", JStr (method ++ " " ++ path ++ " is not supported"))])))
    (fun error => ret (createErrorResponse error)).

End Http.
End AppointmentHandler.

(* ===================================================================== *)
(** * [services/appointment-processor.service.ts] *)
(* ===================================================================== *)

Record ScheduleInfo : Type := mkScheduleInfo
  { centerId : Z; specialtyId : Z; medicId : Z; appointmentDate : string }.

(** [x || 1] on numbers: [0] is falsy. *)
Definition or_one (x : Z) : Z := if x =? 0 then 1 else x.

(** The numbers of the sources are IEEE 754 doubles.  The model holds the
    integers among them as [Z], and rounds a quotient as the division of
    doubles does: to 53 significant bits, to the nearest, a tie to the even
    one. *)

(** [n / d], for [d] positive, rounded to the nearest integer, a tie to the
    even one. *)
Definition round_half_even (n d : Z) : Z :=
  let q := n / d in
  let r := n mod d in
  if 2 * r <? d then q
  else if d <? 2 * r then q + 1
  else if Z.even q then q else q + 1.

(** The binary exponent [e] of the quotient of two positive integers:
    [2^e <= a / b < 2^(e+1)]. *)
Definition quotient_exponent (a b : Z) : Z :=
  let e := Z.log2 a - Z.log2 b in
  if (if 0 <=? e then b * 2 ^ e <=? a else b <=? a * 2 ^ (- e)) then e else e - 1.

(** [a / b] on doubles, for positive integers [a] and [b] that are doubles:
    the double [m * 2^s], as the pair of [m] and [s].  (With integers the
    quotient neither overflows nor is subnormal.) *)
Definition double_div (a b : Z) : Z * Z :=
  let s := quotient_exponent a b - 52 in
  (if 0 <=? s then round_half_even a (b * 2 ^ s)
   else round_half_even (a * 2 ^ (- s)) b,
   s).

(** [Math.floor] of the double [m * 2^s]. *)
Definition Math_floor (x : Z * Z) : Z :=
  let '(m, s) := x in if 0 <=? s then m * 2 ^ s else m / 2 ^ (- s).

(** [Math.floor(a / b)] for an integer [a] and a positive integer [b]. *)
Definition floor_div (a b : Z) : Z :=
  if a =? 0 then 0
  else let '(m, s) := double_div (Z.abs a) b in Math_floor (Z.sgn a * m, s).

(** The same quotient by the primitive floats of the proof assistant, which
    are IEEE 754 doubles: mantissa and exponent of [a / b], to compare
    [double_div] with. *)
Definition float_parts (f : PrimFloat.float) : Z * Z :=
  let '(m, e) := PrimFloat.frshiftexp f in
  (Uint63.to_Z (PrimFloat.normfr_mantissa m), Uint63.to_Z e - 2101 - 53).

Definition primitive_div (a b : Z) : Z * Z :=
  float_parts (PrimFloat.div (PrimFloat.of_uint63 (Uint63.of_Z a))
                             (PrimFloat.of_uint63 (Uint63.of_Z b))).

(** A mantissa of 54 bits, which rounding up can leave, as one of 53. *)
Definition normalized (x : Z * Z) : Z * Z :=
  let '(m, s) := x in if m =? 2 ^ 53 then (2 ^ 52, s + 1) else (m, s).

(** [a % b]: the remainder has the sign of [a]. *)
Definition js_rem (a b : Z) : Z := Z.rem a b.

Module BaseAppointmentProcessor.
Section WithCountry.
Variable env : Env.
Variable country : CountryISO.

Definition validateEvent (event : AppointmentCreatedEvent.t) : Result unit :=
  if String.eqb (AppointmentCreatedEvent.appointmentId event) "" then
    Throw (AppointmentError "Appointment ID is required" "VALIDATION_ERROR" (Some 400))
  else if String.eqb (AppointmentCreatedEvent.insuredId event) "" then
    Throw (AppointmentError "Insured ID is required" "VALIDATION_ERROR" (Some 400))
  else if ((AppointmentCreatedEvent.scheduleId event =? 0)
           || (AppointmentCreatedEvent.scheduleId event <=? 0))%bool then
    Throw (AppointmentError "Valid Schedule ID is required" "VALIDATION_ERROR" (Some 400))
  else if negb (CountryISO_eqb (AppointmentCreatedEvent.countryISO event) country) then
    Throw (AppointmentError
             ("Country mismatch: expected " ++ CountryISO_value country ++ ", got "
              ++ CountryISO_value (AppointmentCreatedEvent.countryISO event))
             "VALIDATION_ERROR" (Some 400))
  else Ok tt.

(** The hook of both countries only writes to the console. *)
Definition executeCountrySpecificLogic (event : AppointmentCreatedEvent.t) : M unit :=
  ret tt.

Definition getScheduleInformation (scheduleId : Z) : ScheduleInfo :=
  mkScheduleInfo
    (or_one (floor_div scheduleId 1000))
    (or_one (floor_div (js_rem scheduleId 1000) 100))
    (or_one (floor_div (js_rem scheduleId 100) 10))
    (now env).

Definition createRDSRecord (event : AppointmentCreatedEvent.t) (scheduleInfo : ScheduleInfo)
  : M AppointmentRDSEntity.t :=
  AppointmentRDSRepository.create env country
    (AppointmentCreatedEvent.insuredId event)
    (AppointmentCreatedEvent.scheduleId event)
    (centerId scheduleInfo)
    (specialtyId scheduleInfo)
    (medicId scheduleInfo)
    (appointmentDate scheduleInfo)
    (AppointmentStatus_value PROCESSING).

Definition publishConfirmation (event : AppointmentCreatedEvent.t)
  (rdsEntity : AppointmentRDSEntity.t) : M unit :=
  let confirmationEvent :=
    AppointmentConfirmedEvent.mk
      (AppointmentCreatedEvent.appointmentId event)
      country
      (now env)
      COMPLETED in
  NotificationService.publishAppointmentConfirmed env confirmationEvent.

Definition error_context (event : AppointmentCreatedEvent.t) : json :=
  JObj [("appointmentId", JStr (AppointmentCreatedEvent.appointmentId event));
        ("country", JStr (CountryISO_value country));
        ("scheduleId", JNum (AppointmentCreatedEvent.scheduleId event))].

Definition processAppointment (event : AppointmentCreatedEvent.t) : M unit :=
  try_catch
    (lift (validateEvent event) ;;;
     executeCountrySpecificLogic event ;;;
     let scheduleInfo := getScheduleInformation (AppointmentCreatedEvent.scheduleId event) in
     rdsEntity <- createRDSRecord event scheduleInfo ;;
     publishConfirmation event rdsEntity)
    (fun error =>
       NotificationService.notifyError env error (error_context event) ;;;
       throw error).

End WithCountry.
End BaseAppointmentProcessor.

(* ===================================================================== *)
(** * The country Lambdas ([appointment-pe] and [appointment-cl] handlers) *)
(* ===================================================================== *)

Definition Result_bind {A B} (r : Result A) (k : A -> Result B) : Result B :=
  match r with
  | Ok a => k a
  | Throw e => Throw e
  end.

Module ParsedEvent.
(** What [parseAppointmentEvent] returns at run time: the five fields as
    they were found in the message, of whatever type. *)
Record t : Type := mk
  { appointmentId : jsval;
    insuredId : jsval;
    scheduleId : jsval;
    countryISO : jsval;
    createdAt : jsval }.
End ParsedEvent.

Module CountryHandler.

Definition read_fields (data : json) : Result ParsedEvent.t :=
  Result_bind (get_property data "appointmentId") (fun appointmentId =>
  Result_bind (get_property data "insuredId") (fun insuredId =>
  Result_bind (get_property data "scheduleId") (fun scheduleId =>
  Result_bind (get_property data "countryISO") (fun countryISO =>
  Result_bind (get_property data "createdAt") (fun createdAt =>
  Ok (ParsedEvent.mk appointmentId insuredId scheduleId countryISO createdAt)))))).

(** [parseAppointmentEvent], the same function in both handlers. *)
Definition parseAppointmentEvent (messageBody : string) : Result ParsedEvent.t :=
  match
    Result_bind (JSON_parse messageBody) (fun parsedBody =>
    Result_bind (get_property parsedBody "Message") (fun Message =>
    Result_bind
      (if truthy Message
       then JSON_parse (ToString_val Message)
       else Ok parsedBody) (fun eventData =>
    Result_bind (get_property eventData "data") (fun data_field =>
    let data :=
      if truthy data_field
      then match data_field with Some d => d | None => eventData end
      else eventData in
    read_fields data))))
  with
  | Ok event => Ok event
  | Throw error =>
      Throw (AppointmentError ("Invalid message format: " ++ message error)
                              "MESSAGE_PARSE_ERROR" (Some 400))
  end.

Section WithCountry.
Variable env : Env.
Variable country : CountryISO.

Definition country_name : string :=
  match country with PE => "Peru" | CL => "Chile" end.

Definition country_adjective : string :=
  match country with PE => "Peruvian" | CL => "Chilean" end.

Definition lambda_name : string :=
  match country with PE => "appointment-pe" | CL => "appointment-cl" end.

Definition is_country (v : jsval) : bool :=
  match v with
  | Some (JStr s) => String.eqb s (CountryISO_value country)
  | _ => false
  end.

Definition validateCountryEvent (event : ParsedEvent.t) : Result unit :=
  if negb (is_country (ParsedEvent.countryISO event)) then
    Throw (AppointmentError
             ("Invalid country for " ++ country_name ++ " processor: received "
              ++ ToString_val (ParsedEvent.countryISO event))
             "INVALID_COUNTRY" (Some 400))
  else if (negb (truthy (ParsedEvent.appointmentId event))
           || negb (truthy (ParsedEvent.insuredId event))
           || negb (truthy (ParsedEvent.scheduleId event)))%bool then
    Throw (AppointmentError
             ("Missing required fields in " ++ country_name ++ " appointment event")
             "MISSING_REQUIRED_FIELDS" (Some 400))
  else if negb (five_digits (ToString_val (ParsedEvent.insuredId event))) then
    Throw (AppointmentError
             ("Invalid " ++ country_adjective ++ " insured ID format: "
              ++ ToString_val (ParsedEvent.insuredId event))
             "INVALID_INSURED_ID_FORMAT" (Some 400))
  else Ok tt.

(** The processor is typed on [AppointmentCreatedEvent]; nothing checks at
    run time that a parsed message has that type.  [typed] reads a
    validated message at that type.  A message that passes
    [validateCountryEvent] with an [appointmentId] or [insuredId] that is
    not a string, or a [scheduleId] that is not a number, is outside this
    model; the record is counted as failed with a [TypeError], which is
    what the [startsWith] of the country rules throws on an [insuredId]
    that is not a string. *)
Definition typed (event : ParsedEvent.t) : option AppointmentCreatedEvent.t :=
  match ParsedEvent.appointmentId event, ParsedEvent.insuredId event,
        ParsedEvent.scheduleId event with
  | Some (JStr appointmentId), Some (JStr insuredId), Some (JNum scheduleId) =>
      Some (AppointmentCreatedEvent.mk appointmentId insuredId scheduleId country
              (match ParsedEvent.createdAt event with
               | Some (JStr t) => t
               | _ => EmptyString
               end))
  | _, _, _ => None
  end.

Definition processRecord (record : SQSRecord) : M unit :=
  appointmentEvent <- lift (parseAppointmentEvent (body record)) ;;
  lift (validateCountryEvent appointmentEvent) ;;;
  match typed appointmentEvent with
  | Some event => BaseAppointmentProcessor.processAppointment env country event
  | None => throw (mkError TypeError_ "event.insuredId.startsWith is not a function" "" 0)
  end.

Definition record_context (record : SQSRecord) : json :=
  JObj [("country", JStr (CountryISO_value country));
        ("messageId", JStr (messageId record));
        ("sqsBody", JStr (body record));
        ("lambda", JStr lambda_name)].

(** The loop of [handler]: a failed record adds its message to [errors]
    and is reported; the loop goes on with the next record. *)
Fixpoint processRecords (records : list SQSRecord) (errors : list string)
  : M (list string) :=
  match records with
  | [] => ret errors
  | record :: rest =>
      errors' <-
        try_catch
          (processRecord record ;;; ret errors)
          (fun error =>
             let errorMessage :=
               "Error processing " ++ country_name ++ " appointment: " ++ message error in
             try_catch
               (NotificationService.notifyError env error (record_context record))
               (fun _ => ret tt) ;;;
             ret (errors ++ [errorMessage])%list) ;;
      processRecords rest errors'
  end.

Definition handler (records : list SQSRecord) : M unit :=
  errors <- processRecords records [] ;;
  match errors with
  | [] => ret tt
  | _ =>
      throw (AppointmentError
               ("Failed to process " ++ nat_to_string (List.length errors)
                ++ " messages: " ++ String.concat "; " errors)
               "BATCH_PROCESSING_ERROR" None)
  end.

End WithCountry.
End CountryHandler.

(* ===================================================================== *)
(** * The channels between the Lambdas ([serverless.yml]) *)
(* ===================================================================== *)

Module Infrastructure.

(** The body of the SQS message that an SNS subscription without raw
    delivery writes: the published message is the string [Message] of an
    envelope. *)
Definition sns_envelope (message subject : string)
  (messageAttributes : list (string * string)) : json :=
  JObj [("Type", JStr "Notification");
        ("Subject", JStr subject);
        ("Message", JStr message);
        ("MessageAttributes",
         JObj (map (fun '(name, value) =>
                      (name, JObj [("Type", JStr "String"); ("Value", JStr value)]))
                   messageAttributes))].

Definition attribute (name : string) (attrs : list (string * string)) : option string :=
  match find (fun '(k, _) => String.eqb k name) attrs with
  | Some (_, v) => Some v
  | None => None
  end.

(** The subscription of the queue of [country] to the topic of [country],
    with [FilterPolicy: countryISO: [country]]. *)
Definition subscribed (country : CountryISO) (e : Effect) : option string :=
  match e with
  | SnsPublish (CountryTopic c) message subject attrs =>
      if (CountryISO_eqb c country
          && match attribute "countryISO" attrs with
             | Some v => String.eqb v (CountryISO_value country)
             | None => false
             end)%bool
      then Some (stringify (sns_envelope message subject attrs))
      else None
  | _ => None
  end.

(** [AppointmentConfirmationRule]: events of source [appointment.service]
    and detail type [Appointment Confirmed] go to the confirmation queue,
    as the event envelope with the detail as an object. *)
Definition confirmation_rule (e : Effect) : option string :=
  match e with
  | PutEvents source detailType detail =>
      if (String.eqb source "appointment.service"
          && String.eqb detailType "Appointment Confirmed")%bool
      then match parse detail with
           | Some d =>
               Some (stringify
                       (JObj [("version", JStr "0");
                              ("detail-type", JStr detailType);
                              ("source", JStr source);
                              ("detail", d)]))
           | None => None
           end
      else None
  | _ => None
  end.

Fixpoint collect (select : Effect -> option string) (es : list Effect) (n : nat)
  : list SQSRecord :=
  match es with
  | [] => []
  | e :: rest =>
      match select e with
      | Some text => mkRecord ("message-" ++ nat_to_string n) text :: collect select rest (S n)
      | None => collect select rest n
      end
  end.

Definition country_queue (country : CountryISO) (es : list Effect) : list SQSRecord :=
  collect (subscribed country) es 0.

Definition confirmation_queue (es : list Effect) : list SQSRecord :=
  collect confirmation_rule es 0.

(** An SQS trigger starts its Lambda only on a batch that has a record. *)
Definition trigger (lambda : list SQSRecord -> M unit) (records : list SQSRecord) : M unit :=
  match records with
  | [] => ret tt
  | _ => lambda records
  end.

(** The effects that [w'] has after those of [w]. *)
Definition effects_since (w w' : World) : list Effect :=
  skipn (List.length (effects w)) (effects w').

End Infrastructure.

(* ===================================================================== *)
(** * One run of the whole pipeline *)
(* ===================================================================== *)

Record PipelineRun : Type := mkRun
  { create_response : Result APIGatewayProxyResult;
    processor_pe_result : Result unit;
    processor_cl_result : Result unit;
    reconciler_result : Result unit;
    final_world : World }.

(** Intake on one HTTP body, then each country Lambda once on what reached
    its queue, then the reconciler once on what reached the confirmation
    queue. *)
Definition run_pipeline (env : Env) (request_body : string) (w0 : World) : PipelineRun :=
  let '(r1, w1) := AppointmentHandler.handleCreateAppointment env (Some request_body) w0 in
  let created := Infrastructure.effects_since w0 w1 in
  let '(r2, w2) :=
    Infrastructure.trigger (CountryHandler.handler env PE)
      (Infrastructure.country_queue PE created) w1 in
  let '(r3, w3) :=
    Infrastructure.trigger (CountryHandler.handler env CL)
      (Infrastructure.country_queue CL created) w2 in
  let confirmed := Infrastructure.effects_since w1 w3 in
  let '(r4, w4) :=
    Infrastructure.trigger (AppointmentHandler.handleSQSMessages env)
      (Infrastructure.confirmation_queue confirmed) w3 in
  mkRun r1 r2 r3 r4 w4.

(* ===================================================================== *)
(** * Vocabulary of the properties *)
(* ===================================================================== *)

(** The value a computation ended in, when it did not throw. *)
Definition value_of {A} (r : Result A) : option A :=
  match r with Ok a => Some a | Throw _ => None end.

(** The JSON object of a CreatedEvent, field by field. *)
Definition created_event_json (e : AppointmentCreatedEvent.t) : json :=
  JObj [("appointmentId", JStr (AppointmentCreatedEvent.appointmentId e));
        ("insuredId", JStr (AppointmentCreatedEvent.insuredId e));
        ("scheduleId", JNum (AppointmentCreatedEvent.scheduleId e));
        ("countryISO", JStr (CountryISO_value (AppointmentCreatedEvent.countryISO e)));
        ("createdAt", JStr (AppointmentCreatedEvent.createdAt e))].

(** One level of the transport envelope around a serialized event. *)
Definition enveloped (text : string) : json := JObj [("Message", JStr text)].

(** The fields a parsed CreatedEvent carries. *)
Definition parsed_fields (e : AppointmentCreatedEvent.t) : ParsedEvent.t :=
  ParsedEvent.mk
    (Some (JStr (AppointmentCreatedEvent.appointmentId e)))
    (Some (JStr (AppointmentCreatedEvent.insuredId e)))
    (Some (JNum (AppointmentCreatedEvent.scheduleId e)))
    (Some (JStr (CountryISO_value (AppointmentCreatedEvent.countryISO e))))
    (Some (JStr (AppointmentCreatedEvent.createdAt e))).

(** The JSON object of a ConfirmedEvent. *)
Definition confirmed_event_json (e : AppointmentConfirmedEvent.t) : json :=
  JObj [("appointmentId", JStr (AppointmentConfirmedEvent.appointmentId e));
        ("countryISO", JStr (CountryISO_value (AppointmentConfirmedEvent.countryISO e)));
        ("status", JStr (AppointmentStatus_value (AppointmentConfirmedEvent.status e)));
        ("confirmedAt", JStr (AppointmentConfirmedEvent.confirmedAt e))].

(** The two bodies under which a ConfirmedEvent reaches the reconciler: the
    bare event, and the event as the [detail] of an event-bus envelope. *)
Definition direct_body (e : AppointmentConfirmedEvent.t) : string :=
  stringify (confirmed_event_json e).



(** The transition table of the specification. *)
Definition transition_table : list (AppointmentStatus * AppointmentStatus) :=
  [(PENDING, PROCESSING); (PENDING, FAILED);
   (PROCESSING, COMPLETED); (PROCESSING, FAILED)].

(** The ConfirmedEvents among a list of effects. *)
Definition is_confirmation (e : Effect) : bool :=
  match e with
  | PutEvents _ detailType _ => String.eqb detailType "Appointment Confirmed"
  | _ => false
  end.

Definition confirmations (es : list Effect) : list Effect := filter is_confirmation es.

(** The rows written to a regional store among a list of effects. *)
Definition inserted_rows (es : list Effect) : list (CountryISO * AppointmentRDSEntity.t) :=
  flat_map (fun e => match e with RdsInsert c row => [(c, row)] | _ => [] end) es.


(** A repository whose conflict check finds no conflict, and is otherwise
    [repository]. *)
Definition without_conflicts (repository : IAppointmentRepository.t)
  : IAppointmentRepository.t :=
  IAppointmentRepository.mk
    (IAppointmentRepository.create repository)
    (IAppointmentRepository.findById repository)
    (IAppointmentRepository.updateStatus repository)
    (fun _ => ret false).

(** ** The concrete runs *)

Definition clock : string := "2024-03-15T10:30:00.000Z".

(** The create request [{insuredId: 00123, scheduleId: 100, countryISO: PE}]. *)
Definition request_100 : json :=
  JObj [("insuredId", JStr "00123"); ("scheduleId", JNum 100); ("countryISO", JStr "PE")].

(** A Primary Store that already holds two PENDING appointments, the one
    for schedule 200 before the one for schedule 100 in scan order. *)
Definition two_pending : World :=
  mkWorld
    [Appointment.mk "a-200" "00456" 200 CL PENDING clock clock;
     Appointment.mk "a-100" "00789" 100 PE PENDING clock clock]
    [] [] [] 0.

(** A Primary Store whose only appointment is PENDING on schedule 100. *)
Definition one_pending : World :=
  mkWorld [Appointment.mk "a-100" "00789" 100 PE PENDING clock clock] [] [] [] 0.

(** An environment in which the conflict scan is rejected. *)
Definition scan_rejected : Env :=
  mkEnv clock true None None None (Some "Request timed out") None None None None.

(** An environment in which the INSERT into the regional store is rejected. *)
Definition insert_rejected : Env :=
  mkEnv clock true None None None None None None None
        (Some (mkMysqlError "ER_LOCK_WAIT_TIMEOUT" "Lock wait timeout")).

(** An environment in which the write to the Primary Store is rejected. *)
Definition put_rejected : Env :=
  mkEnv clock true (Some "Service unavailable") None None None None None None None.

(** ** Histories of invocations *)

(** One invocation of a Lambda, or one call of the service's status update
    by any other client, each in the environment it meets. *)
Inductive Invocation : Type :=
| HttpRequest (env : Env) (dynamo_query_fault : option string)
              (event : APIGatewayProxyEvent)
| CountryBatch (env : Env) (country : CountryISO) (records : list SQSRecord)
| ConfirmationBatch (env : Env) (records : list SQSRecord)
| StatusUpdate (env : Env) (appointmentId : string) (status : AppointmentStatus).

(** The world an invocation leaves, whether it returned or threw. *)
Definition invoke (i : Invocation) (w : World) : World :=
  match i with
  | HttpRequest env query_fault event =>
      snd (AppointmentHandler.handleHttpRequest env query_fault event w)
  | CountryBatch env country records =>
      snd (CountryHandler.handler env country records w)
  | ConfirmationBatch env records =>
      snd (AppointmentHandler.handleSQSMessages env records w)
  | StatusUpdate env appointmentId status =>
      snd (AppointmentHandler.updateAppointmentStatus env appointmentId status w)
  end.

(** A history in which each invocation ends before the next begins. *)
Definition run (history : list Invocation) (w : World) : World :=
  fold_left (fun w i => invoke i w) history w.

(** No two appointments of the Primary Store share an id. *)
Definition unique_ids (w : World) : Prop :=
  NoDup (map Appointment.id (appointments w)).

(** The request of a validated [AppointmentRequest], with any members before
    its three keys. *)
Definition request_json (extra : list (string * json)) (r : AppointmentRequest.t) : json :=
  JObj (extra ++ [("insuredId", JStr (AppointmentRequest.insuredId r));
                  ("scheduleId", JNum (AppointmentRequest.scheduleId r));
                  ("countryISO", JStr (CountryISO_value (AppointmentRequest.countryISO r)))]).

(** The CreatedEvent of an appointment. *)
Definition created_event_of (a : Appointment.t) : AppointmentCreatedEvent.t :=
  AppointmentCreatedEvent.mk (Appointment.id a) (Appointment.insuredId a)
    (Appointment.scheduleId a) (Appointment.countryISO a) (Appointment.createdAt a).

(** The publication of the CreatedEvent of an appointment, as an effect. *)
Definition created_publication (env : Env) (a : Appointment.t) : Effect :=
  SnsPublish (CountryTopic (Appointment.countryISO a))
    (stringify (NotificationService.created_message env (created_event_of a)))
    ("Appointment Created - " ++ CountryISO_value (Appointment.countryISO a))
    [("countryISO", CountryISO_value (Appointment.countryISO a));
     ("eventType", "AppointmentCreated")].

(** A CreatedEvent that both validations of a country handler accept. *)
Definition well_formed_event (e : AppointmentCreatedEvent.t) : Prop :=
  AppointmentCreatedEvent.appointmentId e <> EmptyString
  /\ five_digits (AppointmentCreatedEvent.insuredId e) = true
  /\ 0 < AppointmentCreatedEvent.scheduleId e.

(** The other country. *)
Definition other_country (c : CountryISO) : CountryISO :=
  match c with PE => CL | CL => PE end.

(** An environment in which the publication to the topic is rejected. *)
Definition publish_rejected : Env :=
  mkEnv clock true None None None None (Some "Topic unreachable") None None None.

(** The appointment that Intake builds for a validated request in [w]. *)
Definition new_appointment (env : Env) (request : AppointmentRequest.t) (w : World)
  : Appointment.t :=
  Appointment.mk (uuid_of (uuids w))
    (AppointmentRequest.insuredId request)
    (AppointmentRequest.scheduleId request)
    (AppointmentRequest.countryISO request)
    PENDING (now env) (now env).

(** ** What a history may do to the stores *)

(** [a'] is [a] later on: the same appointment but for [status] and
    [updatedAt]. *)
Definition preserved (a a' : Appointment.t) : Prop :=
  Appointment.id a' = Appointment.id a
  /\ Appointment.insuredId a' = Appointment.insuredId a
  /\ Appointment.scheduleId a' = Appointment.scheduleId a
  /\ Appointment.countryISO a' = Appointment.countryISO a
  /\ Appointment.createdAt a' = Appointment.createdAt a.

(** From a Primary Store without repeated ids: the ids stay unique and every
    appointment is preserved. *)
Definition keeps (w w' : World) : Prop :=
  unique_ids w ->
  unique_ids w'
  /\ forall a, In a (appointments w) ->
               exists a', In a' (appointments w') /\ preserved a a'.

Definition processing_row (row : AppointmentRDSEntity.t) : Prop :=
  AppointmentRDSEntity.status row = AppointmentStatus_value PROCESSING.

(** The rows written to the regional store of [c] among a list of effects. *)
Definition rows_for (c : CountryISO) (es : list Effect) : list AppointmentRDSEntity.t :=
  flat_map (fun e => match e with
                     | RdsInsert c' row => if CountryISO_eqb c' c then [row] else []
                     | _ => []
                     end) es.

(** No more ConfirmedEvents than regional records. *)
Definition backed (es : list Effect) : Prop :=
  (List.length (confirmations es) <= List.length (inserted_rows es))%nat.

(** [es] are the effects between [w] and [w']; they account for what the
    regional stores gained, every row written is PROCESSING, and the
    ConfirmedEvents are backed by records. *)
Definition accounted (w w' : World) (es : list Effect) : Prop :=
  effects w' = (effects w ++ es)%list
  /\ (forall c, rds c w' = (rds c w ++ rows_for c es)%list)
  /\ Forall processing_row (map snd (inserted_rows es))
  /\ backed es.

(** The effects of a country Lambda: those of [accounted], on the store of
    its own country only, and none on the Primary Store. *)
Definition country_run (c : CountryISO) (w w' : World) (es : list Effect) : Prop :=
  appointments w' = appointments w
  /\ accounted w w' es
  /\ rows_for (other_country c) es = []
  /\ Forall (fun e => match e with
                      | DynamoPut _ | DynamoUpdate _ _ _ => False
                      | _ => True
                      end) es.

(** The regional record that a processor writes for an event in [w]. *)
Definition regional_record (env : Env) (event : AppointmentCreatedEvent.t) (w : World)
  : AppointmentRDSEntity.t :=
  let scheduleInfo :=
    BaseAppointmentProcessor.getScheduleInformation env
      (AppointmentCreatedEvent.scheduleId event) in
  AppointmentRDSEntity.mk (uuid_of (uuids w))
    (AppointmentCreatedEvent.insuredId event)
    (AppointmentCreatedEvent.scheduleId event)
    (centerId scheduleInfo) (specialtyId scheduleInfo) (medicId scheduleInfo)
    (appointmentDate scheduleInfo)
    (AppointmentStatus_value PROCESSING) (now env) (now env).

(** The publication of the ConfirmedEvent of an appointment, as an effect. *)
Definition confirmed_publication (env : Env) (country : CountryISO) (appointmentId : string)
  : Effect :=
  PutEvents "appointment.service" "Appointment Confirmed"
    (stringify (NotificationService.confirmed_detail env
                  (AppointmentConfirmedEvent.mk appointmentId country (now env) COMPLETED))).

(** The body under which the publication of a CreatedEvent reaches the queue
    of its country. *)
Definition queued_body (env : Env) (a : Appointment.t) : string :=
  stringify
    (Infrastructure.sns_envelope
       (stringify (NotificationService.created_message env (created_event_of a)))
       ("Appointment Created - " ++ CountryISO_value (Appointment.countryISO a))
       [("countryISO", CountryISO_value (Appointment.countryISO a));
        ("eventType", "AppointmentCreated")]).

(** The body under which a published ConfirmedEvent reaches the confirmation
    queue. *)
Definition confirmed_body (env : Env) (event : AppointmentConfirmedEvent.t) : string :=
  stringify (JObj [("version", JStr "0");
                   ("detail-type", JStr "Appointment Confirmed");
                   ("source", JStr "appointment.service");
                   ("detail", NotificationService.confirmed_detail env event)]).

(** An appointment whose insured id and schedule are those of a valid
    request. *)
Definition valid_appointment (a : Appointment.t) : Prop :=
  five_digits (Appointment.insuredId a) = true /\ 0 < Appointment.scheduleId a.

(** [Number.MAX_SAFE_INTEGER]: the integers up to it are the numbers that
    the validation schema takes for integers. *)
Definition MAX_SAFE_INTEGER : Z := 9007199254740991.

(** The headers of every response that [createResponse] builds. *)
Definition cors_headers : list (string * string) :=
  [("Content-Type", "application/json");
   ("Access-Control-Allow-Origin", "*");
   ("Access-Control-Allow-Methods", "GET, POST, OPTIONS");
   ("Access-Control-Allow-Headers", "Content-Type, Authorization")].

(** An invocation of one of the three Lambdas, as the deployment triggers
    them: not a status update by another client. *)
Definition is_lambda (i : Invocation) : Prop :=
  match i with
  | StatusUpdate _ _ _ => False
  | _ => True
  end.

Definition not_processing (a : Appointment.t) : Prop :=
  Appointment.status a <> PROCESSING.

Definition is_pending (a : Appointment.t) : Prop :=
  Appointment.status a = PENDING.

(** A string that DynamoDB admits as the value of the key: not empty, and of
    at most 2048 bytes. *)
Definition valid_key (id : string) : Prop :=
  id <> EmptyString /\ (String.length id <= 2048)%nat.

(** ** Overlapping invocations *)

(** Invocations run in parallel, and each is a sequence of calls of the
    stores with an [await] between them.  Whatever the overlap, what the
    Primary Store goes through is a sequence of the two calls of the
    repository that write to it, each one conditioned command of DynamoDB:
    [create], and [updateStatus] with any id and status, since the service
    checks the transition on an earlier read. *)
Inductive Write : Type :=
| WriteCreate (env : Env) (insuredId : string) (scheduleId : Z)
              (countryISO : CountryISO) (status : AppointmentStatus)
| WriteStatus (env : Env) (id : string) (status : AppointmentStatus).

Definition write (c : Write) (w : World) : World :=
  match c with
  | WriteCreate env insuredId scheduleId countryISO status =>
      snd (AppointmentRepository.create env insuredId scheduleId countryISO status w)
  | WriteStatus env id status =>
      snd (AppointmentRepository.updateStatus env id status w)
  end.

Definition writes (l : list Write) (w : World) : World :=
  fold_left (fun w c => write c w) l w.

(** A Primary Store whose only appointment is PROCESSING. *)
Definition one_processing : World :=
  mkWorld [Appointment.mk "a-100" "00789" 100 PE PROCESSING clock clock] [] [] [] 0.

(** The status of the appointment under an id, if there is one. *)
Definition status_of (id : string) (w : World) : option AppointmentStatus :=
  option_map Appointment.status (lookup id (appointments w)).

(** What any invocation does to the world. *)
Definition footprint (w w' : World) : Prop :=
  keeps w w' /\ exists es, accounted w w' es.

(** A Primary Store whose only appointment is COMPLETED. *)
Definition one_completed : World :=
  mkWorld [Appointment.mk "a-100" "00789" 100 PE COMPLETED clock clock] [] [] [] 0.

(** A history on the store of [one_pending]: a create request for the
    schedule that is taken, the update of the appointment to PROCESSING, its
    event on the queue of Peru, and its confirmation. *)
Definition post_request_100 : APIGatewayProxyEvent :=
  mkHttpEvent "POST" "/appointment" (Some (stringify request_100)) None.

Definition sample_history : list Invocation :=
  [HttpRequest (no_faults clock) None post_request_100;
   StatusUpdate (no_faults clock) "a-100" PROCESSING;
   CountryBatch (no_faults clock) PE
     [mkRecord "m-1"
        (stringify (created_event_json
                      (AppointmentCreatedEvent.mk "a-100" "00789" 100 PE clock)))];
   ConfirmationBatch (no_faults clock)
     [mkRecord "m-2" (direct_body (AppointmentConfirmedEvent.mk "a-100" PE clock COMPLETED))]].

(** The ConfirmedEvents that one run of a processor publishes: one when it
    returns, none when it throws. *)
Definition confirmed_by (r : Result unit) : nat :=
  match r with Ok _ => 1%nat | Throw _ => 0%nat end.

(* ===================================================================== *)
(** * Measures and predicates used by the proofs about the parser *)
(* ===================================================================== *)

Module JSONMeasure.

(** The continuation of a printed value inside a text: the end of the text,
    or one of [,], []] and [}]. *)
Definition sep_head (k : string) : bool :=
  match k with
  | EmptyString => true
  | String c _ =>
      let n := nat_of_ascii c in (Nat.eqb n 44 || Nat.eqb n 93 || Nat.eqb n 125)%bool
  end.

(** The fuel that parsing the text of [v] needs. *)
Fixpoint need (v : json) : nat :=
  match v with
  | JArr l => S ((fix go (l : list json) : nat :=
                    match l with [] => O | x :: r => S (need x + go r) end) l)
  | JObj l => S ((fix go (l : list (string * json)) : nat :=
                    match l with [] => O | (_, x) :: r => S (need x + go r) end) l)
  | _ => 1%nat
  end.

Fixpoint need_elems (l : list json) : nat :=
  match l with [] => O | x :: r => S (need x + need_elems r) end.

Fixpoint need_members (l : list (string * json)) : nat :=
  match l with [] => O | (_, x) :: r => S (need x + need_members r) end.

(** The first character of a printed value: neither blank nor a closing
    bracket. *)
Definition value_head (s : string) : bool :=
  match s with
  | EmptyString => false
  | String c _ =>
      let n := nat_of_ascii c in
      (negb (is_ws c) && negb (Nat.eqb n 93) && negb (Nat.eqb n 125))%bool
  end.

(** The parser gives [v] back from its text, whatever follows it. *)
Definition roundtrip_at (v : json) : Prop :=
  forall fuel k, (need v <= fuel)%nat -> sep_head k = true ->
                 parse_value fuel (print v k) = Some (v, k).

End JSONMeasure.

(* ===================================================================== *)
(** * Facts about the JSON printer and parser *)
(* ===================================================================== *)

Module JSONFacts.
Import JSONMeasure.

Lemma parse_chars_escape_char (c : ascii) (k : string) :
  parse_chars (escape_char c k) = cons_result c (parse_chars k).
Proof.
  destruct c as [[] [] [] [] [] [] [] []]; reflexivity.
Qed.

Lemma parse_chars_escape (s k : string) :
  parse_chars (escape s (String dquote k)) = Some (s, k).
Proof.
  induction s as [|c s IH]; simpl.
  - reflexivity.
  - rewrite parse_chars_escape_char, IH. reflexivity.
Qed.

Lemma sep_head_cases k :
  sep_head k = true ->
  skip_ws k = k /\ starts_fraction k = false /\
  match k with String c _ => is_digit c = false | EmptyString => True end.
Proof.
  destruct k as [|c k]; [easy|].
  destruct c as [[] [] [] [] [] [] [] []]; simpl; intros H; try discriminate H; auto.
Qed.

Lemma span_digits_uint (d : uint) (k : string) :
  match k with String c _ => is_digit c = false | EmptyString => True end ->
  span_digits (NilEmpty.string_of_uint d ++ k) = (NilEmpty.string_of_uint d, k).
Proof.
  intros Hk. induction d; simpl; try (rewrite IHd; reflexivity).
  destruct k as [|c k]; simpl; [reflexivity|]. now rewrite Hk.
Qed.

Lemma to_uint_head (p : positive) :
  match Pos.to_uint p with Nil | D0 _ => False | _ => True end.
Proof.
  pose proof (Unsigned.to_of (Pos.to_uint p)) as H.
  rewrite Unsigned.of_to in H. simpl in H.
  pose proof (Unsigned.to_uint_nonzero p) as Hz.
  destruct (Pos.to_uint p) as [|u|u|u|u|u|u|u|u|u|u] eqn:E; auto.
  unfold unorm in H. simpl in H.
  pose proof (nb_digits_nzhead u) as Hn.
  destruct (nzhead u) eqn:En; try (rewrite <- H in Hn; simpl in Hn; lia).
  now apply Hz.
Qed.

Lemma parse_digits_pos (p : positive) (k : string) :
  sep_head k = true ->
  parse_digits (NilEmpty.string_of_uint (Pos.to_uint p) ++ k) = Some (Npos p, k).
Proof.
  intros Hk. destruct (sep_head_cases k Hk) as (_ & Hf & Hd).
  unfold parse_digits. rewrite span_digits_uint by exact Hd. rewrite Hf.
  pose proof (to_uint_head p) as Hh.
  pose proof (Unsigned.of_to p) as Hof.
  rewrite NilEmpty.usu.
  unfold N.of_uint. rewrite Hof.
  destruct (Pos.to_uint p) as [|u|u|u|u|u|u|u|u|u|u]; try contradiction;
    simpl; destruct (NilEmpty.string_of_uint u); reflexivity.
Qed.

Lemma need_arr l : need (JArr l) = S (need_elems l).
Proof. reflexivity. Qed.

Lemma need_obj l : need (JObj l) = S (need_members l).
Proof. reflexivity. Qed.

Lemma need_pos v : (1 <= need v)%nat.
Proof. destruct v; simpl; lia. Qed.

Lemma print_arr l k : print (JArr l) k = String "[" (print_elems l (String "]" k)).
Proof. reflexivity. Qed.

Lemma print_obj l k : print (JObj l) k = String "{" (print_members l (String "}" k)).
Proof. reflexivity. Qed.

Lemma value_head_uint d k :
  d <> Nil -> value_head (NilEmpty.string_of_uint d ++ k) = true.
Proof. destruct d; simpl; congruence. Qed.

Lemma value_head_print v k : value_head (print v k) = true.
Proof.
  destruct v as [|[]|n|s|l|l]; try reflexivity.
  destruct n; try reflexivity. simpl.
  apply value_head_uint, Unsigned.to_uint_nonnil.
Qed.

Lemma value_head_skip s : value_head s = true -> skip_ws s = s.
Proof.
  destruct s as [|c s]; simpl; [discriminate|].
  destruct (is_ws c); simpl; [discriminate|reflexivity].
Qed.

Lemma parse_value_lit f c r :
  parse_value (S f) (String c r) =
  let n := nat_of_ascii c in
  if Nat.eqb n 110 then option_map (fun k => (JNull, k)) (expect "ull" r)
  else if Nat.eqb n 116 then option_map (fun k => (JBool true, k)) (expect "rue" r)
  else if Nat.eqb n 102 then option_map (fun k => (JBool false, k)) (expect "alse" r)
  else if Nat.eqb n 34 then
    match parse_chars r with Some (t, k) => Some (JStr t, k) | None => None end
  else if Nat.eqb n 45 then
    match parse_digits r with Some (m, k) => Some (JNum (- Z.of_N m), k) | None => None end
  else if is_digit c then
    match parse_digits (String c r) with Some (m, k) => Some (JNum (Z.of_N m), k) | None => None end
  else if Nat.eqb n 91 then
    match skip_ws r with
    | String c1 r1 =>
        if Nat.eqb (nat_of_ascii c1) 93 then Some (JArr [], r1)
        else match parse_elems f (String c1 r1) with
             | Some (l, k) => Some (JArr l, k)
             | None => None
             end
    | EmptyString => None
    end
  else if Nat.eqb n 123 then
    match skip_ws r with
    | String c1 r1 =>
        if Nat.eqb (nat_of_ascii c1) 125 then Some (JObj [], r1)
        else match parse_members f (String c1 r1) with
             | Some (l, k) => Some (JObj l, k)
             | None => None
             end
    | EmptyString => None
    end
  else None.
Proof. reflexivity. Qed.

Lemma parse_value_digit f c r :
  is_digit c = true ->
  parse_value (S f) (String c r) =
  match parse_digits (String c r) with Some (m, k) => Some (JNum (Z.of_N m), k) | None => None end.
Proof.
  intros H. rewrite parse_value_lit.
  destruct c as [[] [] [] [] [] [] [] []]; try discriminate H; reflexivity.
Qed.

Lemma parse_elems_eq f s :
  parse_elems (S f) s =
  match parse_value f s with
  | Some (v, k) =>
      match skip_ws k with
      | String c r =>
          let n := nat_of_ascii c in
          if Nat.eqb n 44 then
            match parse_elems f (skip_ws r) with
            | Some (l, k') => Some (v :: l, k')
            | None => None
            end
          else if Nat.eqb n 93 then Some ([v], r)
          else None
      | EmptyString => None
      end
  | None => None
  end.
Proof. reflexivity. Qed.

Lemma parse_members_eq f key K :
  parse_members (S f) (quote key (String ":" K)) =
  match parse_value f (skip_ws K) with
  | Some (v, k) =>
      match skip_ws k with
      | String c r1 =>
          let n := nat_of_ascii c in
          if Nat.eqb n 44 then
            match parse_members f (skip_ws r1) with
            | Some (l, k') => Some ((key, v) :: l, k')
            | None => None
            end
          else if Nat.eqb n 125 then Some ([(key, v)], r1)
          else None
      | EmptyString => None
      end
  | None => None
  end.
Proof.
  unfold quote. cbn [parse_members]. 
  change (Nat.eqb (nat_of_ascii dquote) 34) with true. cbv iota.
  rewrite parse_chars_escape. reflexivity.
Qed.

Lemma parse_digits_zero k :
  sep_head k = true -> parse_digits (String "0" k) = Some (0%N, k).
Proof.
  intros Hk. destruct (sep_head_cases k Hk) as (_ & Hf & Hd).
  unfold parse_digits. cbn [span_digits]. change (is_digit "0") with true. cbv iota.
  destruct k as [|c k]; [reflexivity|].
  cbn [span_digits]. rewrite Hd. cbv beta iota zeta. rewrite Hf. reflexivity.
Qed.

Lemma print_elems_one x K : print_elems [x] K = print x K.
Proof. reflexivity. Qed.

Lemma print_elems_more x y l K :
  print_elems (x :: y :: l) K = print x (String "," (print_elems (y :: l) K)).
Proof. reflexivity. Qed.

Lemma print_members_one key x K :
  print_members [(key, x)] K = quote key (String ":" (print x K)).
Proof. reflexivity. Qed.

Lemma print_members_more key x m l K :
  print_members ((key, x) :: m :: l) K =
  quote key (String ":" (print x (String "," (print_members (m :: l) K)))).
Proof. reflexivity. Qed.

Lemma value_head_members m l K : value_head (print_members (m :: l) K) = true.
Proof. destruct m as [key x]. reflexivity. Qed.

Lemma value_head_elems x l K : value_head (print_elems (x :: l) K) = true.
Proof. simpl. apply value_head_print. Qed.

Lemma skip_comma r : skip_ws (String "," r) = String "," r.
Proof. reflexivity. Qed.

Lemma skip_close_bracket r : skip_ws (String "]" r) = String "]" r.
Proof. reflexivity. Qed.

Lemma skip_close_brace r : skip_ws (String "}" r) = String "}" r.
Proof. reflexivity. Qed.

Lemma parse_print_scalar v :
  match v with JArr _ | JObj _ => False | _ => True end -> roundtrip_at v.
Proof.
  intros Hv fuel k Hf Hk. destruct fuel as [|f]; [pose proof (need_pos v); lia|].
  destruct v as [|[]|n|s|l|l]; try contradiction; try reflexivity.
  - destruct n as [|p|p]; unfold print, print_Z.
    + rewrite parse_value_digit by reflexivity.
      rewrite parse_digits_zero by exact Hk. reflexivity.
    + pose proof (to_uint_head p) as Hh.
      pose proof (parse_digits_pos p k Hk) as Hp.
      destruct (Pos.to_uint p) as [|u|u|u|u|u|u|u|u|u|u]; try contradiction;
        cbn [NilEmpty.string_of_uint append] in Hp |- *;
        rewrite parse_value_digit by reflexivity;
        rewrite Hp; reflexivity.
    + rewrite parse_value_lit. simpl.
      rewrite parse_digits_pos by exact Hk. reflexivity.
  - unfold print, quote. rewrite parse_value_lit. simpl.
    rewrite parse_chars_escape. reflexivity.
Qed.

Lemma parse_print_elems (n : nat) :
  (forall v, (need v <= n)%nat -> roundtrip_at v) ->
  forall l, l <> [] -> (need_elems l <= S n)%nat ->
  forall fuel k, (need_elems l <= fuel)%nat ->
    parse_elems fuel (print_elems l (String "]" k)) = Some (l, k).
Proof.
  intros IH l. induction l as [|x l IHl]; intros Hne Hn fuel k Hf; [congruence|].
  cbn [need_elems] in Hn, Hf. destruct fuel as [|f]; [lia|].
  rewrite parse_elems_eq.
  destruct l as [|y l].
  - rewrite print_elems_one, (IH x) by (lia || reflexivity).
    rewrite skip_close_bracket. reflexivity.
  - rewrite print_elems_more, (IH x) by (lia || reflexivity).
    rewrite skip_comma.
    change (Nat.eqb (nat_of_ascii ",") 44) with true. cbv beta iota zeta.
    rewrite value_head_skip by (apply value_head_elems).
    rewrite IHl; [reflexivity | congruence | lia | lia].
Qed.

Lemma parse_print_members (n : nat) :
  (forall v, (need v <= n)%nat -> roundtrip_at v) ->
  forall l, l <> [] -> (need_members l <= S n)%nat ->
  forall fuel k, (need_members l <= fuel)%nat ->
    parse_members fuel (print_members l (String "}" k)) = Some (l, k).
Proof.
  intros IH l. induction l as [|[key x] l IHl]; intros Hne Hn fuel k Hf; [congruence|].
  cbn [need_members] in Hn, Hf. destruct fuel as [|f]; [lia|].
  destruct l as [|m l].
  - rewrite print_members_one, parse_members_eq.
    rewrite value_head_skip by (apply value_head_print).
    rewrite (IH x) by (lia || reflexivity).
    rewrite skip_close_brace. reflexivity.
  - rewrite print_members_more, parse_members_eq.
    rewrite value_head_skip by (apply value_head_print).
    rewrite (IH x) by (lia || reflexivity).
    rewrite skip_comma.
    change (Nat.eqb (nat_of_ascii ",") 44) with true. cbv beta iota zeta.
    rewrite value_head_skip by (apply value_head_members).
    rewrite IHl; [reflexivity | congruence | lia | lia].
Qed.

Lemma parse_print_bounded (n : nat) : forall v, (need v <= n)%nat -> roundtrip_at v.
Proof.
  induction n as [|n IH]; intros v Hn.
  - pose proof (need_pos v). lia.
  - destruct v as [| b | z | s | l | l];
      try (apply parse_print_scalar; exact I).
    + intros fuel k Hf Hk. rewrite need_arr in Hn, Hf.
      destruct fuel as [|f]; [lia|].
      rewrite print_arr, parse_value_lit.
      change (nat_of_ascii "[") with 91%nat. cbv beta iota zeta.
      change (is_digit "[") with false. simpl (Nat.eqb _ _). cbv iota.
      destruct l as [|x l]; [reflexivity|].
      assert (He : parse_elems f (print_elems (x :: l) (String "]" k)) = Some (x :: l, k))
        by (apply (parse_print_elems n IH); [congruence | lia | lia]).
      pose proof (value_head_elems x l (String "]" k)) as Hh.
      rewrite (value_head_skip _ Hh).
      destruct (print_elems (x :: l) (String "]" k)) as [|c1 r1]; [discriminate Hh|].
      cbn [value_head] in Hh.
      destruct (Nat.eqb (nat_of_ascii c1) 93).
      { rewrite andb_false_r in Hh. discriminate Hh. }
      rewrite He. reflexivity.
    + intros fuel k Hf Hk. rewrite need_obj in Hn, Hf.
      destruct fuel as [|f]; [lia|].
      rewrite print_obj, parse_value_lit.
      change (nat_of_ascii "{") with 123%nat. cbv beta iota zeta.
      change (is_digit "{") with false. simpl (Nat.eqb _ _). cbv iota.
      destruct l as [|m l]; [reflexivity|].
      assert (He : parse_members f (print_members (m :: l) (String "}" k)) = Some (m :: l, k))
        by (apply (parse_print_members n IH); [congruence | lia | lia]).
      pose proof (value_head_members m l (String "}" k)) as Hh.
      rewrite (value_head_skip _ Hh).
      destruct (print_members (m :: l) (String "}" k)) as [|c1 r1]; [discriminate Hh|].
      cbn [value_head] in Hh.
      destruct (Nat.eqb (nat_of_ascii c1) 125).
      { rewrite andb_false_r in Hh. discriminate Hh. }
      rewrite He. reflexivity.
Qed.

Lemma parse_print v k :
  sep_head k = true -> forall fuel, (need v <= fuel)%nat ->
  parse_value fuel (print v k) = Some (v, k).
Proof.
  intros Hk fuel Hf. now apply (parse_print_bounded (need v) v (le_n _)).
Qed.

Lemma length_escape_char c k :
  (S (String.length k) <= String.length (escape_char c k))%nat.
Proof.
  unfold escape_char.
  repeat match goal with
         | |- context [if ?b then _ else _] => destruct b
         end; simpl; lia.
Qed.

Lemma length_quote s k : (2 + String.length k <= String.length (quote s k))%nat.
Proof.
  unfold quote. simpl. apply le_n_S.
  induction s as [|c s IH]; simpl; [lia|].
  pose proof (length_escape_char c (escape s (String dquote k))). lia.
Qed.

Lemma length_uint d k :
  d <> Nil -> (S (String.length k) <= String.length (NilEmpty.string_of_uint d ++ k))%nat.
Proof.
  intros Hd.
  assert (H : forall u, (String.length k <= String.length (NilEmpty.string_of_uint u ++ k))%nat)
    by (induction u; simpl; lia).
  destruct d; try congruence; simpl; apply le_n_S, H.
Qed.

Lemma length_print_scalar v k :
  match v with JArr _ | JObj _ => False | _ => True end ->
  (need v + String.length k <= String.length (print v k))%nat.
Proof.
  destruct v as [|[]|n|s|l|l]; try contradiction; intros _; try (simpl; lia).
  - destruct n as [|p|p]; simpl; try lia.
    + apply (length_uint (Pos.to_uint p) k), Unsigned.to_uint_nonnil.
    + pose proof (length_uint (Pos.to_uint p) k (Unsigned.to_uint_nonnil p)). lia.
  - pose proof (length_quote s k). simpl in *. lia.
Qed.

Lemma length_print_bounded (n : nat) :
  forall v, (need v <= n)%nat ->
  forall k, (need v + String.length k <= String.length (print v k))%nat.
Proof.
  induction n as [|n IH]; intros v Hn.
  - pose proof (need_pos v). lia.
  - destruct v as [| b | z | s | l | l];
      try (intros k; apply length_print_scalar; exact I); intros k.
    + rewrite need_arr in Hn |- *. rewrite print_arr.
      assert (He : forall l K, (need_elems l <= n)%nat ->
                (need_elems l + String.length K <= S (String.length (print_elems l K)))%nat).
      { clear l Hn k. induction l as [|x l IHl]; intros K Hl; [simpl; lia|].
        change (need_elems (x :: l)) with (S (need x + need_elems l)) in *.
        destruct l as [|y l].
        - rewrite print_elems_one. pose proof (IH x ltac:(lia) K). simpl. lia.
        - rewrite print_elems_more.
          pose proof (IH x ltac:(lia) (String "," (print_elems (y :: l) K))) as Hx.
          pose proof (IHl K ltac:(lia)) as Hl'. cbn [String.length] in Hx. lia. }
      pose proof (He l (String "]" k) ltac:(lia)) as H. cbn [String.length] in *. lia.
    + rewrite need_obj in Hn |- *. rewrite print_obj.
      assert (He : forall l K, (need_members l <= n)%nat ->
                (need_members l + String.length K <= S (String.length (print_members l K)))%nat).
      { clear l Hn k. induction l as [|[key x] l IHl]; intros K Hl; [simpl; lia|].
        change (need_members ((key, x) :: l)) with (S (need x + need_members l)) in *.
        destruct l as [|m l].
        - rewrite print_members_one.
          pose proof (length_quote key (String ":" (print x K))) as Hq.
          pose proof (IH x ltac:(lia) K). cbn [String.length need_members] in *. lia.
        - rewrite print_members_more.
          pose proof (length_quote key
            (String ":" (print x (String "," (print_members (m :: l) K))))) as Hq.
          pose proof (IH x ltac:(lia) (String "," (print_members (m :: l) K))) as Hx.
          pose proof (IHl K ltac:(lia)) as Hl'. cbn [String.length] in Hx, Hq. lia. }
      pose proof (He l (String "}" k) ltac:(lia)) as H. cbn [String.length] in *. lia.
Qed.

(** [JSON.parse(JSON.stringify(v))] gives [v] back, for every value. *)
Theorem parse_stringify (v : json) : parse (stringify v) = Some v.
Proof.
  unfold parse, stringify.
  rewrite value_head_skip by (apply value_head_print).
  rewrite parse_print.
  - reflexivity.
  - reflexivity.
  - pose proof (length_print_bounded (need v) v (le_n _) EmptyString).
    simpl in H. lia.
Qed.

Lemma stringify_nonempty v : stringify v <> EmptyString.
Proof.
  unfold stringify. pose proof (value_head_print v EmptyString) as H.
  destruct (print v EmptyString); [discriminate H|discriminate].
Qed.

End JSONFacts.

(* ===================================================================== *)
(** * The status state machine *)
(* ===================================================================== *)

Import JSONFacts.

(** C2. The transition check is total: every pair of statuses is either
    accepted or rejected with a validation error.  It accepts exactly the
    four pairs of the transition table, and so rejects every transition out
    of COMPLETED or FAILED, COMPLETED to PROCESSING among them. *)
Theorem status_transition_table_exact (currentStatus newStatus : AppointmentStatus) :
  (AppointmentService.validateStatusTransition currentStatus newStatus = Ok tt
   <-> In (currentStatus, newStatus) transition_table)
  /\ (AppointmentService.validateStatusTransition currentStatus newStatus = Ok tt
      \/ AppointmentService.validateStatusTransition currentStatus newStatus
         = Throw (ValidationError
                    ("Transición de estado inválida: "
                     ++ AppointmentStatus_value currentStatus ++ " -> "
                     ++ AppointmentStatus_value newStatus)))
  /\ AppointmentService.validateStatusTransition COMPLETED newStatus <> Ok tt
  /\ AppointmentService.validateStatusTransition FAILED newStatus <> Ok tt.
Proof.
  unfold transition_table.
  destruct currentStatus, newStatus; cbn;
    repeat split; try (intros H; discriminate H); auto;
    try (intros H; repeat (destruct H as [H|H]; [discriminate H|]); contradiction);
    intuition congruence.
Qed.

(* ===================================================================== *)
(** * Schedule metadata *)
(* ===================================================================== *)






(** [double_div] and the division of the primitive floats give the same
    double, on quotients that are exact, that round down, that round up, and
    that fall on a tie, below and above [2^53]. *)
Example double_div_agrees_with_primitive_floats :
  forallb (fun '(a, b) =>
             let '(m, s) := normalized (double_div a b) in
             let '(m', s') := primitive_div a b in
             ((m =? m') && (s =? s'))%bool)
          [(100, 1000); (999, 1000); (1000, 1000); (123456, 1000); (999, 100); (99, 10);
           (1, 3); (2, 3); (5, 2); (7, 10);
           (9007199254740991, 1000); (9007199254740991, 1); (9007199254740991, 10);
           (8999999999999999, 1000); (8796093022207999, 1000);
           (9007199254740992, 3); (9007199254740994, 4); (9007199254740998, 4);
           (144115188075856992, 1000); (144115188075855872, 1000);
           (4611686018427387904, 1000)]
  = true.
Proof. vm_compute. reflexivity. Qed.




(* ===================================================================== *)
(** * The message parser of the country queues *)
(* ===================================================================== *)

Lemma stringify_object_not_empty (members : list (string * json)) :
  String.eqb (stringify (JObj members)) EmptyString = false.
Proof. unfold stringify. rewrite print_obj. reflexivity. Qed.

Lemma parse_bare_event (e : AppointmentCreatedEvent.t) :
  CountryHandler.parseAppointmentEvent (stringify (created_event_json e))
  = Ok (parsed_fields e).
Proof.
  unfold CountryHandler.parseAppointmentEvent, JSON_parse.
  rewrite parse_stringify. reflexivity.
Qed.

(** The envelope may carry other members beside [Message]. *)
Lemma parse_any_envelope (members : list (string * json)) (e : AppointmentCreatedEvent.t) :
  assoc_last "Message" members = Some (JStr (stringify (created_event_json e))) ->
  CountryHandler.parseAppointmentEvent (stringify (JObj members)) = Ok (parsed_fields e).
Proof.
  intros HM.
  unfold CountryHandler.parseAppointmentEvent, JSON_parse.
  rewrite parse_stringify.
  cbn [Result_bind get_property]. rewrite HM. unfold created_event_json.
  cbn [truthy ToString_val ToString]. rewrite stringify_object_not_empty.
  cbn [negb]. rewrite parse_stringify. reflexivity.
Qed.

(** C8. The parser gives the same parsed event for the bare serialization
    of a CreatedEvent and for that serialization as the [Message] string of
    one envelope; in both cases it is the event's own fields. *)
Theorem parse_bare_equals_enveloped (e : AppointmentCreatedEvent.t) :
  CountryHandler.parseAppointmentEvent (stringify (created_event_json e))
  = CountryHandler.parseAppointmentEvent
      (stringify (enveloped (stringify (created_event_json e))))
  /\ CountryHandler.parseAppointmentEvent (stringify (created_event_json e))
     = Ok (parsed_fields e).
Proof.
  split.
  - rewrite parse_bare_event. symmetry. apply parse_any_envelope. reflexivity.
  - apply parse_bare_event.
Qed.

(* ===================================================================== *)
(** * Status updates on the Primary Store *)
(* ===================================================================== *)

Ltac run_monad :=
  unfold AppointmentService.updateAppointmentStatus,
    AppointmentRepository.instance, AppointmentRepository.findById,
    AppointmentRepository.updateStatus, GetCommand, UpdateCommand_if_exists,
    rejected, key_checked, try_catch, bind, lift, throw, ret, log_effect in *;
  cbn [IAppointmentRepository.findById IAppointmentRepository.updateStatus
       IAppointmentRepository.create IAppointmentRepository.hasConflictingAppointment] in *.

(** An id under which the table has an item is not empty. *)
Lemma lookup_some_key (id : string) (table : list Appointment.t) (a : Appointment.t) :
  lookup id table = Some a -> String.eqb id "" = false.
Proof.
  unfold lookup. destruct (String.eqb id ""); [intros H; discriminate H | reflexivity].
Qed.

Lemma transition_rejected (currentStatus newStatus : AppointmentStatus) :
  ~ In (currentStatus, newStatus) transition_table ->
  AppointmentService.validateStatusTransition currentStatus newStatus
  = Throw (ValidationError
             ("Transición de estado inválida: "
              ++ AppointmentStatus_value currentStatus ++ " -> "
              ++ AppointmentStatus_value newStatus)).
Proof.
  unfold transition_table.
  destruct currentStatus, newStatus; cbn; intros Hnot;
    try reflexivity; exfalso; apply Hnot; tauto.
Qed.

(** A status update that fails leaves the world as it was, whatever made it
    fail. *)
Lemma failed_update_changes_nothing (env : Env) (appointmentId : string)
  (newStatus : AppointmentStatus) (w w' : World) (e : JsError) :
  AppointmentService.updateAppointmentStatus (AppointmentRepository.instance env)
    appointmentId newStatus w = (Throw e, w') ->
  w' = w.
Proof.
  run_monad.
  destruct (dynamo_get_fault env); cbn; [intros [= _ <-]; reflexivity|].
  destruct (String.eqb appointmentId ""); cbn; [intros [= _ <-]; reflexivity|].
  destruct (lookup appointmentId (appointments w)) as [a|] eqn:Hl; cbn;
    [|intros [= _ <-]; reflexivity].
  destruct (AppointmentService.validateStatusTransition (Appointment.status a) newStatus);
    cbn; [|intros [= _ <-]; reflexivity].
  destruct (dynamo_update_fault env); cbn; [intros [= _ <-]; reflexivity|].
  rewrite Hl. cbn. intros H. discriminate H.
Qed.

(** A transition of the table is applied: PENDING to PROCESSING on the one
    appointment of the store. *)
Example valid_update_is_applied :
  let '(result, w') :=
    AppointmentService.updateAppointmentStatus
      (AppointmentRepository.instance (no_faults clock)) "a-100" PROCESSING one_pending in
  result = Ok tt
  /\ map Appointment.status (appointments w') = [PROCESSING]
  /\ effects w' = [DynamoUpdate "a-100" PROCESSING clock].
Proof. vm_compute. repeat split. Qed.

(** C3. For every call, an update that fails leaves the Primary Store, and
    the rest of the world, unchanged.  When the read of the Primary Store is
    answered and the id is a key that the store admits: an update for an id
    that no Appointment has fails with NotFound, and an update whose
    transition is outside the table fails with a validation error.  When
    the id is the empty string, or the read is not answered, the update
    fails with the FIND_ERROR of the repository instead.  The conditioned
    write of the repository fails with NotFound too when no Appointment has
    the id. *)
Theorem update_status_not_found_or_invalid (env : Env) (appointmentId : string)
  (newStatus : AppointmentStatus) (w : World) :
  (forall e w',
      AppointmentService.updateAppointmentStatus (AppointmentRepository.instance env)
        appointmentId newStatus w = (Throw e, w') ->
      appointments w' = appointments w /\ w' = w)
  /\ (dynamo_get_fault env = None ->
      valid_key appointmentId ->
      lookup appointmentId (appointments w) = None ->
      AppointmentService.updateAppointmentStatus (AppointmentRepository.instance env)
        appointmentId newStatus w
      = (Throw (NotFoundError ("Cita con ID " ++ appointmentId ++ " no encontrada")), w))
  /\ (dynamo_get_fault env = None ->
      forall existing,
        lookup appointmentId (appointments w) = Some existing ->
        ~ In (Appointment.status existing, newStatus) transition_table ->
        AppointmentService.updateAppointmentStatus (AppointmentRepository.instance env)
          appointmentId newStatus w
        = (Throw (ValidationError
                    ("Transición de estado inválida: "
                     ++ AppointmentStatus_value (Appointment.status existing) ++ " -> "
                     ++ AppointmentStatus_value newStatus)), w))
  /\ (dynamo_get_fault env = None ->
      appointmentId = EmptyString ->
      AppointmentService.updateAppointmentStatus (AppointmentRepository.instance env)
        appointmentId newStatus w
      = (Throw (AppointmentError ("Error al buscar la cita: " ++ empty_key_message)
                                 "FIND_ERROR" None), w))
  /\ (forall fault,
        dynamo_get_fault env = Some fault ->
        AppointmentService.updateAppointmentStatus (AppointmentRepository.instance env)
          appointmentId newStatus w
        = (Throw (AppointmentError ("Error al buscar la cita: " ++ fault)
                                   "FIND_ERROR" None), w))
  /\ (dynamo_update_fault env = None ->
      valid_key appointmentId ->
      lookup appointmentId (appointments w) = None ->
      AppointmentRepository.updateStatus env appointmentId newStatus w
      = (Throw (NotFoundError ("Cita con ID " ++ appointmentId ++ " no encontrada")), w)).
Proof.
  split; [|split; [|split; [|split; [|split]]]].
  - intros e w' H. apply failed_update_changes_nothing in H. now subst.
  - intros Hget (Hkey & _) Hl. apply String.eqb_neq in Hkey.
    run_monad. rewrite Hget, Hkey, Hl. reflexivity.
  - intros Hget existing Hl Hnot.
    pose proof (lookup_some_key _ _ _ Hl) as Hkey.
    run_monad. rewrite Hget, Hkey, Hl.
    rewrite (transition_rejected _ _ Hnot). reflexivity.
  - intros Hget ->. run_monad. rewrite Hget. reflexivity.
  - intros fault Hget. run_monad. rewrite Hget. reflexivity.
  - intros Hupdate (Hkey & _) Hl. apply String.eqb_neq in Hkey.
    run_monad. rewrite Hupdate, Hkey, Hl. reflexivity.
Qed.

Lemma update_status_not_found_or_invalid_witness :
  valid_key "a-999"
  /\ AppointmentService.updateAppointmentStatus
       (AppointmentRepository.instance (no_faults clock)) "a-999" COMPLETED one_pending
     = (Throw (NotFoundError "Cita con ID a-999 no encontrada"), one_pending).
Proof.
  assert (Hkey : valid_key "a-999") by (split; [discriminate | cbn; lia]).
  split; [exact Hkey|].
  exact (proj1 (proj2 (update_status_not_found_or_invalid (no_faults clock) "a-999"
                         COMPLETED one_pending)) eq_refl Hkey eq_refl).
Defined.

(** No Appointment has the empty id, the read of the store is not rejected
    by the environment, and the update for the empty id fails: not with
    NotFound, but with the repository's FIND_ERROR, of status 500. *)
Lemma update_of_empty_id_is_find_error :
  lookup "" (appointments one_pending) = None
  /\ dynamo_get_fault (no_faults clock) = None
  /\ AppointmentService.updateAppointmentStatus
       (AppointmentRepository.instance (no_faults clock)) "" COMPLETED one_pending
     = (Throw (AppointmentError ("Error al buscar la cita: " ++ empty_key_message)
                                "FIND_ERROR" None), one_pending)
  /\ instanceof_NotFoundError
       (AppointmentError ("Error al buscar la cita: " ++ empty_key_message)
                         "FIND_ERROR" None) = false
  /\ statusCode (AppointmentError ("Error al buscar la cita: " ++ empty_key_message)
                                  "FIND_ERROR" None) = 500.
Proof. repeat split. Qed.

(* ===================================================================== *)
(** * The reconciler *)
(* ===================================================================== *)

Lemma rethrow_is_identity {A} (c : M A) (w : World) :
  try_catch c (fun error => throw error) w = c w.
Proof. unfold try_catch, throw. destruct (c w) as [[a|e] w']; reflexivity. Qed.





(* ===================================================================== *)
(** * The country processor *)
(* ===================================================================== *)





(** Two runs of the PE processor on the event of schedule 100: without
    faults, and with the INSERT rejected. *)
Example processor_run_without_faults :
  let '(result, w') :=
    BaseAppointmentProcessor.processAppointment (no_faults clock) PE
      (AppointmentCreatedEvent.mk "a-100" "00789" 100 PE clock) one_pending in
  result = Ok tt
  /\ map AppointmentRDSEntity.status (rds_pe w') = ["processing"]
  /\ List.length (confirmations (effects w')) = 1%nat.
Proof. vm_compute. repeat split. Qed.

Example processor_run_with_insert_rejected :
  let '(result, w') :=
    BaseAppointmentProcessor.processAppointment insert_rejected PE
      (AppointmentCreatedEvent.mk "a-100" "00789" 100 PE clock) one_pending in
  result = Throw (AppointmentError "Error al crear la cita en RDS PE: Lock wait timeout"
                                   "CREATE_RDS_ERROR" None)
  /\ rds_pe w' = []
  /\ confirmations (effects w') = [].
Proof. vm_compute. repeat split. Qed.

(* ===================================================================== *)
(** * Intake: the conflict check *)
(* ===================================================================== *)

(** A rejected conflict scan is answered as no conflict. *)
Lemma rejected_scan_finds_nothing (env : Env) (msg : string) (scheduleId : Z) (w : World) :
  dynamo_scan_fault env = Some msg ->
  AppointmentRepository.hasConflictingAppointment env scheduleId w = (Ok false, w).
Proof.
  intros Hscan.
  unfold AppointmentRepository.hasConflictingAppointment, ScanCommand, rejected,
    try_catch, bind, throw, ret.
  rewrite Hscan. reflexivity.
Qed.

(** C7. When the conflict query itself fails, the conflict check answers no
    conflict without throwing, and [createAppointment] does what it does
    with a repository whose conflict check finds no conflict: same response,
    same world after it.  It goes on to the insert: for a request that
    passes the validation and a schedule that is not refused, when the put
    is answered the new appointment, PENDING, is appended to the store,
    whatever appointments the store holds for the schedule, and the run is
    the publication of its CreatedEvent from that store. *)
Theorem conflict_check_fails_open (env : Env) (notificationService : INotificationService.t)
  (validateAppointmentRequest : json -> Result AppointmentRequest.t)
  (scheduleService : option (Z -> M bool)) (requestData : json) (w : World)
  (msg : string) :
  dynamo_scan_fault env = Some msg ->
  (forall scheduleId w1,
      AppointmentRepository.hasConflictingAppointment env scheduleId w1 = (Ok false, w1))
  /\ AppointmentService.createAppointment (AppointmentRepository.instance env)
       notificationService validateAppointmentRequest scheduleService requestData w
     = AppointmentService.createAppointment
         (without_conflicts (AppointmentRepository.instance env))
         notificationService validateAppointmentRequest scheduleService requestData w
  /\ (forall request,
        validateAppointmentRequest requestData = Ok request ->
        AppointmentService.checkScheduleAvailability scheduleService
          (AppointmentRequest.scheduleId request) w = (Ok tt, w) ->
        dynamo_put_fault env = None ->
        lookup (uuid_of (uuids w)) (appointments w) = None ->
        let appointment := new_appointment env request w in
        let stored :=
          mkWorld (appointments w ++ [appointment]) (rds_pe w) (rds_cl w)
                  (effects w ++ [DynamoPut appointment]) (S (uuids w)) in
        Appointment.status appointment = PENDING
        /\ AppointmentService.createAppointment (AppointmentRepository.instance env)
             notificationService validateAppointmentRequest scheduleService requestData w
           = (let (published, w') :=
                INotificationService.publishAppointmentCreated notificationService
                  (created_event_of appointment) stored in
              (Ok match published with
                  | Ok _ => AppointmentResponse.mk true "El agendamiento está en proceso"
                              (Some (Appointment.id appointment, PENDING)) None
                  | Throw error => AppointmentService.handleError error
                  end, w'))).
Proof.
  intros Hscan. split; [|split].
  - intros scheduleId w1. eapply rejected_scan_finds_nothing; eassumption.
  - unfold AppointmentService.createAppointment, AppointmentService.validateRequest,
      AppointmentService.checkScheduleAvailability,
      AppointmentService.checkExistingConflicts, try_catch, bind, lift.
    destruct (validateAppointmentRequest requestData) as [request|invalid]; [|reflexivity].
    assert (Hcheck : forall w1,
      IAppointmentRepository.hasConflictingAppointment (AppointmentRepository.instance env)
        (AppointmentRequest.scheduleId request) w1
      = IAppointmentRepository.hasConflictingAppointment
          (without_conflicts (AppointmentRepository.instance env))
          (AppointmentRequest.scheduleId request) w1).
    { intros w1. cbn. eapply rejected_scan_finds_nothing; eassumption. }
    destruct scheduleService as [validateScheduleAvailability|].
    + destruct (validateScheduleAvailability (AppointmentRequest.scheduleId request) w)
        as [[[|]|unavailable] w1]; cbn [negb ret throw];
        try reflexivity.
      rewrite Hcheck. reflexivity.
    + cbn [ret]. rewrite Hcheck. reflexivity.
  - intros request Hvalid Havailable Hput Hfresh appointment stored.
    split; [reflexivity|].
    unfold AppointmentService.createAppointment, AppointmentService.validateRequest,
      AppointmentService.checkExistingConflicts,
      AppointmentService.createAppointmentRecord,
      AppointmentService.publishCreatedEvent, AppointmentService.buildSuccessResponse.
    unfold try_catch, bind at 1 2 3. unfold lift. rewrite Hvalid, Havailable.
    unfold bind at 1 2.
    cbn [IAppointmentRepository.hasConflictingAppointment AppointmentRepository.instance].
    rewrite (rejected_scan_finds_nothing env msg _ w Hscan).
    unfold ret at 1. unfold bind.
    cbn [IAppointmentRepository.create AppointmentRepository.instance].
    unfold AppointmentRepository.create, PutCommand_if_absent, uuidv4, rejected,
      try_catch, bind, throw, ret, log_effect.
    rewrite Hput. cbn [appointments rds_pe rds_cl effects uuids Appointment.id].
    rewrite Hfresh. cbn [appointments rds_pe rds_cl effects uuids].
    fold (created_event_of appointment).
    unfold stored, appointment, new_appointment, created_event_of.
    cbn [Appointment.id Appointment.insuredId Appointment.scheduleId
         Appointment.countryISO Appointment.createdAt Appointment.status].
    destruct (INotificationService.publishAppointmentCreated notificationService _ _)
      as [[[]|error] w']; reflexivity.
Qed.

Lemma conflict_check_fails_open_witness :
  dynamo_scan_fault scan_rejected = Some "Request timed out"
  /\ AppointmentService.createAppointment (AppointmentRepository.instance scan_rejected)
       (NotificationService.instance scan_rejected)
       ValidationService.validateAppointmentRequest None request_100 one_pending
     = AppointmentService.createAppointment
         (without_conflicts (AppointmentRepository.instance scan_rejected))
         (NotificationService.instance scan_rejected)
         ValidationService.validateAppointmentRequest None request_100 one_pending.
Proof.
  split; [reflexivity|].
  exact (proj1 (proj2 (conflict_check_fails_open scan_rejected
                         (NotificationService.instance scan_rejected)
                         ValidationService.validateAppointmentRequest None request_100
                         one_pending "Request timed out" eq_refl))).
Defined.

(** With the scan rejected, a request for the schedule of a PENDING
    appointment is accepted and a second appointment for it is stored. *)
Example rejected_scan_lets_duplicate_in :
  let '(result, w') :=
    AppointmentService.createAppointment (AppointmentRepository.instance scan_rejected)
      (NotificationService.instance scan_rejected)
      ValidationService.validateAppointmentRequest None request_100 one_pending in
  option_map AppointmentResponse.success (value_of result) = Some true
  /\ map Appointment.scheduleId (appointments w') = [100; 100]
  /\ map Appointment.status (appointments w') = [PENDING; PENDING].
Proof. vm_compute. repeat split. Qed.

(** What the conflict check computes when the scan is answered: the filter
    on the first item in scan order, and no conflict on an empty table. *)
Lemma conflict_check_reads_first_item (env : Env) (scheduleId : Z) (w : World) :
  dynamo_scan_fault env = None ->
  AppointmentRepository.hasConflictingAppointment env scheduleId w
  = (Ok (match appointments w with
         | first :: _ => AppointmentRepository.conflict_filter scheduleId first
         | [] => false
         end), w).
Proof.
  intros Hscan.
  unfold AppointmentRepository.hasConflictingAppointment, ScanCommand, rejected,
    try_catch, bind, ret.
  rewrite Hscan. destruct (appointments w) as [|first others]; cbn; [reflexivity|].
  destruct (AppointmentRepository.conflict_filter scheduleId first); reflexivity.
Qed.

(** The conflict check finds a conflict that the scan reads first: the
    request is answered with the conflict response and nothing is written. *)
Lemma conflict_found_at_scan_head (env : Env) (notificationService : INotificationService.t)
  (validateAppointmentRequest : json -> Result AppointmentRequest.t)
  (requestData : json) (request : AppointmentRequest.t)
  (first : Appointment.t) (others : list Appointment.t) (w : World) :
  dynamo_scan_fault env = None ->
  validateAppointmentRequest requestData = Ok request ->
  appointments w = first :: others ->
  AppointmentRepository.conflict_filter (AppointmentRequest.scheduleId request) first = true ->
  AppointmentService.createAppointment (AppointmentRepository.instance env)
    notificationService validateAppointmentRequest None requestData w
  = (Ok (AppointmentResponse.mk false "Conflicto en la solicitud" None
           (Some ("Ya existe una cita para el horario "
                  ++ Z_to_string (AppointmentRequest.scheduleId request)))), w).
Proof.
  intros Hscan Hvalid Hw Hfirst.
  unfold AppointmentService.createAppointment, AppointmentService.validateRequest,
    AppointmentService.checkScheduleAvailability,
    AppointmentService.checkExistingConflicts, try_catch, bind, lift.
  rewrite Hvalid. cbn.
  unfold AppointmentRepository.hasConflictingAppointment, ScanCommand, rejected,
    try_catch, bind, ret.
  rewrite Hscan, Hw. cbn. rewrite Hfirst. reflexivity.
Qed.

(** C4, at the failing input.  The Primary Store holds a PENDING appointment
    for schedule 100 behind a PENDING appointment for schedule 200.  The
    conflict scan reads one item, the appointment for schedule 200, and
    reports no conflict: the request for schedule 100 is accepted and a
    second PENDING appointment for schedule 100 is stored. *)
Theorem conflict_missed_behind_first_item :
  let '(result, w') :=
    AppointmentHandler.createAppointment (no_faults clock) request_100 two_pending in
  AppointmentRepository.hasConflictingAppointment (no_faults clock) 100 two_pending
  = (Ok false, two_pending)
  /\ option_map AppointmentResponse.success (value_of result) = Some true
  /\ option_map AppointmentResponse.message (value_of result)
     = Some "El agendamiento está en proceso"
  /\ map Appointment.scheduleId (appointments w') = [200; 100; 100]
  /\ map Appointment.status (appointments w') = [PENDING; PENDING; PENDING]
  /\ map Appointment.id (appointments w') = ["a-200"; "a-100"; "uuid-0"].
Proof. vm_compute. repeat split. Qed.

(* ===================================================================== *)
(** * The HTTP create endpoint *)
(* ===================================================================== *)

(** [createAppointment] catches every error: it ends in a response. *)
Lemma create_appointment_never_throws (repository : IAppointmentRepository.t)
  (notificationService : INotificationService.t)
  (validateAppointmentRequest : json -> Result AppointmentRequest.t)
  (scheduleService : option (Z -> M bool)) (requestData : json) (w : World) :
  exists response w',
    AppointmentService.createAppointment repository notificationService
      validateAppointmentRequest scheduleService requestData w = (Ok response, w').
Proof.
  unfold AppointmentService.createAppointment, try_catch.
  match goal with
  | |- context [match ?inner w with _ => _ end] => destruct (inner w) as [[r|e] w1]
  end; do 2 eexists; reflexivity.
Qed.

(** The create endpoint never throws and answers 201 or 400, nothing else. *)
Lemma create_endpoint_answers_201_or_400 (env : Env) (event_body : option string) (w : World) :
  exists response w',
    AppointmentHandler.handleCreateAppointment env event_body w = (Ok response, w')
    /\ (http_statusCode response = 201 \/ http_statusCode response = 400).
Proof.
  unfold AppointmentHandler.handleCreateAppointment.
  destruct event_body as [[|c text]|]; try (do 2 eexists; split; [reflexivity|right; reflexivity]).
  destruct (parse (String c text)) as [requestData|];
    [|do 2 eexists; split; [reflexivity|right; reflexivity]].
  unfold AppointmentHandler.createAppointment, bind.
  destruct (create_appointment_never_throws (AppointmentRepository.instance env)
              (NotificationService.instance env)
              ValidationService.validateAppointmentRequest None requestData w)
    as (response & w1 & Hrun).
  rewrite Hrun. do 2 eexists; split; [reflexivity|].
  cbn. destruct (AppointmentResponse.success response); [left|right]; reflexivity.
Qed.

(** C5, at the failing inputs.  A create request that meets a conflict is
    answered 400, not 409, and one whose write to the Primary Store is
    rejected is answered 400, not 500; both carry the structured body. *)
Theorem create_endpoint_conflict_and_store_failure_are_400 :
  (let '(result, w') :=
     AppointmentHandler.handleCreateAppointment (no_faults clock)
       (Some (stringify request_100)) one_pending in
   w' = one_pending
   /\ option_map http_statusCode (value_of result) = Some 400
   /\ option_map (fun r => parse (http_body r)) (value_of result)
      = Some (Some (JObj [("success", JBool false);
                          ("message", JStr "Conflicto en la solicitud");
                          ("error", JStr "Ya existe una cita para el horario 100")])))
  /\ (let '(result, w') :=
        AppointmentHandler.handleCreateAppointment put_rejected
          (Some (stringify request_100)) emptyWorld in
      appointments w' = []
      /\ option_map http_statusCode (value_of result) = Some 400
      /\ option_map (fun r => parse (http_body r)) (value_of result)
         = Some (Some (JObj [("success", JBool false);
                             ("message", JStr "Error en el procesamiento");
                             ("error", JStr "Error al crear la cita: Service unavailable")]))).
Proof. vm_compute. repeat split. Qed.

(* ===================================================================== *)
(** * End to end *)
(* ===================================================================== *)

(** The reconciler can never complete a PENDING appointment: its update to
    COMPLETED is refused whenever the appointment it reads is PENDING, and
    nothing in the sources moves an appointment to PROCESSING. *)
Lemma pending_is_never_completed (env : Env) (existing : Appointment.t) (w : World) :
  dynamo_get_fault env = None ->
  lookup (Appointment.id existing) (appointments w) = Some existing ->
  Appointment.status existing = PENDING ->
  AppointmentHandler.updateAppointmentStatus env (Appointment.id existing) COMPLETED w
  = (Throw (ValidationError "Transición de estado inválida: pending -> completed"), w).
Proof.
  intros Hget Hl Hpending. pose proof (lookup_some_key _ _ _ Hl) as Hkey.
  unfold AppointmentHandler.updateAppointmentStatus. run_monad.
  rewrite Hget, Hkey, Hl, Hpending. reflexivity.
Qed.

(** C1, evaluated on its input.  One run of the pipeline without faults on
    the create request for insured 00123, schedule 100, country PE: the
    request is accepted, the PE processor writes one regional record for
    schedule 100 and publishes the ConfirmedEvent, and the reconciler's
    update to COMPLETED is refused by the transition check, PENDING to
    COMPLETED not being in the table.  The Primary Store ends with the one
    Appointment of the request, still PENDING. *)
Theorem end_to_end_run_leaves_pending :
  let run := run_pipeline (no_faults clock) (stringify request_100) emptyWorld in
  option_map http_statusCode (value_of (create_response run)) = Some 201
  /\ processor_pe_result run = Ok tt
  /\ reconciler_result run
     = Throw (ValidationError "Transición de estado inválida: pending -> completed")
  /\ map (fun a => (Appointment.insuredId a, Appointment.scheduleId a,
                    Appointment.countryISO a, Appointment.status a))
         (appointments (final_world run))
     = [("00123", 100, PE, PENDING)]
  /\ map (fun r => (AppointmentRDSEntity.schedule_id r, AppointmentRDSEntity.status r))
         (rds_pe (final_world run))
     = [(100, "processing")]
  /\ AppointmentService.validateStatusTransition PENDING COMPLETED
     = Throw (ValidationError "Transición de estado inválida: pending -> completed").
Proof. vm_compute. repeat split. Qed.

(* ===================================================================== *)
(** * Intake, in every environment *)
(* ===================================================================== *)

Ltac run_create :=
  unfold AppointmentHandler.createAppointment, AppointmentService.createAppointment,
    AppointmentService.validateRequest, AppointmentService.checkScheduleAvailability,
    AppointmentService.checkExistingConflicts, AppointmentService.createAppointmentRecord,
    AppointmentService.publishCreatedEvent, AppointmentService.buildSuccessResponse,
    AppointmentRepository.instance, NotificationService.instance,
    AppointmentRepository.hasConflictingAppointment, AppointmentRepository.create,
    NotificationService.publishAppointmentCreated,
    ScanCommand, PutCommand_if_absent, uuidv4, rejected,
    try_catch, bind, lift, throw, ret, log_effect in *;
  cbn [IAppointmentRepository.findById IAppointmentRepository.updateStatus
       IAppointmentRepository.create IAppointmentRepository.hasConflictingAppointment
       INotificationService.publishAppointmentCreated] in *.

Ltac reduce := cbn -[lookup uuid_of String.append firstn filter].

Ltac create_frame :=
  eexists; split; [reflexivity | split; [reflexivity | split; [reflexivity | ] ] ].

(** What [createAppointment] of the handler does, case by case: it returns
    a response; either it failed before the write, or it wrote the
    appointment of the validated request and then published its event or
    failed to. *)
Lemma create_appointment_cases (env : Env) (requestData : json) (w : World) :
  let (result, w') := AppointmentHandler.createAppointment env requestData w in
  exists response,
    result = Ok response
    /\ rds_pe w' = rds_pe w /\ rds_cl w' = rds_cl w
    /\ ((AppointmentResponse.success response = false
         /\ appointments w' = appointments w /\ effects w' = effects w)
        \/ exists request,
             ValidationService.validateAppointmentRequest requestData = Ok request
             /\ let a := Appointment.mk (uuid_of (uuids w))
                           (AppointmentRequest.insuredId request)
                           (AppointmentRequest.scheduleId request)
                           (AppointmentRequest.countryISO request)
                           PENDING (now env) (now env) in
                lookup (Appointment.id a) (appointments w) = None
                /\ appointments w' = (appointments w ++ [a])%list
                /\ ((response = AppointmentResponse.mk true
                                  "El agendamiento está en proceso"
                                  (Some (Appointment.id a, PENDING)) None
                     /\ effects w' = (effects w ++ [DynamoPut a; created_publication env a])%list)
                    \/ (AppointmentResponse.success response = false
                        /\ sns_fault env <> None
                        /\ effects w' = (effects w ++ [DynamoPut a])%list))).
Proof.
  run_create.
  destruct (ValidationService.validateAppointmentRequest requestData) as [request|invalid].
  2:{ create_frame; left; repeat split.
      unfold AppointmentService.handleError.
      destruct (instanceof_ValidationError invalid), (instanceof_ConflictError invalid),
        (instanceof_AppointmentError invalid); reflexivity. }
  destruct (dynamo_scan_fault env) as [scan|]; reduce;
    [| destruct (filter (AppointmentRepository.conflict_filter
                           (AppointmentRequest.scheduleId request))
                        (firstn 1 (appointments w))) as [|hit hits]; reduce ];
    try (create_frame; left; repeat split; fail);
    (destruct (dynamo_put_fault env) as [put|]; reduce;
     [ create_frame; left; repeat split
     | destruct (lookup (uuid_of (uuids w)) (appointments w)) eqn:Hlookup; reduce;
       [ create_frame; left; repeat split
       | destruct (sns_fault env) as [sns|] eqn:Hsns; reduce;
         create_frame; right; exists request;
         (split; [reflexivity|]); cbn zeta;
         (split; [first [exact Hlookup | reflexivity]|]);
         (split; [rewrite <- ?List.app_assoc; reflexivity|]);
         solve [ left; split; [reflexivity | rewrite <- ?List.app_assoc; reflexivity]
               | right; split; [reflexivity | split;
                 [congruence | rewrite <- ?List.app_assoc; reflexivity] ] ] ] ]).
Qed.

(** X1. A success response of [createAppointment] means that one
    appointment was added to the Primary Store, PENDING, under an id no
    appointment had, with the fields of the validated request, that the
    response carries that id and PENDING, and that the write and the
    publication of its CreatedEvent are the two effects of the call. *)
Theorem success_means_stored_and_published (env : Env) (requestData : json)
  (w w' : World) (response : AppointmentResponse.t) :
  AppointmentHandler.createAppointment env requestData w = (Ok response, w') ->
  AppointmentResponse.success response = true ->
  exists request,
    ValidationService.validateAppointmentRequest requestData = Ok request
    /\ lookup (Appointment.id (new_appointment env request w)) (appointments w) = None
    /\ appointments w' = (appointments w ++ [new_appointment env request w])%list
    /\ AppointmentResponse.data response
       = Some (Appointment.id (new_appointment env request w), PENDING)
    /\ effects w' = (effects w ++ [DynamoPut (new_appointment env request w);
                                   created_publication env (new_appointment env request w)])%list
    /\ rds_pe w' = rds_pe w /\ rds_cl w' = rds_cl w.
Proof.
  intros Hrun Hsuccess.
  pose proof (create_appointment_cases env requestData w) as H.
  rewrite Hrun in H. destruct H as (response' & [= <-] & Hpe & Hcl & Hcases).
  destruct Hcases as [(Hfalse & _) | (request & Hvalid & Hfresh & Hstore & Hout)];
    [congruence|].
  exists request. unfold new_appointment.
  destruct Hout as [(-> & Heffects) | (Hfalse & _)]; [|congruence].
  repeat split; assumption || reflexivity.
Qed.

Lemma success_means_stored_and_published_witness :
  let w' := snd (AppointmentHandler.createAppointment (no_faults clock) request_100
                   emptyWorld) in
  exists request,
    ValidationService.validateAppointmentRequest request_100 = Ok request
    /\ appointments w' = [new_appointment (no_faults clock) request emptyWorld]
    /\ effects w' = [DynamoPut (new_appointment (no_faults clock) request emptyWorld);
                     created_publication (no_faults clock)
                       (new_appointment (no_faults clock) request emptyWorld)].
Proof.
  intros w'.
  destruct (success_means_stored_and_published (no_faults clock) request_100 emptyWorld w'
              (AppointmentResponse.mk true "El agendamiento está en proceso"
                 (Some ("uuid-0", PENDING)) None))
    as (request & Hvalid & _ & Hstore & _ & Heffects & _);
    [vm_compute; reflexivity | reflexivity |].
  exists request. split; [exact Hvalid|]. split; [exact Hstore | exact Heffects].
Defined.

(** X2. A failure response of [createAppointment] leaves the Primary Store and
    the effects as they were, with one exception: when the publication of
    the CreatedEvent is rejected after the write, the appointment stays in
    the store, PENDING, and no event was published for it. *)
Theorem failure_means_nothing_stored_unless_publish_failed (env : Env)
  (requestData : json) (w w' : World) (response : AppointmentResponse.t) :
  AppointmentHandler.createAppointment env requestData w = (Ok response, w') ->
  AppointmentResponse.success response = false ->
  (appointments w' = appointments w /\ effects w' = effects w)
  \/ (sns_fault env <> None
      /\ exists request,
           ValidationService.validateAppointmentRequest requestData = Ok request
           /\ appointments w' = (appointments w ++ [new_appointment env request w])%list
           /\ effects w' = (effects w ++ [DynamoPut (new_appointment env request w)])%list).
Proof.
  intros Hrun Hfailure.
  pose proof (create_appointment_cases env requestData w) as H.
  rewrite Hrun in H. destruct H as (response' & [= <-] & Hpe & Hcl & Hcases).
  destruct Hcases as [(_ & Hstore & Heffects) | (request & Hvalid & Hfresh & Hstore & Hout)].
  - left. split; assumption.
  - destruct Hout as [(-> & _) | (_ & Hsns & Heffects)]; [discriminate Hfailure|].
    right. split; [exact Hsns|]. exists request. repeat split; assumption.
Qed.

Lemma failure_means_nothing_stored_unless_publish_failed_witness :
  let w' := snd (AppointmentHandler.createAppointment publish_rejected request_100
                   emptyWorld) in
  (appointments w' = [] /\ effects w' = [])
  \/ (sns_fault publish_rejected <> None
      /\ exists request,
           ValidationService.validateAppointmentRequest request_100 = Ok request
           /\ appointments w' = [new_appointment publish_rejected request emptyWorld]
           /\ effects w' = [DynamoPut (new_appointment publish_rejected request emptyWorld)]).
Proof.
  intros w'.
  apply (failure_means_nothing_stored_unless_publish_failed publish_rejected request_100
           emptyWorld w'
           (AppointmentResponse.mk false "Error en el procesamiento" None
              (Some "Error al publicar evento de cita creada: Topic unreachable")));
    [vm_compute; reflexivity | reflexivity].
Defined.

(** X3. A request that validates is created when no appointment of the store
    conflicts with its schedule, the id drawn is new, and the store and the
    topic answer: the response is the success response with the new id and
    PENDING, and the world gains the appointment, its write and the
    publication of its CreatedEvent. *)
Theorem valid_request_without_conflict_is_created (env : Env) (requestData : json)
  (request : AppointmentRequest.t) (w : World) :
  ValidationService.validateAppointmentRequest requestData = Ok request ->
  (forall a, In a (appointments w) ->
             AppointmentRepository.conflict_filter (AppointmentRequest.scheduleId request) a
             = false) ->
  lookup (uuid_of (uuids w)) (appointments w) = None ->
  dynamo_put_fault env = None ->
  sns_fault env = None ->
  AppointmentHandler.createAppointment env requestData w
  = (Ok (AppointmentResponse.mk true "El agendamiento está en proceso"
           (Some (uuid_of (uuids w), PENDING)) None),
     mkWorld (appointments w ++ [new_appointment env request w]) (rds_pe w) (rds_cl w)
             (effects w ++ [DynamoPut (new_appointment env request w);
                            created_publication env (new_appointment env request w)])
             (S (uuids w))).
Proof.
  intros Hvalid Hfree Hfresh Hput Hsns.
  assert (Hscan : filter (AppointmentRepository.conflict_filter
                            (AppointmentRequest.scheduleId request))
                         (firstn 1 (appointments w)) = []).
  { destruct (appointments w) as [|first others]; [reflexivity|].
    cbn. rewrite (Hfree first (or_introl eq_refl)). reflexivity. }
  run_create. rewrite Hvalid. reduce.
  destruct (dynamo_scan_fault env); reduce;
    rewrite ?Hscan; reduce; rewrite Hput; reduce; rewrite Hfresh; reduce;
    rewrite Hsns; reduce; rewrite <- ?List.app_assoc; reflexivity.
Qed.

Lemma valid_request_without_conflict_is_created_witness :
  map Appointment.status
      (appointments
         (snd (AppointmentHandler.createAppointment (no_faults clock) request_100 emptyWorld)))
  = [PENDING].
Proof.
  rewrite (valid_request_without_conflict_is_created (no_faults clock) request_100
             (AppointmentRequest.mk "00123" 100 PE) emptyWorld
             eq_refl (fun a (H : In a []) => match H with end) eq_refl eq_refl eq_refl).
  reflexivity.
Defined.

(* ===================================================================== *)
(** * Footprints of the Lambdas *)
(* ===================================================================== *)

Lemma rows_for_app (c : CountryISO) (es1 es2 : list Effect) :
  rows_for c (es1 ++ es2) = (rows_for c es1 ++ rows_for c es2)%list.
Proof. apply flat_map_app. Qed.

Lemma inserted_rows_app (es1 es2 : list Effect) :
  inserted_rows (es1 ++ es2) = (inserted_rows es1 ++ inserted_rows es2)%list.
Proof. apply flat_map_app. Qed.

Lemma confirmations_app (es1 es2 : list Effect) :
  confirmations (es1 ++ es2) = (confirmations es1 ++ confirmations es2)%list.
Proof. apply filter_app. Qed.

Lemma accounted_refl (w : World) : accounted w w [].
Proof.
  unfold accounted, backed. cbn. rewrite List.app_nil_r.
  repeat split; auto. intros c. now rewrite List.app_nil_r.
Qed.

Lemma accounted_trans (w w' w'' : World) (es1 es2 : list Effect) :
  accounted w w' es1 -> accounted w' w'' es2 -> accounted w w'' (es1 ++ es2).
Proof.
  unfold accounted, backed.
  intros (He1 & Hr1 & Hp1 & Hb1) (He2 & Hr2 & Hp2 & Hb2).
  rewrite inserted_rows_app, confirmations_app, map_app, !length_app.
  repeat split.
  - rewrite He2, He1. now rewrite List.app_assoc.
  - intros c. rewrite Hr2, Hr1, rows_for_app. now rewrite List.app_assoc.
  - apply Forall_app. split; assumption.
  - lia.
Qed.

Lemma country_run_refl (c : CountryISO) (w : World) : country_run c w w [].
Proof.
  unfold country_run.
  split; [reflexivity | split; [apply accounted_refl | split; [reflexivity | constructor]]].
Qed.

Lemma country_run_trans (c : CountryISO) (w w' w'' : World) (es1 es2 : list Effect) :
  country_run c w w' es1 -> country_run c w' w'' es2 -> country_run c w w'' (es1 ++ es2).
Proof.
  unfold country_run.
  intros (Ha1 & Hacc1 & Ho1 & Hd1) (Ha2 & Hacc2 & Ho2 & Hd2).
  split; [congruence|].
  split; [eapply accounted_trans; eassumption|].
  split; [rewrite rows_for_app, Ho1, Ho2; reflexivity|].
  apply Forall_app. split; assumption.
Qed.

(** Closes a goal [country_run c w w' ?es] between two worlds given by their
    fields. *)
Ltac close_run :=
  unfold country_run, accounted, backed;
  cbn [appointments effects];
  split; [reflexivity|];
  split;
  [ split;
    [ rewrite <- ?List.app_assoc; cbn [List.app];
      first [ reflexivity | symmetry; apply List.app_nil_r ]
    | split;
      [ intros [|]; cbn; rewrite ?List.app_nil_r; reflexivity
      | split; [ cbn; repeat constructor | cbn; lia ] ] ]
  | split; [ reflexivity | cbn; repeat constructor ] ].

(** [notifyError] returns, whatever fails inside it, and what it does is
    publish error notices. *)
Lemma notify_error_run (env : Env) (c : CountryISO) (error : JsError) (context : json)
  (w : World) :
  exists es w',
    NotificationService.notifyError env error context w = (Ok tt, w')
    /\ country_run c w w' es
    /\ confirmations es = [] /\ inserted_rows es = [].
Proof.
  unfold NotificationService.notifyError, rejected, try_catch, bind, throw, ret, log_effect.
  destruct w as [l p q es0 n].
  destruct (ERROR_TOPIC_ARN env), (sns_fault env), (eventbridge_fault env), c;
    cbn [appointments rds_pe rds_cl effects uuids];
    do 2 eexists; (split; [reflexivity|]);
    (split; [close_run | split; reflexivity]).
Qed.

Lemma process_appointment_run (env : Env) (c : CountryISO)
  (event : AppointmentCreatedEvent.t) (w : World) :
  exists es w' r,
    BaseAppointmentProcessor.processAppointment env c event w = (r, w')
    /\ country_run c w w' es
    /\ List.length (confirmations es) = confirmed_by r.
Proof.
  unfold BaseAppointmentProcessor.processAppointment,
    BaseAppointmentProcessor.executeCountrySpecificLogic,
    BaseAppointmentProcessor.createRDSRecord,
    BaseAppointmentProcessor.publishConfirmation,
    AppointmentRDSRepository.create, AppointmentRDSRepository.getConnection,
    AppointmentRDSRepository.insert_row,
    NotificationService.publishAppointmentConfirmed, NotificationService.notifyError,
    uuidv4, rejected, try_catch, bind, lift, throw, ret, log_effect.
  destruct w as [l p q es0 n].
  destruct (BaseAppointmentProcessor.validateEvent c event) as [[]|invalid];
    destruct (rds_connect_fault env) as [connect|];
    destruct (rds_execute_fault env) as [execute|];
    try destruct (String.eqb (mysql_code execute) "ER_DUP_ENTRY");
    destruct (eventbridge_fault env) as [bus|];
    destruct (ERROR_TOPIC_ARN env);
    destruct (sns_fault env) as [sns|];
    destruct c;
    cbn [appointments rds_pe rds_cl effects uuids];
    do 3 eexists; (split; [reflexivity|]);
    (split; [close_run | reflexivity]).
Qed.

Lemma process_record_run (env : Env) (c : CountryISO) (record : SQSRecord) (w : World) :
  exists es w' r,
    CountryHandler.processRecord env c record w = (r, w')
    /\ country_run c w w' es
    /\ List.length (confirmations es) = confirmed_by r.
Proof.
  unfold CountryHandler.processRecord, bind, lift, throw.
  destruct (CountryHandler.parseAppointmentEvent (body record)) as [parsed|e];
    [|exists [], w, (Throw e);
     split; [reflexivity | split; [apply country_run_refl | reflexivity]]].
  destruct (CountryHandler.validateCountryEvent c parsed) as [[]|e];
    [|exists [], w, (Throw e);
     split; [reflexivity | split; [apply country_run_refl | reflexivity]]].
  destruct (CountryHandler.typed c parsed) as [event|];
    [apply process_appointment_run|].
  do 3 eexists. split; [reflexivity|]. split; [apply country_run_refl | reflexivity].
Qed.

(** The loop of a country Lambda returns the failures of its records: every
    record either published its ConfirmedEvent or is among the failures. *)
Lemma process_records_run (env : Env) (c : CountryISO) (records : list SQSRecord) :
  forall (errors : list string) (w : World),
  exists es w' failures,
    CountryHandler.processRecords env c records errors w = (Ok (errors ++ failures)%list, w')
    /\ country_run c w w' es
    /\ (List.length (confirmations es) + List.length failures)%nat = List.length records.
Proof.
  induction records as [|record rest IH]; intros errors w.
  - exists [], w, []. cbn. rewrite List.app_nil_r.
    split; [reflexivity | split; [apply country_run_refl | reflexivity]].
  - cbn [CountryHandler.processRecords]. unfold bind, try_catch, ret.
    destruct (process_record_run env c record w) as (es1 & w1 & r & Hrun & Hc1 & Hn1).
    rewrite Hrun. destruct r as [[]|e].
    + destruct (IH errors w1) as (es2 & w2 & failures & Hrest & Hc2 & Hn2).
      rewrite Hrest. exists (es1 ++ es2)%list, w2, failures.
      split; [reflexivity|]. split; [eapply country_run_trans; eassumption|].
      rewrite confirmations_app, length_app. cbn in Hn1 |- *. lia.
    + destruct (notify_error_run env c e (CountryHandler.record_context c record) w1)
        as (es2 & w2 & Hnotify & Hc2 & Hquiet & _).
      rewrite Hnotify.
      match goal with
      | |- context [CountryHandler.processRecords env c rest ?errors' w2] =>
          destruct (IH errors' w2) as (es3 & w3 & failures & Hrest & Hc3 & Hn3)
      end.
      rewrite Hrest. rewrite <- List.app_assoc.
      eexists ((es1 ++ es2) ++ es3)%list, w3, (_ :: failures).
      split; [reflexivity|].
      split; [eapply country_run_trans; [eapply country_run_trans|]; eassumption|].
      rewrite !confirmations_app, !length_app, Hquiet. cbn in Hn1 |- *. lia.
Qed.

Lemma country_handler_run (env : Env) (c : CountryISO) (records : list SQSRecord)
  (w : World) :
  exists es w' failures,
    CountryHandler.processRecords env c records [] w = (Ok failures, w')
    /\ CountryHandler.handler env c records w
       = (match failures with
          | [] => Ok tt
          | _ => Throw (AppointmentError
                          ("Failed to process " ++ nat_to_string (List.length failures)
                           ++ " messages: " ++ String.concat "; " failures)
                          "BATCH_PROCESSING_ERROR" None)
          end, w')
    /\ country_run c w w' es
    /\ (List.length (confirmations es) + List.length failures)%nat = List.length records.
Proof.
  destruct (process_records_run env c records [] w) as (es & w' & failures & Hrun & Hc & Hn).
  cbn [List.app] in Hrun.
  exists es, w', failures. split; [exact Hrun|]. split; [|split; assumption].
  unfold CountryHandler.handler, bind. rewrite Hrun.
  destruct failures; reflexivity.
Qed.

Lemma effects_since_app (w w' : World) (es : list Effect) :
  effects w' = (effects w ++ es)%list -> Infrastructure.effects_since w w' = es.
Proof.
  intros H. unfold Infrastructure.effects_since. rewrite H.
  rewrite skipn_app, skipn_all, Nat.sub_diag. reflexivity.
Qed.

Lemma rows_for_inserted (c : CountryISO) (es : list Effect) (row : AppointmentRDSEntity.t) :
  In row (rows_for c es) -> In row (map snd (inserted_rows es)).
Proof.
  induction es as [|e es IH]; [intros []|].
  unfold rows_for, inserted_rows in *. cbn [flat_map]. rewrite map_app.
  intros Hin. apply in_app_or in Hin. apply in_or_app.
  destruct Hin as [Hin|Hin]; [left | right; exact (IH Hin)].
  destruct e; try contradiction.
  destruct (CountryISO_eqb country c); [|contradiction].
  destruct Hin as [<-|[]]. left. reflexivity.
Qed.

Lemma accounted_rows (c : CountryISO) (w w' : World) (es : list Effect) :
  accounted w w' es ->
  rds c w' = (rds c w ++ rows_for c es)%list /\ Forall processing_row (rows_for c es).
Proof.
  intros (_ & Hrds & Hrows & _). split; [apply Hrds|].
  rewrite Forall_forall in *. intros row Hin. apply Hrows.
  eapply rows_for_inserted; eassumption.
Qed.

(** ** The Primary Store *)

Lemma preserved_refl (a : Appointment.t) : preserved a a.
Proof. unfold preserved. repeat split. Qed.

Lemma preserved_trans (a a' a'' : Appointment.t) :
  preserved a a' -> preserved a' a'' -> preserved a a''.
Proof.
  unfold preserved. intros (Hi & Hn & Hs & Hc & Ht) (Hi' & Hn' & Hs' & Hc' & Ht').
  repeat split; congruence.
Qed.

Lemma set_status_preserved (id : string) (s : AppointmentStatus) (updatedAt : string)
  (a : Appointment.t) :
  preserved a (set_status id s updatedAt a).
Proof.
  unfold preserved, set_status.
  destruct (String.eqb (Appointment.id a) id); repeat split.
Qed.

Lemma keeps_same (w w' : World) : appointments w' = appointments w -> keeps w w'.
Proof.
  unfold keeps, unique_ids. intros -> Hunique. split; [exact Hunique|].
  intros a Hin. exists a. split; [exact Hin | apply preserved_refl].
Qed.

Lemma keeps_trans (w w' w'' : World) : keeps w w' -> keeps w' w'' -> keeps w w''.
Proof.
  unfold keeps. intros H1 H2 Hunique.
  destruct (H1 Hunique) as (Hunique' & Hkeep1).
  destruct (H2 Hunique') as (Hunique'' & Hkeep2).
  split; [exact Hunique''|].
  intros a Hin. destruct (Hkeep1 a Hin) as (a' & Hin' & Hp1).
  destruct (Hkeep2 a' Hin') as (a'' & Hin'' & Hp2).
  exists a''. split; [exact Hin'' | eapply preserved_trans; eassumption].
Qed.

Lemma lookup_in (id : string) (l : list Appointment.t) (a : Appointment.t) :
  lookup id l = Some a -> In a l /\ Appointment.id a = id.
Proof.
  unfold lookup. destruct (String.eqb id ""); [intros H; discriminate H|].
  intros H. apply find_some in H. destruct H as (Hin & Heq).
  split; [exact Hin | now apply String.eqb_eq].
Qed.

Lemma lookup_absent (id : string) (l : list Appointment.t) :
  id <> EmptyString -> lookup id l = None -> ~ In id (map Appointment.id l).
Proof.
  unfold lookup. intros Hkey. apply String.eqb_neq in Hkey. rewrite Hkey.
  intros H Hin. apply in_map_iff in Hin. destruct Hin as (a & Hid & Hin).
  pose proof (find_none _ _ H a Hin) as Hne. cbn in Hne.
  rewrite Hid, String.eqb_refl in Hne. discriminate Hne.
Qed.

Lemma uuid_of_not_empty (n : nat) : uuid_of n <> EmptyString.
Proof. unfold uuid_of. cbn. discriminate. Qed.

Lemma set_status_ids (id : string) (s : AppointmentStatus) (updatedAt : string)
  (l : list Appointment.t) :
  map Appointment.id (map (set_status id s updatedAt) l) = map Appointment.id l.
Proof.
  rewrite map_map. apply map_ext. intros a. unfold set_status.
  destruct (String.eqb (Appointment.id a) id); reflexivity.
Qed.

(** What a status update that returns has done. *)
Lemma update_cases (env : Env) (appointmentId : string) (newStatus : AppointmentStatus)
  (w w' : World) :
  AppointmentService.updateAppointmentStatus (AppointmentRepository.instance env)
    appointmentId newStatus w = (Ok tt, w') ->
  exists existing,
    lookup appointmentId (appointments w) = Some existing
    /\ In (Appointment.status existing, newStatus) transition_table
    /\ w' = mkWorld (map (set_status appointmentId newStatus (now env)) (appointments w))
                    (rds_pe w) (rds_cl w)
                    (effects w ++ [DynamoUpdate appointmentId newStatus (now env)])
                    (uuids w).
Proof.
  run_monad.
  destruct (dynamo_get_fault env); cbn; [intros H; discriminate H|].
  destruct (String.eqb appointmentId ""); cbn; [intros H; discriminate H|].
  destruct (lookup appointmentId (appointments w)) as [a|] eqn:Hl; cbn;
    [|intros H; discriminate H].
  destruct (AppointmentService.validateStatusTransition (Appointment.status a) newStatus)
    as [[]|invalid] eqn:Hvalid; cbn; [|intros H; discriminate H].
  destruct (dynamo_update_fault env); cbn; [intros H; discriminate H|].
  rewrite Hl. cbn. intros [= <-]. exists a. split; [reflexivity|]. split; [|reflexivity].
  unfold transition_table.
  destruct (Appointment.status a), newStatus; cbn in Hvalid; try discriminate Hvalid;
    cbn; tauto.
Qed.

Lemma update_keeps (env : Env) (appointmentId : string) (newStatus : AppointmentStatus)
  (w : World) :
  keeps w (snd (AppointmentService.updateAppointmentStatus
                  (AppointmentRepository.instance env) appointmentId newStatus w)).
Proof.
  destruct (AppointmentService.updateAppointmentStatus _ _ _ w) as [[[]|e] w'] eqn:Hrun;
    cbn [snd].
  2: { apply failed_update_changes_nothing in Hrun. subst. now apply keeps_same. }
  apply update_cases in Hrun. destruct Hrun as (existing & Hl & Htable & ->).
  unfold keeps, unique_ids. cbn [appointments]. intros Hunique.
  rewrite set_status_ids. split; [exact Hunique|].
  intros a Hin. exists (set_status appointmentId newStatus (now env) a).
  split; [apply in_map; exact Hin | apply set_status_preserved].
Qed.

Lemma update_accounted (env : Env) (appointmentId : string) (newStatus : AppointmentStatus)
  (w : World) :
  exists es,
    accounted w (snd (AppointmentService.updateAppointmentStatus
                        (AppointmentRepository.instance env) appointmentId newStatus w)) es.
Proof.
  destruct (AppointmentService.updateAppointmentStatus _ _ _ w) as [[[]|e] w'] eqn:Hrun;
    cbn [snd].
  2: { apply failed_update_changes_nothing in Hrun. subst. eexists. apply accounted_refl. }
  apply update_cases in Hrun. destruct Hrun as (existing & _ & _ & ->).
  eexists [_]. unfold accounted, backed. cbn [effects]. split; [reflexivity|].
  split; [intros [|]; cbn; now rewrite List.app_nil_r|]. split; [constructor | cbn; lia].
Qed.

(** ** Every invocation *)

Lemma footprint_refl (w : World) : footprint w w.
Proof. split; [now apply keeps_same | eexists; apply accounted_refl]. Qed.

Lemma footprint_trans (w w' w'' : World) :
  footprint w w' -> footprint w' w'' -> footprint w w''.
Proof.
  intros (Hk1 & es1 & Ha1) (Hk2 & es2 & Ha2).
  split; [eapply keeps_trans; eassumption|].
  eexists. eapply accounted_trans; eassumption.
Qed.

Lemma update_footprint (env : Env) (appointmentId : string) (newStatus : AppointmentStatus)
  (w : World) :
  footprint w (snd (AppointmentHandler.updateAppointmentStatus env appointmentId newStatus w)).
Proof.
  unfold AppointmentHandler.updateAppointmentStatus.
  split; [apply update_keeps | apply update_accounted].
Qed.

Lemma NoDup_snoc {A} (l : list A) (x : A) : NoDup l -> ~ In x l -> NoDup (l ++ [x]).
Proof.
  induction l as [|y l IH]; cbn; intros Hnodup Hfresh.
  - constructor; [intros [] | constructor].
  - inversion Hnodup as [|? ? Hy Hl]; subst. constructor.
    + intros Hin. apply in_app_or in Hin. destruct Hin as [Hin|[->|[]]];
        [contradiction | apply Hfresh; left; reflexivity].
    + apply IH; [exact Hl | intros Hin; apply Hfresh; right; exact Hin].
Qed.

Lemma create_footprint (env : Env) (requestData : json) (w : World) :
  footprint w (snd (AppointmentHandler.createAppointment env requestData w)).
Proof.
  pose proof (create_appointment_cases env requestData w) as H.
  destruct (AppointmentHandler.createAppointment env requestData w) as [result w'].
  cbn [snd]. destruct H as (response & _ & Hpe & Hcl & Hcases).
  assert (Hrds : forall es, rows_for PE es = [] -> rows_for CL es = [] ->
                            forall c, rds c w' = (rds c w ++ rows_for c es)%list).
  { intros es Hp Hc [|]; cbn [rds]; rewrite ?Hp, ?Hc, List.app_nil_r; assumption. }
  destruct Hcases as [(_ & Hstore & Heffects) | (request & _ & Hfresh & Hstore & Hout)].
  - split; [now apply keeps_same|]. exists [].
    unfold accounted, backed. rewrite List.app_nil_r.
    split; [exact Heffects|]. split; [now apply Hrds|]. split; [constructor | cbn; lia].
  - split.
    + unfold keeps, unique_ids. rewrite Hstore. intros Hunique. split.
      * rewrite map_app. cbn [map Appointment.id].
        apply NoDup_snoc;
          [exact Hunique | apply lookup_absent; [apply uuid_of_not_empty | exact Hfresh]].
      * intros a Hin. exists a. split; [apply in_or_app; now left | apply preserved_refl].
    + destruct Hout as [(_ & Heffects) | (_ & _ & Heffects)];
        eexists; unfold accounted, backed; (split; [exact Heffects|]);
        (split; [now apply Hrds|]); (split; [constructor | cbn; lia]).
Qed.

Lemma catch_ret_world {A} (c : M A) (f : JsError -> A) (w : World) :
  snd (try_catch c (fun error => ret (f error)) w) = snd (c w).
Proof. unfold try_catch, ret. destruct (c w) as [[a|e] w']; reflexivity. Qed.

Lemma then_ret_world {A B} (c : M A) (f : A -> B) (w : World) :
  snd ((x <- c ;; ret (f x)) w) = snd (c w).
Proof. unfold bind, ret. destruct (c w) as [[a|e] w']; reflexivity. Qed.

(** The list query reads. *)
Lemma list_service_leaves_world (dynamo_query_fault : option string) (insuredId : string)
  (w : World) :
  snd (AppointmentHandler.getAppointmentsByInsuredId dynamo_query_fault insuredId w) = w.
Proof.
  unfold AppointmentHandler.getAppointmentsByInsuredId,
    AppointmentService.getAppointmentsByInsuredId,
    AppointmentService.validateInsuredIdFormat,
    AppointmentService.enrichAppointmentsWithSchedule,
    AppointmentRepository.findByInsuredId, AppointmentRepository.QueryCommand_InsuredIdIndex,
    rejected, try_catch, bind, throw, ret.
  destruct (ValidationService.validateInsuredId insuredId); cbn [negb]; [|reflexivity].
  destruct dynamo_query_fault; reflexivity.
Qed.

Lemma list_query_leaves_world (dynamo_query_fault : option string)
  (insuredId : option string) (w : World) :
  snd (AppointmentHandler.handleGetAppointments dynamo_query_fault insuredId w) = w.
Proof.
  unfold AppointmentHandler.handleGetAppointments.
  destruct insuredId as [[|c s]|]; try reflexivity.
  rewrite catch_ret_world, then_ret_world. apply list_service_leaves_world.
Qed.

Lemma create_endpoint_world (env : Env) (event_body : option string) (w : World) :
  snd (AppointmentHandler.handleCreateAppointment env event_body w) = w
  \/ exists requestData,
       snd (AppointmentHandler.handleCreateAppointment env event_body w)
       = snd (AppointmentHandler.createAppointment env requestData w).
Proof.
  unfold AppointmentHandler.handleCreateAppointment.
  destruct event_body as [[|c s]|]; try (left; reflexivity).
  destruct (parse (String c s)) as [requestData|]; [|left; reflexivity].
  right. exists requestData.
  exact (then_ret_world _
           (fun result => AppointmentHandler.createResponse
                            (if AppointmentResponse.success result then 201 else 400)
                            (AppointmentHandler.response_json result)) w).
Qed.

Lemma http_request_world (env : Env) (dynamo_query_fault : option string)
  (event : APIGatewayProxyEvent) (w : World) :
  snd (AppointmentHandler.handleHttpRequest env dynamo_query_fault event w) = w
  \/ exists requestData,
       snd (AppointmentHandler.handleHttpRequest env dynamo_query_fault event w)
       = snd (AppointmentHandler.createAppointment env requestData w).
Proof.
  unfold AppointmentHandler.handleHttpRequest. rewrite catch_ret_world.
  destruct (String.eqb (httpMethod event) "OPTIONS"); [left; reflexivity|].
  destruct (String.eqb (httpMethod event) "POST" && String.eqb (path event) "/appointment")%bool;
    [apply create_endpoint_world|].
  destruct (String.eqb (httpMethod event) "GET" && prefix "/appointment/" (path event))%bool;
    [left; apply list_query_leaves_world | left; reflexivity].
Qed.

(** One record of the confirmation queue is a status update to COMPLETED, or
    fails where it stands. *)
Lemma handle_record_cases (env : Env) (record : SQSRecord) (w : World) :
  (exists e, AppointmentHandler.handleSQSRecord env record w = (Throw e, w))
  \/ exists appointmentId,
       AppointmentHandler.handleSQSRecord env record w
       = AppointmentHandler.updateAppointmentStatus env appointmentId COMPLETED w.
Proof.
  unfold AppointmentHandler.handleSQSRecord. rewrite rethrow_is_identity.
  unfold bind, lift, throw.
  destruct (JSON_parse (body record)) as [messageBody|e]; [|left; eexists; reflexivity].
  destruct (get_property messageBody "detail") as [detail|e]; [|left; eexists; reflexivity].
  match goal with
  | |- context [get_property ?event "appointmentId"] =>
      destruct (get_property event "appointmentId") as [[[]|]|e]
  end; try (left; eexists; reflexivity).
  right. eexists. reflexivity.
Qed.

Lemma handle_record_footprint (env : Env) (record : SQSRecord) (w : World) :
  footprint w (snd (AppointmentHandler.handleSQSRecord env record w)).
Proof.
  destruct (handle_record_cases env record w) as [(e & ->) | (appointmentId & ->)];
    [apply footprint_refl | apply update_footprint].
Qed.

Lemma reconciler_footprint (env : Env) (records : list SQSRecord) :
  forall w, footprint w (snd (AppointmentHandler.handleSQSMessages env records w)).
Proof.
  induction records as [|record rest IH]; intros w; [apply footprint_refl|].
  cbn [AppointmentHandler.handleSQSMessages]. unfold bind.
  pose proof (handle_record_footprint env record w) as Hfirst.
  destruct (AppointmentHandler.handleSQSRecord env record w) as [[[]|e] w1];
    cbn [snd] in *; [|exact Hfirst].
  eapply footprint_trans; [exact Hfirst | apply IH].
Qed.

Lemma country_footprint (env : Env) (c : CountryISO) (records : list SQSRecord) (w : World) :
  footprint w (snd (CountryHandler.handler env c records w)).
Proof.
  destruct (country_handler_run env c records w)
    as (es & w' & failures & _ & -> & (Hstore & Hacc & _) & _).
  cbn [snd]. split; [now apply keeps_same | exists es; exact Hacc].
Qed.

Lemma invoke_footprint (i : Invocation) (w : World) : footprint w (invoke i w).
Proof.
  destruct i as [env query_fault event | env c records | env records | env id status];
    cbn [invoke].
  - destruct (http_request_world env query_fault event w) as [-> | (requestData & ->)];
      [apply footprint_refl | apply create_footprint].
  - apply country_footprint.
  - apply reconciler_footprint.
  - apply update_footprint.
Qed.

Lemma run_footprint (history : list Invocation) :
  forall w, footprint w (run history w).
Proof.
  unfold run. induction history as [|i history IH]; intros w; [apply footprint_refl|].
  cbn [fold_left]. eapply footprint_trans; [apply invoke_footprint | apply IH].
Qed.

(* ===================================================================== *)
(** * What no history of invocations can do *)
(* ===================================================================== *)

(** X4. Whatever is invoked, in whatever order and environment, the ids of
    the Primary Store stay unique: the conditioned write refuses an id that
    is taken. *)
Theorem ids_stay_unique (history : list Invocation) (w : World) :
  unique_ids w -> unique_ids (run history w).
Proof. intros Hunique. exact (proj1 (proj1 (run_footprint history w) Hunique)). Qed.

Lemma ids_stay_unique_witness : unique_ids (run sample_history one_pending).
Proof.
  apply ids_stay_unique. unfold unique_ids. cbn.
  constructor; [intros [] | constructor].
Defined.

(** ** Overlapping invocations *)

Lemma same_store_kept (w w' : World) :
  appointments w' = appointments w ->
  keeps w w' /\
  forall a, In a (appointments w) ->
            exists a', In a' (appointments w') /\ preserved a a'.
Proof.
  intros Hstore. split; [now apply keeps_same|].
  intros a Hin. exists a. rewrite Hstore. split; [exact Hin | apply preserved_refl].
Qed.

Lemma write_keeps (c : Write) (w : World) : keeps w (write c w) /\
  forall a, In a (appointments w) ->
            exists a', In a' (appointments (write c w)) /\ preserved a a'.
Proof.
  destruct c as [env insuredId scheduleId countryISO status | env id status]; cbn [write].
  - unfold AppointmentRepository.create, PutCommand_if_absent, uuidv4, rejected,
      try_catch, bind, throw, ret, log_effect.
    destruct (dynamo_put_fault env); [apply same_store_kept; reflexivity|].
    cbn [appointments Appointment.id].
    destruct (lookup (uuid_of (uuids w)) (appointments w)) eqn:Hfresh;
      [apply same_store_kept; reflexivity|].
    cbn [snd appointments].
    assert (Hkept : forall a, In a (appointments w) ->
              exists a', In a' (appointments w ++
                                  [Appointment.mk (uuid_of (uuids w)) insuredId scheduleId
                                     countryISO status (now env) (now env)])
                         /\ preserved a a').
    { intros a Hin. exists a. split; [apply in_or_app; now left | apply preserved_refl]. }
    split; [|exact Hkept].
    unfold keeps, unique_ids. cbn [appointments]. intros Hunique. split; [|exact Hkept].
    rewrite map_app. cbn [map Appointment.id].
    apply NoDup_snoc;
      [exact Hunique | apply lookup_absent; [apply uuid_of_not_empty | exact Hfresh]].
  - unfold AppointmentRepository.updateStatus, UpdateCommand_if_exists, rejected,
      key_checked, try_catch, throw, log_effect.
    destruct (dynamo_update_fault env);
      [destruct (String.eqb (error_name (Error s)) "ConditionalCheckFailedException");
       apply same_store_kept; reflexivity|].
    destruct (String.eqb id "");
      [destruct (String.eqb
                   (error_name (mkError ValidationException_ empty_key_message "" 0))
                   "ConditionalCheckFailedException"); apply same_store_kept; reflexivity|].
    destruct (lookup id (appointments w));
      [|destruct (String.eqb
                    (error_name (mkError ConditionalCheckFailedException_
                                   "The conditional request failed" "" 0))
                    "ConditionalCheckFailedException"); apply same_store_kept; reflexivity].
    cbn [snd appointments].
    assert (Hkept : forall a, In a (appointments w) ->
              exists a', In a' (map (set_status id status (now env)) (appointments w))
                         /\ preserved a a').
    { intros a Hin. exists (set_status id status (now env) a).
      split; [apply in_map; exact Hin | apply set_status_preserved]. }
    split; [|exact Hkept].
    unfold keeps, unique_ids. cbn [appointments]. intros Hunique.
    rewrite set_status_ids. split; [exact Hunique | exact Hkept].
Qed.

(** X5. Under any overlap of invocations the Primary Store goes through a
    sequence of the two writing calls of the repository, each one
    conditioned command.  No such sequence deletes an appointment or
    changes its id, insured, schedule, country or creation time, and none
    makes two appointments share an id. *)
Theorem appointments_keep_their_identity (calls : list Write) (w : World) :
  (forall a, In a (appointments w) ->
             exists a', In a' (appointments (writes calls w)) /\ preserved a a')
  /\ (unique_ids w -> unique_ids (writes calls w)).
Proof.
  unfold writes. revert w. induction calls as [|c calls IH]; intros w.
  - split; [|auto]. intros a Hin. exists a. split; [exact Hin | apply preserved_refl].
  - cbn [fold_left]. destruct (write_keeps c w) as (Hkeeps & Hstep).
    destruct (IH (write c w)) as (Hrest & Hunique). split.
    + intros a Hin. destruct (Hstep a Hin) as (a' & Hin' & Hp).
      destruct (Hrest a' Hin') as (a'' & Hin'' & Hp').
      exists a''. split; [exact Hin'' | eapply preserved_trans; eassumption].
    + intros H. apply Hunique. exact (proj1 (Hkeeps H)).
Qed.

Lemma update_is_check_then_write (repository : IAppointmentRepository.t)
  (appointmentId : string) (status : AppointmentStatus) (w : World) :
  AppointmentService.updateAppointmentStatus repository appointmentId status w
  = (AppointmentService.updateAppointmentStatus_check repository appointmentId status ;;;
     AppointmentService.updateAppointmentStatus_write repository appointmentId status) w.
Proof.
  unfold AppointmentService.updateAppointmentStatus. rewrite rethrow_is_identity.
  unfold AppointmentService.updateAppointmentStatus_check,
    AppointmentService.updateAppointmentStatus_write, bind, lift, throw.
  destruct (IAppointmentRepository.findById repository appointmentId w)
    as [[[existing|]|e] w1]; reflexivity.
Qed.

Lemma status_after_update (id : string) (s : AppointmentStatus) (updatedAt : string)
  (l : list Appointment.t) (existing : Appointment.t) :
  lookup id l = Some existing ->
  option_map Appointment.status (lookup id (map (set_status id s updatedAt) l)) = Some s.
Proof.
  unfold lookup. destruct (String.eqb id ""); [intros H; discriminate H|].
  induction l as [|a l IH]; cbn [map find]; [intros H; discriminate H|].
  destruct (String.eqb (Appointment.id a) id) eqn:Hid.
  - unfold set_status at 1 2. rewrite Hid. cbn [Appointment.id]. rewrite Hid.
    intros _. reflexivity.
  - unfold set_status at 1. rewrite Hid, Hid. exact IH.
Qed.

Lemma repository_write_runs (env : Env) (id : string) (status : AppointmentStatus)
  (existing : Appointment.t) (w : World) :
  dynamo_update_fault env = None ->
  lookup id (appointments w) = Some existing ->
  AppointmentRepository.updateStatus env id status w
  = (Ok tt, mkWorld (map (set_status id status (now env)) (appointments w))
              (rds_pe w) (rds_cl w) (effects w ++ [DynamoUpdate id status (now env)])
              (uuids w)).
Proof.
  intros Hupdate Hl. pose proof (lookup_some_key _ _ _ Hl) as Hkey.
  run_monad. rewrite Hupdate, Hkey, Hl. reflexivity.
Qed.

Lemma service_check_passes (env : Env) (id : string) (status : AppointmentStatus)
  (existing : Appointment.t) (w : World) :
  dynamo_get_fault env = None ->
  lookup id (appointments w) = Some existing ->
  AppointmentService.validateStatusTransition (Appointment.status existing) status = Ok tt ->
  AppointmentService.updateAppointmentStatus_check (AppointmentRepository.instance env)
    id status w = (Ok tt, w).
Proof.
  intros Hget Hl Hvalid. pose proof (lookup_some_key _ _ _ Hl) as Hkey.
  unfold AppointmentService.updateAppointmentStatus_check. run_monad.
  rewrite Hget, Hkey, Hl, Hvalid. reflexivity.
Qed.

(** X6. The check of the transition is not atomic with the write.  An update
    is its read and check, an await, and its write, which is conditioned on
    the id alone.  When an update to FAILED reads a PROCESSING appointment
    and an update to COMPLETED runs before it writes, both succeed: the
    appointment is COMPLETED and then FAILED, a transition that the table
    refuses. *)
Theorem overlapping_updates_escape_the_table (env : Env) (id : string)
  (existing : Appointment.t) (w : World) :
  dynamo_get_fault env = None ->
  dynamo_update_fault env = None ->
  lookup id (appointments w) = Some existing ->
  Appointment.status existing = PROCESSING ->
  let repository := AppointmentRepository.instance env in
  let w1 := snd (AppointmentService.updateAppointmentStatus repository id COMPLETED w) in
  let w2 := snd (AppointmentService.updateAppointmentStatus_write repository id FAILED w1) in
  (forall status w0,
      AppointmentService.updateAppointmentStatus repository id status w0
      = (AppointmentService.updateAppointmentStatus_check repository id status ;;;
         AppointmentService.updateAppointmentStatus_write repository id status) w0)
  /\ AppointmentService.updateAppointmentStatus_check repository id FAILED w = (Ok tt, w)
  /\ AppointmentService.updateAppointmentStatus repository id COMPLETED w = (Ok tt, w1)
  /\ status_of id w1 = Some COMPLETED
  /\ AppointmentService.updateAppointmentStatus_write repository id FAILED w1 = (Ok tt, w2)
  /\ status_of id w2 = Some FAILED
  /\ AppointmentService.validateStatusTransition COMPLETED FAILED <> Ok tt.
Proof.
  intros Hget Hupdate Hl Hprocessing. cbv zeta.
  assert (Hcheck : forall status,
             AppointmentService.validateStatusTransition (Appointment.status existing) status
             = Ok tt ->
             AppointmentService.updateAppointmentStatus_check
               (AppointmentRepository.instance env) id status w = (Ok tt, w)).
  { intros status. now apply service_check_passes. }
  assert (Hfirst : AppointmentService.updateAppointmentStatus
                     (AppointmentRepository.instance env) id COMPLETED w
                   = (Ok tt, mkWorld (map (set_status id COMPLETED (now env)) (appointments w))
                               (rds_pe w) (rds_cl w)
                               (effects w ++ [DynamoUpdate id COMPLETED (now env)])
                               (uuids w))).
  { rewrite update_is_check_then_write. unfold bind.
    rewrite (Hcheck COMPLETED) by (rewrite Hprocessing; reflexivity).
    exact (repository_write_runs env id COMPLETED existing w Hupdate Hl). }
  rewrite !Hfirst. cbn [snd].
  pose proof (status_after_update id COMPLETED (now env) _ _ Hl) as Hcompleted.
  destruct (lookup id (map (set_status id COMPLETED (now env)) (appointments w)))
    as [completed|] eqn:Hl1; [|discriminate Hcompleted].
  unfold AppointmentService.updateAppointmentStatus_write.
  cbn [IAppointmentRepository.updateStatus AppointmentRepository.instance].
  rewrite !(repository_write_runs env id FAILED completed
              (mkWorld (map (set_status id COMPLETED (now env)) (appointments w))
                 (rds_pe w) (rds_cl w) (effects w ++ [DynamoUpdate id COMPLETED (now env)])
                 (uuids w)) Hupdate Hl1).
  cbn [snd].
  split; [intros status w0; apply update_is_check_then_write|].
  split; [apply Hcheck; rewrite Hprocessing; reflexivity|].
  split; [reflexivity|].
  split; [unfold status_of; cbn [appointments]; rewrite Hl1; exact Hcompleted|].
  split; [reflexivity|].
  split; [|intros H; discriminate H].
  unfold status_of. cbn [appointments].
  exact (status_after_update id FAILED (now env) _ completed Hl1).
Qed.

Lemma overlapping_updates_escape_the_table_witness :
  let repository := AppointmentRepository.instance (no_faults clock) in
  let w1 := snd (AppointmentService.updateAppointmentStatus repository "a-100" COMPLETED
                   one_processing) in
  let w2 := snd (AppointmentService.updateAppointmentStatus_write repository "a-100" FAILED
                   w1) in
  status_of "a-100" one_processing = Some PROCESSING
  /\ status_of "a-100" w1 = Some COMPLETED
  /\ status_of "a-100" w2 = Some FAILED.
Proof.
  intros repository w1 w2.
  destruct (overlapping_updates_escape_the_table (no_faults clock) "a-100"
              (Appointment.mk "a-100" "00789" 100 PE PROCESSING clock clock) one_processing
              eq_refl eq_refl eq_refl eq_refl)
    as (_ & _ & _ & Hcompleted & _ & Hfailed & _).
  split; [reflexivity|]. split; [exact Hcompleted | exact Hfailed].
Defined.

(** X7. Whatever is invoked, a regional store only gains rows, and every row
    it gains has status PROCESSING: no invocation changes or removes a row,
    and none writes a row of another status. *)
Theorem regional_stores_only_grow (history : list Invocation) (w : World) (c : CountryISO) :
  exists rows,
    rds c (run history w) = (rds c w ++ rows)%list
    /\ Forall processing_row rows.
Proof.
  destruct (run_footprint history w) as (_ & es & Hacc).
  exists (rows_for c es). apply accounted_rows. exact Hacc.
Qed.

(** X8. Over any history the ConfirmedEvents published are no more than the
    regional records written. *)
Theorem confirmations_are_backed_by_records (history : list Invocation) (w : World) :
  (List.length (confirmations (Infrastructure.effects_since w (run history w)))
   <= List.length (inserted_rows (Infrastructure.effects_since w (run history w))))%nat.
Proof.
  destruct (run_footprint history w) as (_ & es & Heffects & _ & _ & Hbacked).
  rewrite (effects_since_app _ _ _ Heffects). exact Hbacked.
Qed.

(* ===================================================================== *)
(** * Batches of a country queue *)
(* ===================================================================== *)

(** X9. A country Lambda never touches the Primary Store or the regional
    store of the other country, whatever its batch holds and whatever fails:
    both are as before, and none of its effects is a write to the Primary
    Store. *)
Theorem country_batch_touches_only_its_store (env : Env) (c : CountryISO)
  (records : list SQSRecord) (w : World) :
  let w' := snd (CountryHandler.handler env c records w) in
  appointments w' = appointments w
  /\ rds (other_country c) w' = rds (other_country c) w
  /\ forall e, In e (Infrastructure.effects_since w w') ->
               match e with
               | DynamoPut _ | DynamoUpdate _ _ _ => False
               | _ => True
               end.
Proof.
  destruct (country_handler_run env c records w)
    as (es & w' & failures & _ & -> & (Hstore & Hacc & Hother & Hquiet) & _).
  cbn [snd]. split; [exact Hstore|]. split.
  - destruct Hacc as (_ & Hrds & _). rewrite Hrds, Hother. apply List.app_nil_r.
  - destruct Hacc as (Heffects & _). rewrite (effects_since_app _ _ _ Heffects).
    apply Forall_forall. exact Hquiet.
Qed.

(** X10. The loop of a country Lambda attempts every record of its batch and
    never throws: each record either had its ConfirmedEvent published or left
    its message among the failures.  Only then does the handler throw, if
    there is a failure, the error with code BATCH_PROCESSING_ERROR that
    counts and lists them; otherwise it returns. *)
Theorem country_batch_accounts_for_every_record (env : Env) (c : CountryISO)
  (records : list SQSRecord) (w : World) :
  exists failures w',
    CountryHandler.processRecords env c records [] w = (Ok failures, w')
    /\ (List.length (confirmations (Infrastructure.effects_since w w'))
        + List.length failures)%nat = List.length records
    /\ CountryHandler.handler env c records w
       = (match failures with
          | [] => Ok tt
          | _ => Throw (AppointmentError
                          ("Failed to process " ++ nat_to_string (List.length failures)
                           ++ " messages: " ++ String.concat "; " failures)
                          "BATCH_PROCESSING_ERROR" None)
          end, w').
Proof.
  destruct (country_handler_run env c records w)
    as (es & w' & failures & Hloop & Hhandler & (_ & (Heffects & _) & _) & Hcount).
  exists failures, w'. rewrite (effects_since_app _ _ _ Heffects).
  repeat split; assumption.
Qed.

(* ===================================================================== *)
(** * Status updates and the confirmation queue *)
(* ===================================================================== *)

(** X11. A status update returns exactly when the read and the write are
    answered, the appointment exists and the transition is in the table;
    what it leaves is the store with the status and [updatedAt] of that id
    set, and one more effect. *)
Theorem status_update_succeeds_exactly_when_allowed (env : Env) (appointmentId : string)
  (newStatus : AppointmentStatus) (w w' : World) :
  AppointmentHandler.updateAppointmentStatus env appointmentId newStatus w = (Ok tt, w')
  <-> (dynamo_get_fault env = None
       /\ dynamo_update_fault env = None
       /\ exists existing,
            lookup appointmentId (appointments w) = Some existing
            /\ In (Appointment.status existing, newStatus) transition_table
            /\ w' = mkWorld (map (set_status appointmentId newStatus (now env))
                                 (appointments w))
                            (rds_pe w) (rds_cl w)
                            (effects w ++ [DynamoUpdate appointmentId newStatus (now env)])
                            (uuids w)).
Proof.
  unfold AppointmentHandler.updateAppointmentStatus. split.
  - intros Hrun. pose proof (update_cases _ _ _ _ _ Hrun) as Hcases.
    split; [|split; [|exact Hcases]]; revert Hrun; run_monad.
    + destruct (dynamo_get_fault env); [intros H; discriminate H | reflexivity].
    + destruct (dynamo_get_fault env); [intros H; discriminate H|].
      destruct (String.eqb appointmentId ""); [intros H; discriminate H|].
      cbn. destruct (lookup appointmentId (appointments w)) as [a|] eqn:Hl; cbn;
        [|intros H; discriminate H].
      destruct (AppointmentService.validateStatusTransition (Appointment.status a) newStatus)
        as [[]|]; cbn; [|intros H; discriminate H].
      destruct (dynamo_update_fault env); [intros H; discriminate H | reflexivity].
  - intros (Hget & Hupdate & existing & Hl & Htable & ->).
    run_monad. rewrite Hget, Hupdate, (lookup_some_key _ _ _ Hl). cbn. rewrite Hl. cbn.
    assert (AppointmentService.validateStatusTransition (Appointment.status existing)
              newStatus = Ok tt) as ->.
    { unfold transition_table in Htable.
      destruct (Appointment.status existing), newStatus; try reflexivity; exfalso;
        cbn in Htable;
        repeat (destruct Htable as [Htable|Htable]; [discriminate Htable|]);
        contradiction. }
    cbn. rewrite Hl. reflexivity.
Qed.

Lemma confirmation_record_failure (env : Env) (record : SQSRecord) (w w' : World)
  (e : JsError) :
  AppointmentHandler.handleSQSRecord env record w = (Throw e, w') -> w' = w.
Proof.
  destruct (handle_record_cases env record w) as [(e' & ->) | (appointmentId & ->)].
  - intros [= _ <-]. reflexivity.
  - apply failed_update_changes_nothing.
Qed.

(** X12. One record of the confirmation queue does one of two things: it
    throws and leaves the world as it was, or it returns having set to
    COMPLETED an appointment that was PROCESSING. *)
Theorem confirmation_completes_processing_only (env : Env) (record : SQSRecord)
  (w : World) :
  let (result, w') := AppointmentHandler.handleSQSRecord env record w in
  match result with
  | Throw _ => w' = w
  | Ok _ =>
      exists appointmentId existing,
        lookup appointmentId (appointments w) = Some existing
        /\ Appointment.status existing = PROCESSING
        /\ appointments w'
           = map (set_status appointmentId COMPLETED (now env)) (appointments w)
        /\ effects w' = (effects w ++ [DynamoUpdate appointmentId COMPLETED (now env)])%list
  end.
Proof.
  destruct (handle_record_cases env record w) as [(e & ->) | (appointmentId & ->)];
    [reflexivity|].
  unfold AppointmentHandler.updateAppointmentStatus.
  destruct (AppointmentService.updateAppointmentStatus _ _ _ w) as [[[]|e] w'] eqn:Hrun.
  - apply update_cases in Hrun. destruct Hrun as (existing & Hl & Htable & ->).
    exists appointmentId, existing. split; [exact Hl|]. split; [|split; reflexivity].
    unfold transition_table in Htable.
    destruct (Appointment.status existing); try reflexivity; exfalso; cbn in Htable;
      repeat (destruct Htable as [Htable|Htable]; [discriminate Htable|]); contradiction.
  - eapply failed_update_changes_nothing; exact Hrun.
Qed.

Lemma handle_messages_app (env : Env) (before after : list SQSRecord) :
  forall w,
    AppointmentHandler.handleSQSMessages env (before ++ after) w
    = (AppointmentHandler.handleSQSMessages env before ;;;
       AppointmentHandler.handleSQSMessages env after) w.
Proof.
  induction before as [|record before IH]; intros w; [reflexivity|].
  cbn [List.app AppointmentHandler.handleSQSMessages]. unfold bind.
  destruct (AppointmentHandler.handleSQSRecord env record w) as [[[]|e] w1];
    [|reflexivity].
  rewrite IH. reflexivity.
Qed.

(** X13. The first record of a confirmation batch that fails ends the
    invocation with its error: the updates of the records before it stay
    done, and the records after it are not read. *)
Theorem confirmation_batch_stops_at_first_failure (env : Env)
  (before rest : list SQSRecord) (record : SQSRecord) (e : JsError) (w w1 w2 : World) :
  AppointmentHandler.handleSQSMessages env before w = (Ok tt, w1) ->
  AppointmentHandler.handleSQSRecord env record w1 = (Throw e, w2) ->
  AppointmentHandler.handleSQSMessages env (before ++ record :: rest) w = (Throw e, w1).
Proof.
  intros Hbefore Hrecord. rewrite handle_messages_app. unfold bind at 1.
  rewrite Hbefore. cbn [AppointmentHandler.handleSQSMessages]. unfold bind.
  rewrite Hrecord.
  pose proof (confirmation_record_failure env record w1 w2 e Hrecord) as ->.
  reflexivity.
Qed.

Lemma confirmation_batch_stops_at_first_failure_witness :
  AppointmentHandler.handleSQSMessages (no_faults clock)
    ([] ++ mkRecord "m-1" "not json"
        :: [mkRecord "m-2"
              (direct_body (AppointmentConfirmedEvent.mk "a-100" PE clock COMPLETED))])
    one_pending
  = (Throw (mkError SyntaxError_ "Unexpected token in JSON" "" 0), one_pending).
Proof.
  apply (confirmation_batch_stops_at_first_failure (no_faults clock) [] _ _ _
           one_pending one_pending one_pending); reflexivity.
Defined.

(* ===================================================================== *)
(** * The processor on one event *)
(* ===================================================================== *)

Lemma uuid_of_injective (n m : nat) : uuid_of n = uuid_of m -> n = m.
Proof.
  unfold uuid_of, nat_to_string, Z_to_string. intros H.
  assert (Hprint : stringify (JNum (Z.of_nat n)) = stringify (JNum (Z.of_nat m))).
  { unfold stringify. cbn [print]. cbn in H. congruence. }
  pose proof (parse_stringify (JNum (Z.of_nat n))) as Hn.
  rewrite Hprint, parse_stringify in Hn. injection Hn as Hn. lia.
Qed.

(** A run of the processor that returns has written one record and published
    one ConfirmedEvent, and nothing else. *)
Lemma process_appointment_success (env : Env) (c : CountryISO)
  (event : AppointmentCreatedEvent.t) (w w' : World) :
  BaseAppointmentProcessor.processAppointment env c event w = (Ok tt, w') ->
  BaseAppointmentProcessor.validateEvent c event = Ok tt
  /\ rds c w' = (rds c w ++ [regional_record env event w])%list
  /\ rds (other_country c) w' = rds (other_country c) w
  /\ appointments w' = appointments w
  /\ uuids w' = S (uuids w)
  /\ effects w'
     = (effects w ++ [RdsInsert c (regional_record env event w);
                      confirmed_publication env c
                        (AppointmentCreatedEvent.appointmentId event)])%list.
Proof.
  unfold BaseAppointmentProcessor.processAppointment,
    BaseAppointmentProcessor.executeCountrySpecificLogic,
    BaseAppointmentProcessor.createRDSRecord,
    BaseAppointmentProcessor.publishConfirmation,
    AppointmentRDSRepository.create, AppointmentRDSRepository.getConnection,
    AppointmentRDSRepository.insert_row,
    NotificationService.publishAppointmentConfirmed, NotificationService.notifyError,
    uuidv4, rejected, try_catch, bind, lift, throw, ret, log_effect.
  destruct w as [l p q es0 n].
  destruct (BaseAppointmentProcessor.validateEvent c event) as [[]|invalid];
    destruct (rds_connect_fault env) as [connect|];
    destruct (rds_execute_fault env) as [execute|];
    try destruct (String.eqb (mysql_code execute) "ER_DUP_ENTRY");
    destruct (eventbridge_fault env) as [bus|];
    destruct (ERROR_TOPIC_ARN env);
    destruct (sns_fault env) as [sns|];
    destruct c;
    cbn [appointments rds_pe rds_cl effects uuids];
    intros H; try discriminate H; injection H as <-;
    cbn [appointments rds rds_pe rds_cl effects uuids other_country];
    rewrite <- ?List.app_assoc; repeat split.
Qed.

(** X14. Processing is not idempotent: when the same CreatedEvent is
    processed twice and both runs return, the regional store holds two
    records for it, under different ids, and two ConfirmedEvents were
    published. *)
Theorem redelivered_event_is_recorded_twice (env env' : Env) (c : CountryISO)
  (event : AppointmentCreatedEvent.t) (w w1 w2 : World) :
  BaseAppointmentProcessor.processAppointment env c event w = (Ok tt, w1) ->
  BaseAppointmentProcessor.processAppointment env' c event w1 = (Ok tt, w2) ->
  exists row1 row2,
    rds c w2 = (rds c w ++ [row1; row2])%list
    /\ AppointmentRDSEntity.id row1 <> AppointmentRDSEntity.id row2
    /\ AppointmentRDSEntity.insured_id row1 = AppointmentRDSEntity.insured_id row2
    /\ AppointmentRDSEntity.schedule_id row1 = AppointmentRDSEntity.schedule_id row2
    /\ List.length (confirmations (Infrastructure.effects_since w w2)) = 2%nat.
Proof.
  intros Hfirst Hsecond.
  apply process_appointment_success in Hfirst, Hsecond.
  destruct Hfirst as (_ & Hrds1 & _ & _ & Huuids1 & Heffects1).
  destruct Hsecond as (_ & Hrds2 & _ & _ & _ & Heffects2).
  exists (regional_record env event w), (regional_record env' event w1).
  split; [rewrite Hrds2, Hrds1, <- List.app_assoc; reflexivity|].
  split.
  { unfold regional_record. cbn [AppointmentRDSEntity.id]. rewrite Huuids1.
    intros Heq. apply uuid_of_injective in Heq. lia. }
  split; [reflexivity|]. split; [reflexivity|].
  rewrite (effects_since_app w w2
             [RdsInsert c (regional_record env event w);
              confirmed_publication env c (AppointmentCreatedEvent.appointmentId event);
              RdsInsert c (regional_record env' event w1);
              confirmed_publication env' c (AppointmentCreatedEvent.appointmentId event)]).
  - reflexivity.
  - rewrite Heffects2, Heffects1, <- List.app_assoc. reflexivity.
Qed.

Lemma redelivered_event_is_recorded_twice_witness :
  let event := AppointmentCreatedEvent.mk "a-100" "00789" 100 PE clock in
  let w1 := snd (BaseAppointmentProcessor.processAppointment (no_faults clock) PE event
                   one_pending) in
  let w2 := snd (BaseAppointmentProcessor.processAppointment (no_faults clock) PE event w1) in
  exists row1 row2,
    rds PE w2 = (rds PE one_pending ++ [row1; row2])%list
    /\ AppointmentRDSEntity.id row1 <> AppointmentRDSEntity.id row2
    /\ AppointmentRDSEntity.insured_id row1 = AppointmentRDSEntity.insured_id row2
    /\ AppointmentRDSEntity.schedule_id row1 = AppointmentRDSEntity.schedule_id row2
    /\ List.length (confirmations (Infrastructure.effects_since one_pending w2)) = 2%nat.
Proof.
  intros event w1 w2.
  apply (redelivered_event_is_recorded_twice (no_faults clock) (no_faults clock) PE event
           one_pending w1 w2); vm_compute; reflexivity.
Defined.

(** X15. The processor accepts an event exactly when its ids are not empty,
    its schedule is positive and its country is the processor's.  An event
    it does not accept is thrown back as an error with code VALIDATION_ERROR
    and status 400; no record is written for it and no ConfirmedEvent is
    published. *)
Theorem processor_rejects_invalid_event_before_writing (env : Env) (c : CountryISO)
  (event : AppointmentCreatedEvent.t) (w : World) :
  (BaseAppointmentProcessor.validateEvent c event = Ok tt
   <-> AppointmentCreatedEvent.appointmentId event <> EmptyString
       /\ AppointmentCreatedEvent.insuredId event <> EmptyString
       /\ 0 < AppointmentCreatedEvent.scheduleId event
       /\ AppointmentCreatedEvent.countryISO event = c)
  /\ (BaseAppointmentProcessor.validateEvent c event <> Ok tt ->
      exists error w',
        BaseAppointmentProcessor.processAppointment env c event w = (Throw error, w')
        /\ BaseAppointmentProcessor.validateEvent c event = Throw error
        /\ code error = "VALIDATION_ERROR" /\ statusCode error = 400
        /\ appointments w' = appointments w
        /\ rds_pe w' = rds_pe w /\ rds_cl w' = rds_cl w
        /\ confirmations (Infrastructure.effects_since w w') = []).
Proof.
  split.
  - unfold BaseAppointmentProcessor.validateEvent.
    destruct (String.eqb_spec (AppointmentCreatedEvent.appointmentId event) "") as [Hid|Hid];
      [split; [intros H; discriminate H | intros (H & _); contradiction]|].
    destruct (String.eqb_spec (AppointmentCreatedEvent.insuredId event) "") as [Hin|Hin];
      [split; [intros H; discriminate H | intros (_ & H & _); contradiction]|].
    destruct (Z.eqb_spec (AppointmentCreatedEvent.scheduleId event) 0) as [Hz|Hz];
      [split; [intros H; discriminate H | intros (_ & _ & H & _); lia]|].
    destruct (Z.leb_spec (AppointmentCreatedEvent.scheduleId event) 0) as [Hle|Hgt];
      [split; [intros H; discriminate H | intros (_ & _ & H & _); lia]|].
    cbn [orb].
    destruct (AppointmentCreatedEvent.countryISO event), c; cbn;
      split; try (intros H; discriminate H); try (intros (_ & _ & _ & H); discriminate H);
      auto.
  - intros Hinvalid.
    assert (Hshape : exists error,
               BaseAppointmentProcessor.validateEvent c event = Throw error
               /\ code error = "VALIDATION_ERROR" /\ statusCode error = 400).
    { revert Hinvalid. unfold BaseAppointmentProcessor.validateEvent.
      repeat match goal with
             | |- context [if ?b then _ else _] =>
                 destruct b; [intros _; eexists; repeat split|]
             end.
      intros H. contradiction. }
    destruct Hshape as (error & Hthrow & Hcode & Hstatus).
    unfold BaseAppointmentProcessor.processAppointment, try_catch, bind, lift, throw.
    rewrite Hthrow.
    destruct (notify_error_run env c error (BaseAppointmentProcessor.error_context c event) w)
      as (es & w' & Hnotify & (Hstore & Hacc & _) & Hquiet & Hnone).
    rewrite Hnotify. exists error, w'. split; [reflexivity|].
    split; [reflexivity|]. split; [exact Hcode|]. split; [exact Hstatus|].
    split; [exact Hstore|].
    destruct Hacc as (Heffects & Hrds & _).
    assert (Hrows : forall c', rows_for c' es = []).
    { intros c'. destruct (rows_for c' es) as [|row rows] eqn:Hr; [reflexivity|].
      exfalso. pose proof (rows_for_inserted c' es row) as Hin.
      rewrite Hr, Hnone in Hin. apply Hin. left. reflexivity. }
    split; [pose proof (Hrds PE) as H; rewrite Hrows, List.app_nil_r in H; exact H|].
    split; [pose proof (Hrds CL) as H; rewrite Hrows, List.app_nil_r in H; exact H|].
    rewrite (effects_since_app _ _ _ Heffects). exact Hquiet.
Qed.

(* ===================================================================== *)
(** * Error notices *)
(* ===================================================================== *)

Lemma no_confirmation_no_record (es : list Effect) :
  confirmations es = [] -> forall n, Infrastructure.collect Infrastructure.confirmation_rule es n = [].
Proof.
  induction es as [|e es IH]; intros Hquiet n; [reflexivity|].
  unfold confirmations in *. cbn [filter Infrastructure.collect] in *.
  destruct e as [item|id s t|c row|topic message subject attrs|source detailType detail];
    cbn [is_confirmation Infrastructure.confirmation_rule] in *; try (apply IH; exact Hquiet).
  destruct (String.eqb detailType "Appointment Confirmed"); [discriminate Hquiet|].
  rewrite Bool.andb_false_r. apply IH. exact Hquiet.
Qed.

(** X16. [notifyError] returns whatever fails inside it, writes to no store,
    and what it publishes is never a ConfirmedEvent: nothing of it reaches
    the confirmation queue. *)
Theorem notify_error_never_throws (env : Env) (error : JsError) (context : json)
  (w : World) :
  exists w',
    NotificationService.notifyError env error context w = (Ok tt, w')
    /\ appointments w' = appointments w
    /\ rds_pe w' = rds_pe w /\ rds_cl w' = rds_cl w
    /\ confirmations (Infrastructure.effects_since w w') = []
    /\ Infrastructure.confirmation_queue (Infrastructure.effects_since w w') = [].
Proof.
  destruct (notify_error_run env PE error context w)
    as (es & w' & Hnotify & (Hstore & Hacc & _) & Hquiet & Hnone).
  exists w'. split; [exact Hnotify|]. split; [exact Hstore|].
  destruct Hacc as (Heffects & Hrds & _).
  assert (Hrows : forall c', rows_for c' es = []).
  { intros c'. destruct (rows_for c' es) as [|row rows] eqn:Hr; [reflexivity|].
    exfalso. pose proof (rows_for_inserted c' es row) as Hin.
    rewrite Hr, Hnone in Hin. apply Hin. left. reflexivity. }
  split; [pose proof (Hrds PE) as H; rewrite Hrows, List.app_nil_r in H; exact H|].
  split; [pose proof (Hrds CL) as H; rewrite Hrows, List.app_nil_r in H; exact H|].
  rewrite (effects_since_app _ _ _ Heffects).
  split; [exact Hquiet | apply no_confirmation_no_record; exact Hquiet].
Qed.

(* ===================================================================== *)
(** * From one Lambda to the next *)
(* ===================================================================== *)

Lemma parse_queued_body (env : Env) (a : Appointment.t) :
  CountryHandler.parseAppointmentEvent (queued_body env a)
  = Ok (parsed_fields (created_event_of a)).
Proof.
  unfold CountryHandler.parseAppointmentEvent, JSON_parse, queued_body,
    Infrastructure.sns_envelope.
  rewrite parse_stringify.
  cbn [Result_bind get_property assoc_last String.eqb Ascii.eqb Bool.eqb].
  unfold NotificationService.created_message.
  cbn [truthy ToString_val ToString]. rewrite stringify_object_not_empty.
  cbn [negb]. rewrite parse_stringify. reflexivity.
Qed.

(** X17. The CreatedEvent that Intake publishes for an appointment reaches
    the queue of the appointment's country and no other, and what the
    handler of that country parses from the queued message is the event
    Intake built, field by field. *)
Theorem created_event_reaches_its_country_only (env : Env) (a : Appointment.t) :
  Infrastructure.country_queue (Appointment.countryISO a) [created_publication env a]
  = [mkRecord "message-0" (queued_body env a)]
  /\ Infrastructure.country_queue (other_country (Appointment.countryISO a))
       [created_publication env a] = []
  /\ CountryHandler.parseAppointmentEvent (queued_body env a)
     = Ok (parsed_fields (created_event_of a))
  /\ CountryHandler.typed (Appointment.countryISO a) (parsed_fields (created_event_of a))
     = Some (created_event_of a).
Proof.
  split; [|split; [|split; [apply parse_queued_body|]]].
  - unfold Infrastructure.country_queue, created_publication, queued_body.
    destruct (Appointment.countryISO a); reflexivity.
  - unfold Infrastructure.country_queue, created_publication.
    destruct (Appointment.countryISO a); reflexivity.
  - destruct a; reflexivity.
Qed.

Lemma five_digits_not_empty (s : string) : five_digits s = true -> s <> EmptyString.
Proof. intros H ->. discriminate H. Qed.

(** X18. When the event of an appointment has an id, a five-digit insured id
    and a positive schedule, the handler of its country accepts the queued
    message and hands the processor the event that Intake built. *)
Theorem queued_event_is_handed_to_the_processor (env env' : Env) (a : Appointment.t)
  (mid : string) (w : World) :
  well_formed_event (created_event_of a) ->
  CountryHandler.processRecord env' (Appointment.countryISO a)
    (mkRecord mid (queued_body env a)) w
  = BaseAppointmentProcessor.processAppointment env' (Appointment.countryISO a)
      (created_event_of a) w.
Proof.
  intros (Hid & Hinsured & Hschedule). cbn in Hid, Hinsured, Hschedule.
  unfold CountryHandler.processRecord, bind, lift. cbn [body].
  rewrite parse_queued_body.
  assert (CountryHandler.validateCountryEvent (Appointment.countryISO a)
            (parsed_fields (created_event_of a)) = Ok tt) as ->.
  { unfold CountryHandler.validateCountryEvent, parsed_fields, created_event_of.
    cbn [ParsedEvent.countryISO ParsedEvent.appointmentId ParsedEvent.insuredId
         ParsedEvent.scheduleId AppointmentCreatedEvent.countryISO
         AppointmentCreatedEvent.appointmentId AppointmentCreatedEvent.insuredId
         AppointmentCreatedEvent.scheduleId CountryHandler.is_country truthy
         ToString_val ToString].
    rewrite String.eqb_refl. cbn [negb].
    destruct (String.eqb_spec (Appointment.id a) "") as [Hempty|_]; [contradiction|].
    destruct (String.eqb_spec (Appointment.insuredId a) "") as [Hempty|_];
      [exfalso; exact (five_digits_not_empty _ Hinsured Hempty)|].
    destruct (Z.eqb_spec (Appointment.scheduleId a) 0) as [Hzero|_]; [lia|].
    cbn [negb orb]. rewrite Hinsured. reflexivity. }
  destruct a; reflexivity.
Qed.

Lemma queued_event_is_handed_to_the_processor_witness :
  let a := Appointment.mk "a-100" "00789" 100 PE PENDING clock clock in
  CountryHandler.processRecord (no_faults clock) (Appointment.countryISO a)
    (mkRecord "m-1" (queued_body (no_faults clock) a)) one_pending
  = BaseAppointmentProcessor.processAppointment (no_faults clock) (Appointment.countryISO a)
      (created_event_of a) one_pending.
Proof.
  intros a. apply queued_event_is_handed_to_the_processor.
  split; [discriminate | split; [reflexivity | reflexivity]].
Defined.

(** X19. The ConfirmedEvent that a processor publishes reaches the
    confirmation queue, and what the reconciler does with the queued record
    is the update of the event's appointment to COMPLETED. *)
Theorem confirmed_event_reaches_reconciler (env env' : Env)
  (event : AppointmentConfirmedEvent.t) (mid : string) (w : World) :
  Infrastructure.confirmation_queue
    [PutEvents "appointment.service" "Appointment Confirmed"
       (stringify (NotificationService.confirmed_detail env event))]
  = [mkRecord "message-0" (confirmed_body env event)]
  /\ AppointmentHandler.handleSQSRecord env' (mkRecord mid (confirmed_body env event)) w
     = AppointmentHandler.updateAppointmentStatus env'
         (AppointmentConfirmedEvent.appointmentId event) COMPLETED w.
Proof.
  split.
  - unfold Infrastructure.confirmation_queue.
    cbn [Infrastructure.collect Infrastructure.confirmation_rule].
    replace (String.eqb "appointment.service" "appointment.service"
             && String.eqb "Appointment Confirmed" "Appointment Confirmed")%bool
      with true by reflexivity.
    rewrite parse_stringify. reflexivity.
  - unfold AppointmentHandler.handleSQSRecord. rewrite rethrow_is_identity.
    unfold bind, lift, JSON_parse, confirmed_body. cbn [body].
    rewrite parse_stringify. reflexivity.
Qed.

(* ===================================================================== *)
(** * Validation of create requests *)
(* ===================================================================== *)

Lemma validated_request_is_valid (request : json) (r : AppointmentRequest.t) :
  ValidationService.validateAppointmentRequest request = Ok r ->
  five_digits (AppointmentRequest.insuredId r) = true
  /\ 0 < AppointmentRequest.scheduleId r.
Proof.
  unfold ValidationService.validateAppointmentRequest.
  destruct request as [| | | | |members]; try (intros H; discriminate H).
  cbv zeta.
  destruct (assoc_last "insuredId" members) as [[| | |i| |]|];
    cbn [ValidationService.insuredId_errors List.app]; try (intros H; discriminate H).
  destruct (String.eqb i ""); cbn [List.app]; [intros H; discriminate H|].
  destruct (five_digits i) eqn:Hfive; cbn [List.app]; [|intros H; discriminate H].
  destruct (assoc_last "scheduleId" members) as [[| |n| | |]|];
    cbn [ValidationService.scheduleId_errors List.app]; try (intros H; discriminate H).
  destruct (Z.ltb_spec 0 n) as [Hpos|_]; cbn [List.app]; [|intros H; discriminate H].
  unfold ValidationService.countryISO_errors.
  destruct (assoc_last "countryISO" members) as [country|]; [|intros H; discriminate H].
  destruct (ValidationService.countryISO_of (Some country)) as [c|];
    [|intros H; discriminate H].
  intros [= <-]. split; assumption.
Qed.

Lemma assoc_last_app (key : string) (l1 l2 : list (string * json)) :
  assoc_last key (l1 ++ l2)
  = match assoc_last key l2 with
    | Some v => Some v
    | None => assoc_last key l1
    end.
Proof.
  induction l1 as [|[k v] l1 IH]; cbn [List.app assoc_last].
  - destruct (assoc_last key l2); reflexivity.
  - rewrite IH. destruct (assoc_last key l2); reflexivity.
Qed.

(** X20. A request object whose [insuredId] is five digits, whose
    [scheduleId] is a positive safe integer and whose [countryISO] is PE or
    CL is accepted, whatever other members come before these three: they are
    stripped, and the validated request has the three values. *)
Theorem wellformed_request_is_accepted (extra : list (string * json))
  (r : AppointmentRequest.t) :
  five_digits (AppointmentRequest.insuredId r) = true ->
  0 < AppointmentRequest.scheduleId r <= MAX_SAFE_INTEGER ->
  ValidationService.validateAppointmentRequest (request_json extra r) = Ok r.
Proof.
  intros Hfive (Hpos & _).
  unfold ValidationService.validateAppointmentRequest, request_json. cbv zeta.
  rewrite !assoc_last_app.
  cbn [assoc_last String.eqb Ascii.eqb Bool.eqb].
  cbn [ValidationService.insuredId_errors ValidationService.scheduleId_errors].
  destruct (String.eqb_spec (AppointmentRequest.insuredId r) "") as [Hempty|_];
    [rewrite Hempty in Hfive; discriminate Hfive|].
  rewrite Hfive. destruct (Z.ltb_spec 0 (AppointmentRequest.scheduleId r)); [|lia].
  destruct r as [i n []]; reflexivity.
Qed.

Lemma wellformed_request_is_accepted_witness :
  ValidationService.validateAppointmentRequest
    (request_json [("comment", JStr "first visit"); ("insuredId", JNum 7)]
                  (AppointmentRequest.mk "00123" 100 PE))
  = Ok (AppointmentRequest.mk "00123" 100 PE).
Proof.
  apply wellformed_request_is_accepted.
  - reflexivity.
  - unfold MAX_SAFE_INTEGER. cbn. lia.
Defined.

(** ** Valid appointments in the Primary Store *)

Lemma set_status_valid (id : string) (s : AppointmentStatus) (updatedAt : string)
  (a : Appointment.t) :
  valid_appointment a -> valid_appointment (set_status id s updatedAt a).
Proof.
  unfold set_status, valid_appointment.
  destruct (String.eqb (Appointment.id a) id); auto.
Qed.

Lemma update_keeps_valid (env : Env) (appointmentId : string) (newStatus : AppointmentStatus)
  (w : World) :
  Forall valid_appointment (appointments w) ->
  Forall valid_appointment
    (appointments (snd (AppointmentHandler.updateAppointmentStatus env appointmentId
                          newStatus w))).
Proof.
  intros Hvalid. unfold AppointmentHandler.updateAppointmentStatus.
  destruct (AppointmentService.updateAppointmentStatus _ _ _ w) as [[[]|e] w'] eqn:Hrun;
    cbn [snd].
  - apply update_cases in Hrun. destruct Hrun as (_ & _ & _ & ->). cbn [appointments].
    rewrite Forall_forall in *. intros a Hin. apply in_map_iff in Hin.
    destruct Hin as (b & <- & Hb). apply set_status_valid. auto.
  - apply failed_update_changes_nothing in Hrun. subst. exact Hvalid.
Qed.

Lemma create_keeps_valid (env : Env) (requestData : json) (w : World) :
  Forall valid_appointment (appointments w) ->
  Forall valid_appointment
    (appointments (snd (AppointmentHandler.createAppointment env requestData w))).
Proof.
  intros Hvalid.
  pose proof (create_appointment_cases env requestData w) as H.
  destruct (AppointmentHandler.createAppointment env requestData w) as [result w'].
  cbn [snd]. destruct H as (response & _ & _ & _ & Hcases).
  destruct Hcases as [(_ & -> & _) | (request & Haccepted & _ & -> & _)]; [exact Hvalid|].
  apply Forall_app. split; [exact Hvalid|]. constructor; [|constructor].
  exact (validated_request_is_valid _ _ Haccepted).
Qed.

Lemma reconciler_keeps_valid (env : Env) (records : list SQSRecord) :
  forall w,
    Forall valid_appointment (appointments w) ->
    Forall valid_appointment
      (appointments (snd (AppointmentHandler.handleSQSMessages env records w))).
Proof.
  induction records as [|record rest IH]; intros w Hvalid; [exact Hvalid|].
  cbn [AppointmentHandler.handleSQSMessages]. unfold bind.
  assert (Hfirst : Forall valid_appointment
                     (appointments (snd (AppointmentHandler.handleSQSRecord env record w)))).
  { destruct (handle_record_cases env record w) as [(e & ->) | (appointmentId & ->)];
      [exact Hvalid | apply update_keeps_valid; exact Hvalid]. }
  destruct (AppointmentHandler.handleSQSRecord env record w) as [[[]|e] w1];
    cbn [snd] in *; [apply IH|]; exact Hfirst.
Qed.

(** X21. The Primary Store only ever holds valid appointments: if every
    appointment has a five-digit insured id and a positive schedule, then so
    has every appointment after any history of invocations. *)
Theorem store_holds_only_valid_appointments (history : list Invocation) (w : World) :
  Forall valid_appointment (appointments w) ->
  Forall valid_appointment (appointments (run history w)).
Proof.
  unfold run. revert w.
  induction history as [|i history IH]; intros w Hvalid; [exact Hvalid|].
  cbn [fold_left]. apply IH.
  destruct i as [env query_fault event | env c records | env records | env id status];
    cbn [invoke].
  - destruct (http_request_world env query_fault event w) as [-> | (requestData & ->)];
      [exact Hvalid | apply create_keeps_valid; exact Hvalid].
  - destruct (country_handler_run env c records w)
      as (es & w' & failures & _ & Hrun & (Hstore & _) & _).
    rewrite Hrun. cbn [snd]. rewrite Hstore. exact Hvalid.
  - apply reconciler_keeps_valid. exact Hvalid.
  - apply update_keeps_valid. exact Hvalid.
Qed.

Lemma store_holds_only_valid_appointments_witness :
  Forall valid_appointment (appointments (run sample_history one_completed)).
Proof.
  apply store_holds_only_valid_appointments.
  constructor; [|constructor]. split; [reflexivity | cbn; lia].
Defined.

(* ===================================================================== *)
(** * The insured id of the list query *)
(* ===================================================================== *)

Lemma string_length_app (s t : string) :
  String.length (s ++ t) = (String.length s + String.length t)%nat.
Proof. induction s as [|c s IH]; cbn; [reflexivity | now rewrite IH]. Qed.

Lemma digits_app (s t : string) :
  forallb is_digit (list_ascii_of_string (s ++ t))
  = (forallb is_digit (list_ascii_of_string s)
     && forallb is_digit (list_ascii_of_string t))%bool.
Proof.
  induction s as [|c s IH]; cbn; [reflexivity|].
  rewrite IH. now rewrite Bool.andb_assoc.
Qed.

Lemma zeros_length (n : nat) : String.length (ValidationService.zeros n) = n.
Proof. induction n as [|n IH]; cbn; [reflexivity | now rewrite IH]. Qed.

Lemma zeros_digits (n : nat) :
  forallb is_digit (list_ascii_of_string (ValidationService.zeros n)) = true.
Proof. induction n as [|n IH]; cbn; [reflexivity | exact IH]. Qed.

(** What [replace(/^0+/, '')] leaves: the string is some zeros and then the
    rest, which does not start with a zero. *)
Lemma strip_leading_zeros_split (s : string) :
  exists n,
    s = ValidationService.zeros n ++ ValidationService.strip_leading_zeros s
    /\ ValidationService.strip_leading_zeros (ValidationService.strip_leading_zeros s)
       = ValidationService.strip_leading_zeros s.
Proof.
  induction s as [|c s (n & Hsplit & Hfixed)]; [exists 0%nat; split; reflexivity|].
  cbn [ValidationService.strip_leading_zeros].
  destruct (Ascii.eqb_spec c "0") as [->|Hne].
  - exists (S n). cbn. split; [now rewrite <- Hsplit | exact Hfixed].
  - exists 0%nat. split; [reflexivity|]. cbn [ValidationService.strip_leading_zeros].
    destruct (Ascii.eqb_spec c "0"); [contradiction | reflexivity].
Qed.

(** X22. [formatInsuredId] turns a string of one to five digits into a valid
    insured id, and leaves a valid insured id as it is. *)
Theorem format_insured_id_gives_valid_id (s : string) :
  (String.length s <= 5)%nat ->
  forallb is_digit (list_ascii_of_string s) = true ->
  ValidationService.validateInsuredId (ValidationService.formatInsuredId s) = true
  /\ (ValidationService.validateInsuredId s = true ->
      ValidationService.formatInsuredId s = s).
Proof.
  intros Hlength Hdigits.
  destruct (strip_leading_zeros_split s) as (n & Hsplit & _).
  set (t := ValidationService.strip_leading_zeros s) in *.
  assert (Hn : (n + String.length t = String.length s)%nat).
  { pose proof (f_equal String.length Hsplit) as Hlen.
    rewrite string_length_app, zeros_length in Hlen. lia. }
  assert (Ht : forallb is_digit (list_ascii_of_string t) = true).
  { rewrite Hsplit, digits_app in Hdigits.
    apply Bool.andb_true_iff in Hdigits. apply Hdigits. }
  unfold ValidationService.validateInsuredId, ValidationService.formatInsuredId,
    ValidationService.padStart_zeros, five_digits.
  fold t.
  destruct (String.eqb_spec t "") as [Hempty|Hfull].
  - split; [reflexivity|].
    intros Hfive. apply Bool.andb_true_iff in Hfive. destruct Hfive as (Hfive & _).
    apply Nat.eqb_eq in Hfive. rewrite Hempty in Hn, Hsplit. cbn in Hn.
    assert (n = 5%nat) as -> by lia. rewrite Hsplit. reflexivity.
  - split.
    + rewrite string_length_app, zeros_length, digits_app, zeros_digits, Ht.
      replace (5 - String.length t + String.length t)%nat with 5%nat by lia.
      reflexivity.
    + intros Hfive. apply Bool.andb_true_iff in Hfive. destruct Hfive as (Hfive & _).
      apply Nat.eqb_eq in Hfive.
      replace (5 - String.length t)%nat with n by lia. now rewrite <- Hsplit.
Qed.

Lemma format_insured_id_gives_valid_id_witness :
  ValidationService.validateInsuredId (ValidationService.formatInsuredId "0042") = true
  /\ ValidationService.formatInsuredId "0042" = "00042".
Proof.
  split; [|reflexivity].
  exact (proj1 (format_insured_id_gives_valid_id "0042" ltac:(cbn; lia) eq_refl)).
Defined.

(* ===================================================================== *)
(** * The HTTP endpoints *)
(* ===================================================================== *)

Lemma response_json_members (r : AppointmentResponse.t) :
  exists members,
    AppointmentHandler.response_json r = JObj members
    /\ assoc_last "success" members = Some (JBool (AppointmentResponse.success r))
    /\ assoc_last "message" members = Some (JStr (AppointmentResponse.message r)).
Proof.
  unfold AppointmentHandler.response_json. eexists. split; [reflexivity|].
  destruct (AppointmentResponse.data r) as [[appointmentId status]|],
           (AppointmentResponse.error r) as [e|]; split; reflexivity.
Qed.

(** X23. The create endpoint always answers, with 201 or 400 and a body that
    is a JSON object with a [message] and with [success] true exactly when
    the status is 201; and it answers 201 only when the request was stored
    as a new PENDING appointment. *)
Theorem create_endpoint_status_follows_success (env : Env) (event_body : option string)
  (w : World) :
  exists response w' members text,
    AppointmentHandler.handleCreateAppointment env event_body w = (Ok response, w')
    /\ (http_statusCode response = 201 \/ http_statusCode response = 400)
    /\ parse (http_body response) = Some (JObj members)
    /\ assoc_last "success" members = Some (JBool (http_statusCode response =? 201))
    /\ assoc_last "message" members = Some (JStr text)
    /\ (http_statusCode response = 201 ->
        exists a, appointments w' = (appointments w ++ [a])%list
                  /\ Appointment.status a = PENDING).
Proof.
  unfold AppointmentHandler.handleCreateAppointment.
  assert (Hrefused : forall message error,
             exists response w' members text,
               ret (AppointmentHandler.createResponse 400
                      (JObj [("success", JBool false); ("message", JStr message);
                             ("error", JStr error)])) w = (Ok response, w')
               /\ (http_statusCode response = 201 \/ http_statusCode response = 400)
               /\ parse (http_body response) = Some (JObj members)
               /\ assoc_last "success" members = Some (JBool (http_statusCode response =? 201))
               /\ assoc_last "message" members = Some (JStr text)
               /\ (http_statusCode response = 201 ->
                   exists a, appointments w' = (appointments w ++ [a])%list
                             /\ Appointment.status a = PENDING)).
  { intros message error. do 4 eexists. split; [reflexivity|].
    split; [right; reflexivity|]. cbn [http_body AppointmentHandler.createResponse].
    split; [apply parse_stringify|]. split; [reflexivity|]. split; [reflexivity|].
    intros H; discriminate H. }
  destruct event_body as [[|c text]|]; try apply Hrefused.
  destruct (parse (String c text)) as [requestData|]; [|apply Hrefused].
  unfold bind, ret.
  pose proof (create_appointment_cases env requestData w) as H.
  destruct (AppointmentHandler.createAppointment env requestData w) as [result w'].
  destruct H as (response & -> & _ & _ & Hcases).
  destruct (response_json_members response) as (members & Hjson & Hsuccess & Hmessage).
  exists (AppointmentHandler.createResponse
            (if AppointmentResponse.success response then 201 else 400)
            (AppointmentHandler.response_json response)),
         w', members, (AppointmentResponse.message response).
  split; [reflexivity|].
  cbn [http_statusCode http_body AppointmentHandler.createResponse].
  split; [destruct (AppointmentResponse.success response); [left | right]; reflexivity|].
  split; [rewrite parse_stringify, Hjson; reflexivity|].
  split; [rewrite Hsuccess; destruct (AppointmentResponse.success response); reflexivity|].
  split; [exact Hmessage|].
  destruct Hcases as [(Hfailed & _) | (request & _ & _ & Hstore & _)].
  - rewrite Hfailed. intros H; discriminate H.
  - intros _. eexists. split; [exact Hstore | reflexivity].
Qed.

(** ** The list of an insured *)

(** X24. For a valid insured id and a query that is answered, the list
    query reads and changes nothing; its response has [success] true, a
    [total] that is the length of [data], and in [data] appointments of the
    Primary Store that belong to the insured, none with a schedule
    attached. *)
Theorem list_holds_appointments_of_the_insured (insuredId : string) (w : World) :
  ValidationService.validateInsuredId insuredId = true ->
  exists data,
    AppointmentHandler.getAppointmentsByInsuredId None insuredId w
    = (Ok (mkListResponse true data (List.length data)), w)
    /\ forall a schedule,
         In (a, schedule) data ->
         schedule = None
         /\ In a (appointments w)
         /\ Appointment.insuredId a = insuredId.
Proof.
  intros Hvalid.
  unfold AppointmentHandler.getAppointmentsByInsuredId,
    AppointmentService.getAppointmentsByInsuredId,
    AppointmentService.validateInsuredIdFormat,
    AppointmentService.enrichAppointmentsWithSchedule,
    AppointmentRepository.findByInsuredId, AppointmentRepository.QueryCommand_InsuredIdIndex,
    rejected, try_catch, bind, throw, ret.
  rewrite Hvalid. cbn [negb].
  set (found := filter _ (appointments w)).
  exists (map (fun a => (a, None)) found).
  split; [destruct found; reflexivity|].
  intros a schedule Hin. apply in_map_iff in Hin. destruct Hin as (b & [= <- <-] & Hb).
  split; [reflexivity|]. unfold found in Hb.
  apply (proj1 (filter_In _ _ _)) in Hb.
  destruct Hb as (Hstore & Hinsured). split; [exact Hstore|].
  now apply String.eqb_eq.
Qed.

Lemma list_holds_appointments_of_the_insured_witness :
  exists data,
    AppointmentHandler.getAppointmentsByInsuredId None "00789" one_pending
    = (Ok (mkListResponse true data (List.length data)), one_pending)
    /\ map (fun e => Appointment.id (fst e)) data = ["a-100"].
Proof.
  destruct (list_holds_appointments_of_the_insured "00789" one_pending eq_refl)
    as (data & Hrun & _).
  vm_compute in Hrun. injection Hrun as <-.
  eexists. split; reflexivity.
Defined.

(** X25. An insured id that is not five digits is not an error for the list
    endpoint: it answers 200 with [success] false, no data and total 0, and
    does not query the store. *)
Theorem list_of_invalid_insured_id_is_200 (dynamo_query_fault : option string)
  (insuredId : string) (w : World) :
  insuredId <> EmptyString ->
  ValidationService.validateInsuredId insuredId = false ->
  AppointmentHandler.handleGetAppointments dynamo_query_fault (Some insuredId) w
  = (Ok (AppointmentHandler.createResponse 200
           (JObj [("success", JBool false); ("data", JArr []); ("total", JNum 0)])), w).
Proof.
  intros Hgiven Hinvalid.
  unfold AppointmentHandler.handleGetAppointments.
  destruct insuredId as [|c s]; [contradiction|].
  unfold AppointmentHandler.getAppointmentsByInsuredId,
    AppointmentService.getAppointmentsByInsuredId,
    AppointmentService.validateInsuredIdFormat, try_catch, bind, throw, ret.
  rewrite Hinvalid. reflexivity.
Qed.

Lemma list_of_invalid_insured_id_is_200_witness :
  http_statusCode
    (match fst (AppointmentHandler.handleGetAppointments None (Some "12ab") one_pending) with
     | Ok response => response
     | Throw _ => AppointmentHandler.createResponse 0 JNull
     end) = 200.
Proof.
  rewrite (list_of_invalid_insured_id_is_200 None "12ab" one_pending);
    [reflexivity | discriminate | reflexivity].
Defined.

(** X26. When the query of the store is rejected, the list endpoint answers
    500 with the code FIND_BY_INSURED_ERROR and the message of the failure. *)
Theorem list_query_failure_is_500 (fault insuredId : string) (w : World) :
  ValidationService.validateInsuredId insuredId = true ->
  AppointmentHandler.handleGetAppointments (Some fault) (Some insuredId) w
  = (Ok (AppointmentHandler.createResponse 500
           (JObj [("success", JBool false);
                  ("message", JStr "Error en la solicitud");
                  ("error", JStr ("Error al buscar citas del asegurado: " ++ fault));
                  ("code", JStr "FIND_BY_INSURED_ERROR")])), w).
Proof.
  intros Hvalid.
  unfold AppointmentHandler.handleGetAppointments.
  destruct insuredId as [|c s]; [discriminate Hvalid|].
  unfold AppointmentHandler.getAppointmentsByInsuredId,
    AppointmentService.getAppointmentsByInsuredId,
    AppointmentService.validateInsuredIdFormat,
    AppointmentRepository.findByInsuredId, AppointmentRepository.QueryCommand_InsuredIdIndex,
    rejected, try_catch, bind, throw, ret.
  rewrite Hvalid. reflexivity.
Qed.

Lemma list_query_failure_is_500_witness :
  http_statusCode
    (match fst (AppointmentHandler.handleGetAppointments (Some "Throttled") (Some "00789")
                  one_pending) with
     | Ok response => response
     | Throw _ => AppointmentHandler.createResponse 0 JNull
     end) = 500.
Proof.
  rewrite (list_query_failure_is_500 "Throttled" "00789" one_pending eq_refl).
  reflexivity.
Defined.

(** ** Every request *)

Lemma list_endpoint_answers (dynamo_query_fault : option string) (insuredId : option string)
  (w : World) :
  exists statusCode body w',
    AppointmentHandler.handleGetAppointments dynamo_query_fault insuredId w
    = (Ok (AppointmentHandler.createResponse statusCode body), w')
    /\ In statusCode [200; 400; 500].
Proof.
  unfold AppointmentHandler.handleGetAppointments.
  destruct insuredId as [[|c s]|];
    try (do 3 eexists; split; [reflexivity | cbn; auto]).
  unfold AppointmentHandler.getAppointmentsByInsuredId,
    AppointmentService.getAppointmentsByInsuredId,
    AppointmentService.validateInsuredIdFormat,
    AppointmentService.enrichAppointmentsWithSchedule,
    AppointmentRepository.findByInsuredId, AppointmentRepository.QueryCommand_InsuredIdIndex,
    rejected, try_catch, bind, throw, ret.
  destruct (ValidationService.validateInsuredId (String c s)); cbn [negb];
    [|do 3 eexists; split; [reflexivity | cbn; auto]].
  destruct dynamo_query_fault;
    do 3 eexists; (split; [reflexivity | cbn; auto]).
Qed.

Lemma create_endpoint_answers (env : Env) (event_body : option string) (w : World) :
  exists statusCode body w',
    AppointmentHandler.handleCreateAppointment env event_body w
    = (Ok (AppointmentHandler.createResponse statusCode body), w')
    /\ In statusCode [201; 400].
Proof.
  unfold AppointmentHandler.handleCreateAppointment.
  destruct event_body as [[|c text]|];
    try (do 3 eexists; split; [reflexivity | cbn; auto]).
  destruct (parse (String c text)) as [requestData|];
    [|do 3 eexists; split; [reflexivity | cbn; auto]].
  unfold AppointmentHandler.createAppointment, bind, ret.
  destruct (create_appointment_never_throws (AppointmentRepository.instance env)
              (NotificationService.instance env)
              ValidationService.validateAppointmentRequest None requestData w)
    as (response & w1 & ->).
  do 3 eexists. split; [reflexivity|].
  destruct (AppointmentResponse.success response); cbn; auto.
Qed.

(** X27. The HTTP handler answers every request: it never throws, its status
    is one of 200, 201, 400, 404 and 500, and every response carries the
    CORS headers.  A request that is neither OPTIONS, nor POST /appointment,
    nor a GET under /appointment/ is answered 404 and changes nothing. *)
Theorem http_request_always_answers (env : Env) (dynamo_query_fault : option string)
  (event : APIGatewayProxyEvent) (w : World) :
  exists response w',
    AppointmentHandler.handleHttpRequest env dynamo_query_fault event w = (Ok response, w')
    /\ In (http_statusCode response) [200; 201; 400; 404; 500]
    /\ http_headers response = cors_headers
    /\ (String.eqb (httpMethod event) "OPTIONS" = false ->
        (String.eqb (httpMethod event) "POST" && String.eqb (path event) "/appointment")%bool
        = false ->
        (String.eqb (httpMethod event) "GET" && prefix "/appointment/" (path event))%bool
        = false ->
        http_statusCode response = 404 /\ w' = w).
Proof.
  unfold AppointmentHandler.handleHttpRequest, try_catch.
  destruct (String.eqb (httpMethod event) "OPTIONS").
  { do 2 eexists. split; [reflexivity|]. split; [cbn; auto|]. split; [reflexivity|].
    intros H; discriminate H. }
  destruct (String.eqb (httpMethod event) "POST" && String.eqb (path event) "/appointment")%bool.
  { destruct (create_endpoint_answers env (event_body event) w)
      as (statusCode & body & w' & -> & Hcode).
    do 2 eexists. split; [reflexivity|].
    split; [cbn in Hcode |- *; intuition auto|]. split; [reflexivity|].
    intros _ H; discriminate H. }
  destruct (String.eqb (httpMethod event) "GET" && prefix "/appointment/" (path event))%bool.
  { destruct (list_endpoint_answers dynamo_query_fault (pathParameters_insuredId event) w)
      as (statusCode & body & w' & -> & Hcode).
    do 2 eexists. split; [reflexivity|].
    split; [cbn in Hcode |- *; intuition auto|]. split; [reflexivity|].
    intros _ _ H; discriminate H. }
  do 2 eexists. split; [reflexivity|]. split; [cbn; auto|]. split; [reflexivity|].
  intros _ _ _. split; reflexivity.
Qed.

(** ** Schedules in the list *)

Lemma enrich_each_keeps (getScheduleById : Z -> M (option Schedule))
  (appointments : list Appointment.t) :
  forall w,
  exists enriched w',
    AppointmentService.enrichEach getScheduleById appointments w = (Ok enriched, w')
    /\ map fst enriched = appointments.
Proof.
  induction appointments as [|a rest IH]; intros w.
  - exists [], w. split; reflexivity.
  - cbn [AppointmentService.enrichEach]. unfold bind, try_catch, ret.
    destruct (getScheduleById (Appointment.scheduleId a) w) as [[schedule|e] w1];
      destruct (IH w1) as (others & w2 & -> & Hothers);
      do 2 eexists; (split; [reflexivity|]); cbn [map fst]; now rewrite Hothers.
Qed.

(** X28. Whatever the schedule service does for each appointment, return a
    schedule, return none or throw, the enrichment returns, and returns the
    appointments it was given, all of them and in their order. *)
Theorem enrichment_keeps_the_appointments
  (scheduleService : option (Z -> M (option Schedule)))
  (appointments : list Appointment.t) (w : World) :
  exists enriched w',
    AppointmentService.enrichAppointmentsWithSchedule scheduleService appointments w
    = (Ok enriched, w')
    /\ map fst enriched = appointments.
Proof.
  unfold AppointmentService.enrichAppointmentsWithSchedule.
  destruct scheduleService as [getScheduleById|], appointments as [|a rest];
    try apply enrich_each_keeps;
    do 2 eexists; (split; [reflexivity|]);
    rewrite map_map; cbn [fst]; apply map_id.
Qed.

(** ** Reading an appointment back *)

Lemma lookup_last (a : Appointment.t) (l : list Appointment.t) :
  Appointment.id a <> EmptyString ->
  lookup (Appointment.id a) l = None -> lookup (Appointment.id a) (l ++ [a]) = Some a.
Proof.
  unfold lookup. intros Hkey. apply String.eqb_neq in Hkey. rewrite Hkey.
  intros Hfresh. induction l as [|b l IH]; cbn [List.app find].
  - rewrite String.eqb_refl. reflexivity.
  - cbn [find] in Hfresh.
    destruct (String.eqb (Appointment.id b) (Appointment.id a)); [discriminate Hfresh|].
    apply IH. exact Hfresh.
Qed.

(** X29. An appointment that a create request reported as created can be
    read back by the id of the response: when the read is answered,
    [getAppointmentById] returns the appointment of the request, PENDING. *)
Theorem created_appointment_can_be_read_back (env env' : Env) (requestData : json)
  (w w' : World) (response : AppointmentResponse.t) :
  AppointmentHandler.createAppointment env requestData w = (Ok response, w') ->
  AppointmentResponse.success response = true ->
  dynamo_get_fault env' = None ->
  exists request appointmentId,
    ValidationService.validateAppointmentRequest requestData = Ok request
    /\ AppointmentResponse.data response = Some (appointmentId, PENDING)
    /\ AppointmentService.getAppointmentById (AppointmentRepository.findById env')
         appointmentId w'
       = (Ok (Appointment.mk appointmentId
                (AppointmentRequest.insuredId request)
                (AppointmentRequest.scheduleId request)
                (AppointmentRequest.countryISO request)
                PENDING (now env) (now env)), w').
Proof.
  intros Hrun Hsuccess Hget.
  pose proof (create_appointment_cases env requestData w) as H.
  rewrite Hrun in H. destruct H as (response' & [= <-] & _ & _ & Hcases).
  destruct Hcases as [(Hfalse & _) | (request & Hvalid & Hfresh & Hstore & Hout)];
    [congruence|].
  destruct Hout as [(-> & _) | (Hfalse & _)]; [|congruence].
  exists request, (uuid_of (uuids w)). split; [exact Hvalid|]. split; [reflexivity|].
  unfold AppointmentService.getAppointmentById, AppointmentRepository.findById, GetCommand,
    rejected, key_checked, try_catch, bind, throw, ret.
  rewrite Hget, (proj2 (String.eqb_neq _ _) (uuid_of_not_empty (uuids w))).
  cbv beta. rewrite Hstore.
  pose proof (lookup_last (new_appointment env request w) _
                (uuid_of_not_empty (uuids w)) Hfresh) as Hfound.
  unfold new_appointment in Hfound. cbn [Appointment.id] in Hfound.
  rewrite Hfound. reflexivity.
Qed.

Lemma created_appointment_can_be_read_back_witness :
  let w' := snd (AppointmentHandler.createAppointment (no_faults clock) request_100
                   emptyWorld) in
  exists request appointmentId,
    ValidationService.validateAppointmentRequest request_100 = Ok request
    /\ Some ("uuid-0", PENDING) = Some (appointmentId, PENDING)
    /\ AppointmentService.getAppointmentById
         (AppointmentRepository.findById (no_faults clock)) appointmentId w'
       = (Ok (Appointment.mk appointmentId
                (AppointmentRequest.insuredId request)
                (AppointmentRequest.scheduleId request)
                (AppointmentRequest.countryISO request)
                PENDING clock clock), w').
Proof.
  intros w'.
  apply (created_appointment_can_be_read_back (no_faults clock) (no_faults clock)
           request_100 emptyWorld w'
           (AppointmentResponse.mk true "El agendamiento está en proceso"
              (Some ("uuid-0", PENDING)) None));
    [vm_compute; reflexivity | reflexivity | reflexivity].
Defined.

(* ===================================================================== *)
(** * The Lambdas on their own *)
(* ===================================================================== *)

Lemma confirmation_without_processing (env : Env) (record : SQSRecord) (w : World) :
  Forall not_processing (appointments w) ->
  snd (AppointmentHandler.handleSQSRecord env record w) = w.
Proof.
  intros Hnone.
  destruct (handle_record_cases env record w) as [(e & ->) | (appointmentId & ->)];
    [reflexivity|].
  unfold AppointmentHandler.updateAppointmentStatus.
  destruct (AppointmentService.updateAppointmentStatus _ _ _ w) as [[[]|e] w'] eqn:Hrun;
    cbn [snd]; [|eapply failed_update_changes_nothing; exact Hrun].
  exfalso. apply update_cases in Hrun. destruct Hrun as (existing & Hl & Htable & _).
  apply lookup_in in Hl. destruct Hl as (Hin & _).
  rewrite Forall_forall in Hnone. apply (Hnone existing Hin).
  unfold transition_table in Htable.
  destruct (Appointment.status existing); try reflexivity; exfalso; cbn in Htable;
    repeat (destruct Htable as [Htable|Htable]; [discriminate Htable|]); contradiction.
Qed.

Lemma reconciler_without_processing (env : Env) (records : list SQSRecord) (w : World) :
  Forall not_processing (appointments w) ->
  snd (AppointmentHandler.handleSQSMessages env records w) = w.
Proof.
  intros Hnone. induction records as [|record rest IH]; [reflexivity|].
  cbn [AppointmentHandler.handleSQSMessages]. unfold bind.
  pose proof (confirmation_without_processing env record w Hnone) as Hfirst.
  destruct (AppointmentHandler.handleSQSRecord env record w) as [[[]|e] w1];
    cbn [snd] in Hfirst; subst w1; [exact IH | reflexivity].
Qed.

Lemma lambda_adds_pending (i : Invocation) (w : World) :
  is_lambda i ->
  Forall not_processing (appointments w) ->
  exists news,
    appointments (invoke i w) = (appointments w ++ news)%list
    /\ Forall is_pending news.
Proof.
  intros Hlambda Hnone.
  destruct i as [env query_fault event | env c records | env records | env id status];
    cbn [invoke]; [| | |contradiction].
  - destruct (http_request_world env query_fault event w) as [-> | (requestData & ->)];
      [exists []; split; [symmetry; apply List.app_nil_r | constructor]|].
    pose proof (create_appointment_cases env requestData w) as H.
    destruct (AppointmentHandler.createAppointment env requestData w) as [result w'].
    cbn [snd]. destruct H as (response & _ & _ & _ & Hcases).
    destruct Hcases as [(_ & -> & _) | (request & _ & _ & -> & _)].
    + exists []. split; [symmetry; apply List.app_nil_r | constructor].
    + eexists. split; [reflexivity|]. constructor; [reflexivity | constructor].
  - destruct (country_handler_run env c records w)
      as (es & w' & failures & _ & Hrun & (Hstore & _) & _).
    rewrite Hrun. cbn [snd]. rewrite Hstore.
    exists []. split; [symmetry; apply List.app_nil_r | constructor].
  - rewrite (reconciler_without_processing env records w Hnone).
    exists []. split; [symmetry; apply List.app_nil_r | constructor].
Qed.

(** X30. The three Lambdas on their own never move an appointment out of
    PENDING.  From a Primary Store with no PROCESSING appointment, after any
    history of HTTP requests, country batches and confirmation batches the
    store is what it was, followed by new appointments that are all PENDING:
    none was completed, whatever was confirmed. *)
Theorem lambdas_alone_never_complete_an_appointment (history : list Invocation)
  (w : World) :
  Forall is_lambda history ->
  Forall not_processing (appointments w) ->
  exists news,
    appointments (run history w) = (appointments w ++ news)%list
    /\ Forall is_pending news.
Proof.
  unfold run. revert w.
  induction history as [|i history IH]; intros w Hlambdas Hnone.
  - exists []. split; [symmetry; apply List.app_nil_r | constructor].
  - inversion Hlambdas as [|? ? Hlambda Hrest]; subst. cbn [fold_left].
    destruct (lambda_adds_pending i w Hlambda Hnone) as (news & Hstep & Hpending).
    destruct (IH (invoke i w) Hrest) as (later & Hrun & Hlater).
    { rewrite Hstep. apply Forall_app. split; [exact Hnone|].
      rewrite Forall_forall in *. intros a Hin. unfold not_processing.
      rewrite (Hpending a Hin). discriminate. }
    exists (news ++ later)%list. split.
    + rewrite Hrun, Hstep. now rewrite List.app_assoc.
    + apply Forall_app. split; assumption.
Qed.

Lemma lambdas_alone_never_complete_an_appointment_witness :
  let history :=
    [HttpRequest (no_faults clock) None post_request_100;
     CountryBatch (no_faults clock) PE
       [mkRecord "m-1"
          (queued_body (no_faults clock)
             (Appointment.mk "uuid-0" "00123" 100 PE PENDING clock clock))];
     ConfirmationBatch (no_faults clock)
       [mkRecord "m-2"
          (confirmed_body (no_faults clock)
             (AppointmentConfirmedEvent.mk "uuid-0" PE clock COMPLETED))]] in
  exists news,
    appointments (run history emptyWorld) = (appointments emptyWorld ++ news)%list
    /\ Forall is_pending news.
Proof.
  intros history. apply lambdas_alone_never_complete_an_appointment.
  - repeat constructor.
  - constructor.
Defined.
